(** * Borrowing lifecycle of the library-management backend

    A shallow embedding of the borrowing routes of [backend/app.py]
    ([create_borrow], [return_book], [renew_book], [apply_fine],
    [update_borrow_status], [update_reader]) over an explicit model of the
    MySQL store they talk to, followed by the properties of the
    specification that concern them.

    Conventions of the embedding:
    - a table is a finite map from the primary key [id] to a row;
    - a [DATE] is the proleptic Gregorian ordinal of Python's
      [datetime.date] (1 is 0001-01-01, 3652059 is 9999-12-31), and
      [date + timedelta(days=n)] raises [OverflowError] outside that range;
    - every storage primitive (opening a connection, executing a statement,
      committing) can fail; the outcomes of the primitives a request is
      going to meet are a list of booleans carried next to the database,
      and an exhausted list means that everything succeeds;
    - SQL comparisons on the status columns are exact (the statuses are
      stored in their canonical lower-case spelling);
    - the clock of the application ([datetime.now().date()]) and the clock
      of the database server ([CURDATE()]) agree: both are [today];
    - JSON strings and floating-point numbers in numeric fields are outside
      the model: a numeric field is an integer, a boolean or [null];
    - of an audit record only the action, the target type and the target id
      are kept. *)

From Stdlib Require Import ZArith String List Lia.
From stdpp Require Import gmap strings list fin_maps numbers.
From stdpp Require Import sorting.

Local Open Scope string_scope.
Local Open Scope Z_scope.

(** ** Rows and tables *)

Record reader := mk_reader {
  r_name : string;
  r_gender : string;
  r_phone : string;
  r_email : string;
  r_address : string;
  r_status : string;
  r_max_borrow_count : Z
}.

Record book := mk_book {
  bk_title : string;
  bk_status : string
}.

Record borrow := mk_borrow {
  b_reader_id : Z;
  b_book_id : Z;
  b_borrow_date : Z;
  b_due_date : Z;
  b_return_date : option Z;
  b_renew_count : option Z;
  b_fine_amount : option Z;
  b_status : string;
  b_notes : string
}.

(** The actions that [log_operation] is called with by the routes below. *)
Inductive action :=
| ActCreateBorrow
| ActReturnBook
| ActRenewBook
| ActApplyFine
| ActUpdateBorrowStatus
| ActUpdateReader.

Record log_entry := mk_log {
  lg_action : action;
  lg_target_type : string;
  lg_target_id : Z
}.

Record database := mk_db {
  readers : gmap Z reader;
  books : gmap Z book;
  borrows : gmap Z borrow;
  system_logs : list log_entry
}.

(** ** The store and its failures *)

Record world := mk_world {
  db : database;
  pending : list bool
}.

Definition M (A : Type) : Type := world -> A * world.

Definition ret {A} (a : A) : M A := fun w => (a, w).

Definition bind {A B} (m : M A) (k : A -> M B) : M B :=
  fun w => let (a, w') := m w in k a w'.

Notation "'do' x <- m ; k" := (bind m (fun x => k))
  (at level 10, x name, m at level 100, k at level 200,
   format "'[v' 'do'  x  <-  m ; '/' k ']'").
Notation "'run' m ; k" := (bind m (fun _ => k))
  (at level 10, m at level 100, k at level 200,
   format "'[v' 'run'  m ; '/' k ']'").

Definition get_db : M database := fun w => (db w, w).

Definition put_db (d : database) : M unit :=
  fun w => (tt, mk_world d (pending w)).

(** The outcome of the next storage primitive. *)
Definition tick : M bool :=
  fun w =>
    match pending w with
    | [] => (true, w)
    | ok :: rest => (ok, mk_world (db w) rest)
    end.

(** [get_db_connection]: [true] for a connection, [false] for [None]. *)
Definition get_db_connection : M bool := tick.

(** [execute_query(sql, params)] with [fetch=True]: the rows, or [None]
    when the connection or the statement fails. *)
Definition execute_query {A} (sql : database -> A) : M (option A) :=
  do connection <- get_db_connection;
  if negb connection then ret None
  else
    do ok <- tick;
    if negb ok then ret None
    else do d <- get_db; ret (Some (sql d)).

(** [execute_query(sql, params, fetch=False)]: the statement runs on its
    own connection and is committed at once; [None] when the connection,
    the statement or the commit fails, and then nothing is written. *)
Definition execute_query_nofetch (sql : database -> database) : M (option unit) :=
  do connection <- get_db_connection;
  if negb connection then ret None
  else
    do ok <- tick;
    if negb ok then ret None
    else
      do committed <- tick;
      if negb committed then ret None
      else do d <- get_db; run put_db (sql d); ret (Some tt).

(** A statement inside an open transaction works on the transaction's own
    copy of the database; [None] is the exception raised by
    [cursor.execute]. *)
Definition cursor_execute (sql : database -> database) (working : database)
  : M (option database) :=
  do ok <- tick;
  ret (if ok then Some (sql working) else None).

(** [connection.commit()]: publishes the working copy. *)
Definition connection_commit (working : database) : M bool :=
  do ok <- tick;
  if ok then (run put_db working; ret true) else ret false.

(** ** SQL statements of the routes *)

Definition insert_log (e : log_entry) (d : database) : database :=
  mk_db (readers d) (books d) (borrows d) (system_logs d ++ [e]).

Definition log_operation (a : action) (target_type : string) (target_id : Z)
  : M unit :=
  run execute_query_nofetch (insert_log (mk_log a target_type target_id));
  ret tt.

(** [SELECT ... FROM readers WHERE id = %s] *)
Definition select_reader (reader_id : Z) (d : database) : option reader :=
  readers d !! reader_id.

(** [SELECT id, status FROM books WHERE id = %s] *)
Definition select_book (book_id : Z) (d : database) : option book :=
  books d !! book_id.

Definition is_active_borrow_of (reader_id : Z) (kv : Z * borrow) : Prop :=
  b_reader_id kv.2 = reader_id ∧ b_status kv.2 = "borrowed".

Global Instance is_active_borrow_of_dec reader_id kv :
  Decision (is_active_borrow_of reader_id kv).
Proof. unfold is_active_borrow_of. apply _. Defined.

(** [SELECT COUNT( * ) FROM borrows WHERE reader_id = %s AND status = 'borrowed'] *)
Definition count_borrowed (reader_id : Z) (d : database) : Z :=
  Z.of_nat (size (filter (is_active_borrow_of reader_id) (borrows d))).

(** [SELECT * FROM borrows WHERE id = %s AND status = 'borrowed'] *)
Definition select_borrowed (borrow_id : Z) (d : database) : option borrow :=
  match borrows d !! borrow_id with
  | Some b => if decide (b_status b = "borrowed") then Some b else None
  | None => None
  end.

(** [SELECT * FROM borrows WHERE id = %s] *)
Definition select_borrow (borrow_id : Z) (d : database) : option borrow :=
  borrows d !! borrow_id.

(** [cursor.lastrowid] of an insertion into [borrows]: the AUTO_INCREMENT
    key, one more than the largest key in use. *)
Definition lastrowid (m : gmap Z borrow) : Z :=
  1 + map_fold (fun k _ acc => Z.max k acc) 0 m.

Definition set_book_status (s : string) (bk : book) : book :=
  mk_book (bk_title bk) s.

(** [UPDATE books SET status = s WHERE id = %s] *)
Definition update_book_status (book_id : Z) (s : string) (d : database)
  : database :=
  mk_db (readers d) (alter (set_book_status s) book_id (books d))
        (borrows d) (system_logs d).

Definition update_borrows (f : borrow -> borrow) (borrow_id : Z)
    (d : database) : database :=
  mk_db (readers d) (books d) (alter f borrow_id (borrows d)) (system_logs d).

(** ** Python values and dates *)

(** A JSON value in a numeric field of a request body. *)
Inductive jvalue :=
| JInt (z : Z)
| JBool (b : bool)
| JNull.

(** [int(v)]: [None] is the [TypeError] raised on [null]. *)
Definition py_int (v : jvalue) : option Z :=
  match v with
  | JInt z => Some z
  | JBool b => Some (if b then 1 else 0)
  | JNull => None
  end.

(** [isinstance(v, int)]: a [bool] is an [int] in Python. *)
Definition isinstance_int (v : jvalue) : option Z :=
  match v with
  | JInt z => Some z
  | JBool b => Some (if b then 1 else 0)
  | JNull => None
  end.

Definition date_min : Z := 1.
Definition date_max : Z := 3652059.
Definition timedelta_max_days : Z := 999999999.

(** [timedelta(days=n)]: [None] is the [OverflowError] raised when the
    magnitude of [n] exceeds 999999999 days. *)
Definition timedelta (n : Z) : option Z :=
  if (Z.abs n <=? timedelta_max_days) then Some n else None.

(** [d + timedelta(days=n)] on [datetime.date]: [None] is the
    [OverflowError] raised when the result is not a date. *)
Definition date_add (d n : Z) : option Z :=
  match timedelta n with
  | None => None
  | Some delta =>
    let r := d + delta in
    if (date_min <=? r) && (r <=? date_max) then Some r else None
  end.

(** ** Responses *)

(** The body of a response, one constructor per message of the routes. *)
Inductive body :=
| MissingField (field : string)      (* 400, a required field is absent *)
| ReaderNotExist                     (* 400, the reader does not exist *)
| ReaderAbnormal                     (* 400, the reader's status is not active *)
| BookNotExist                       (* 400, the book does not exist *)
| BookLost                           (* 400, the book is lost *)
| BookBorrowed                       (* 400, the book is already lent *)
| LimitReached                       (* 400, the borrow limit is reached *)
| DbConnectFailed                    (* 500, no database connection *)
| CreateBorrowFailed                 (* 500, creating the borrow failed *)
| BorrowCreated (id : Z)             (* 201 *)
| BorrowNotFoundOrReturned           (* 404, no borrowed record of that id *)
| BookReturned                       (* 200 *)
| RenewDaysInvalid                   (* 400, days must be within 1-90 *)
| RenewLimitReached                  (* 400, the renewal limit is reached *)
| RenewFailed                        (* 500 *)
| BookRenewed (new_due_date : Z) (extend_days : Z)   (* 200 *)
| FineInvalid                        (* 400, the fine must be positive *)
| BorrowNotExist                     (* 404, no record of that id *)
| FineUpdateFailed                   (* 500 *)
| FineSet (fine_amount : Z)          (* 200 *)
| StatusMissing                      (* 400, the status field is absent *)
| StatusInvalid                      (* 400, not one of the valid statuses *)
| StatusUpdateFailed                 (* 500 *)
| StatusUpdated                      (* 200 *)
| ReaderNotFound                     (* 404 *)
| NoUpdateFields                     (* 400, nothing to update *)
| ReaderUpdateFailed                 (* 500 *)
| ReaderUpdated.                     (* 200 *)

Definition response : Type := Z * body.

(** ** Requests *)

(** The JSON body of [POST /api/borrows]; [None] is an absent key. *)
Record borrow_request := mk_borrow_request {
  req_reader_id : option Z;
  req_book_id : option Z;
  req_borrow_days : option jvalue;
  req_notes : option string
}.

(** The JSON body of [PUT /api/readers/<id>]. *)
Record reader_update := mk_reader_update {
  upd_name : option string;
  upd_gender : option string;
  upd_phone : option string;
  upd_email : option string;
  upd_address : option string;
  upd_max_borrow_count : option Z
}.

(** ** The routes *)

(** Modelled from the spec: the column defaults of the table [borrows].
    The schema (create_database.sql) is not among the sources; by the
    specification's Borrow entity a new borrow has no return date, a
    [renew_count] of 0 and no fine. *)
Definition default_return_date : option Z := None.
Definition default_renew_count : option Z := Some 0.
Definition default_fine_amount : option Z := None.

(** The row inserted by [create_borrow]: the columns the statement does
    not name take their defaults. *)
Definition new_borrow (reader_id book_id borrow_date due_date : Z)
    (notes : string) : borrow :=
  mk_borrow reader_id book_id borrow_date due_date default_return_date
            default_renew_count default_fine_amount "borrowed" notes.

(** [INSERT INTO borrows (reader_id, book_id, borrow_date, due_date, status,
    notes) VALUES (%s, %s, %s, %s, 'borrowed', %s)] *)
Definition insert_borrow (b : borrow) (d : database) : database :=
  mk_db (readers d) (books d) (<[lastrowid (borrows d) := b]> (borrows d))
        (system_logs d).

(** The inner [try] block of [create_borrow]: one connection, the two
    statements, the commit; any exception rolls the transaction back. *)
Definition create_borrow_transaction (reader_id book_id borrow_date due_date : Z)
    (notes : string) : M response :=
  do connection <- get_db_connection;
  if negb connection then ret (500, DbConnectFailed)
  else
    do d0 <- get_db;
    do inserted <- cursor_execute
                     (insert_borrow (new_borrow reader_id book_id borrow_date
                                                due_date notes)) d0;
    match inserted with
    | None => ret (500, CreateBorrowFailed)
    | Some d1 =>
      let borrow_id := lastrowid (borrows d0) in
      do updated <- cursor_execute (update_book_status book_id "borrowed") d1;
      match updated with
      | None => ret (500, CreateBorrowFailed)
      | Some d2 =>
        do committed <- connection_commit d2;
        if negb committed then ret (500, CreateBorrowFailed)
        else
          run log_operation ActCreateBorrow "borrow" borrow_id;
          ret (201, BorrowCreated borrow_id)
      end
    end.

Definition create_borrow (today : Z) (data : borrow_request) : M response :=
  match req_reader_id data, req_book_id data, req_borrow_days data with
  | None, _, _ => ret (400, MissingField "reader_id")
  | Some _, None, _ => ret (400, MissingField "book_id")
  | Some _, Some _, None => ret (400, MissingField "borrow_days")
  | Some reader_id, Some book_id, Some borrow_days =>
    do reader <- execute_query (select_reader reader_id);
    match reader with
    | None | Some None => ret (400, ReaderNotExist)
    | Some (Some r) =>
      if negb (String.eqb (r_status r) "active") then ret (400, ReaderAbnormal)
      else
        do book <- execute_query (select_book book_id);
        match book with
        | None | Some None => ret (400, BookNotExist)
        | Some (Some bk) =>
          if String.eqb (bk_status bk) "lost" then ret (400, BookLost)
          else if String.eqb (bk_status bk) "borrowed" then ret (400, BookBorrowed)
          else
            do current_count <- execute_query (count_borrowed reader_id);
            if match current_count with
               | Some c => r_max_borrow_count r <=? c
               | None => false
               end
            then ret (400, LimitReached)
            else
              let borrow_date := today in
              match py_int borrow_days with
              | None => ret (500, CreateBorrowFailed)
              | Some days =>
                match date_add borrow_date days with
                | None => ret (500, CreateBorrowFailed)
                | Some due_date =>
                  create_borrow_transaction reader_id book_id borrow_date
                    due_date (default "" (req_notes data))
                end
              end
        end
    end
  end.

Definition mark_returned (return_date : Z) (b : borrow) : borrow :=
  mk_borrow (b_reader_id b) (b_book_id b) (b_borrow_date b) (b_due_date b)
            (Some return_date) (b_renew_count b) (b_fine_amount b)
            "returned" (b_notes b).

Definition return_book (today : Z) (borrow_id : Z) : M response :=
  do borrow <- execute_query (select_borrowed borrow_id);
  match borrow with
  | None | Some None => ret (404, BorrowNotFoundOrReturned)
  | Some (Some b) =>
    let return_date := today in
    run execute_query_nofetch (update_borrows (mark_returned return_date) borrow_id);
    run execute_query_nofetch (update_book_status (b_book_id b) "available");
    run log_operation ActReturnBook "borrow" borrow_id;
    ret (200, BookReturned)
  end.

(** [SET due_date = %s, renew_count = COALESCE(renew_count, 0) + 1] *)
Definition extend_due (new_due_date : Z) (b : borrow) : borrow :=
  mk_borrow (b_reader_id b) (b_book_id b) (b_borrow_date b) new_due_date
            (b_return_date b) (Some (default 0 (b_renew_count b) + 1))
            (b_fine_amount b) (b_status b) (b_notes b).

(** [data] is the value of the key [days] of the request body, when it is
    there; the default is 30. A [renew_count] of [NULL] makes the
    comparison with 2 raise, which the route turns into a 500. *)
Definition renew_book (borrow_id : Z) (data : option jvalue) : M response :=
  let extend_days := default (JInt 30) data in
  match isinstance_int extend_days with
  | None => ret (400, RenewDaysInvalid)
  | Some days =>
    if (days <? 1) || (90 <? days) then ret (400, RenewDaysInvalid)
    else
      do borrow <- execute_query (select_borrowed borrow_id);
      match borrow with
      | None | Some None => ret (404, BorrowNotFoundOrReturned)
      | Some (Some b) =>
        match b_renew_count b with
        | None => ret (500, RenewFailed)
        | Some n =>
          if 2 <=? n then ret (400, RenewLimitReached)
          else
            match date_add (b_due_date b) days with
            | None => ret (500, RenewFailed)
            | Some new_due_date =>
              run execute_query_nofetch (update_borrows (extend_due new_due_date) borrow_id);
              run log_operation ActRenewBook "borrow" borrow_id;
              ret (200, BookRenewed new_due_date days)
            end
        end
      end
  end.

(** [SET fine_amount = %s, status = 'fined'] *)
Definition set_fine (amount : Z) (b : borrow) : borrow :=
  mk_borrow (b_reader_id b) (b_book_id b) (b_borrow_date b) (b_due_date b)
            (b_return_date b) (b_renew_count b) (Some amount)
            "fined" (b_notes b).

(** [data] is the value of the key [fine_amount] of the request body, when
    it is there. *)
Definition apply_fine (borrow_id : Z) (data : option Z) : M response :=
  match data with
  | None => ret (400, FineInvalid)
  | Some fine_amount =>
    if (fine_amount =? 0) || (fine_amount <=? 0) then ret (400, FineInvalid)
    else
      do borrow <- execute_query (select_borrow borrow_id);
      match borrow with
      | None | Some None => ret (404, BorrowNotExist)
      | Some (Some _) =>
        do result <- execute_query_nofetch (update_borrows (set_fine fine_amount) borrow_id);
        match result with
        | None => ret (500, FineUpdateFailed)
        | Some _ =>
          run log_operation ActApplyFine "borrow" borrow_id;
          ret (200, FineSet fine_amount)
        end
      end
  end.

Definition valid_statuses : list string :=
  ["borrowed"; "returned"; "reserved"; "damaged"; "lost"].

(** [SET status = %s] *)
Definition set_status (s : string) (b : borrow) : borrow :=
  mk_borrow (b_reader_id b) (b_book_id b) (b_borrow_date b) (b_due_date b)
            (b_return_date b) (b_renew_count b) (b_fine_amount b)
            s (b_notes b).

(** [SET status = %s, return_date = CURDATE()] *)
Definition set_status_returned (s : string) (today : Z) (b : borrow) : borrow :=
  mk_borrow (b_reader_id b) (b_book_id b) (b_borrow_date b) (b_due_date b)
            (Some today) (b_renew_count b) (b_fine_amount b)
            s (b_notes b).

(** [data] is the value of the key [status] of the request body, when it
    is there. *)
Definition update_borrow_status (today : Z) (borrow_id : Z)
    (data : option string) : M response :=
  match data with
  | None => ret (400, StatusMissing)
  | Some status =>
    if negb (bool_decide (status ∈ valid_statuses)) then ret (400, StatusInvalid)
    else
      do existing <- execute_query (select_borrow borrow_id);
      match existing with
      | None | Some None => ret (404, BorrowNotExist)
      | Some (Some b) =>
        let book_id := b_book_id b in
        do connection <- get_db_connection;
        if negb connection then ret (500, DbConnectFailed)
        else
          do d0 <- get_db;
          do first <- cursor_execute
                        (if String.eqb status "returned"
                         then update_borrows (set_status_returned status today) borrow_id
                         else update_borrows (set_status status) borrow_id) d0;
          match first with
          | None => ret (500, StatusUpdateFailed)
          | Some d1 =>
            do second <-
              (if String.eqb status "lost"
               then cursor_execute (update_book_status book_id "lost") d1
               else if String.eqb status "damaged"
               then cursor_execute (update_book_status book_id "damaged") d1
               else if String.eqb status "returned"
               then cursor_execute (update_book_status book_id "available") d1
               else ret (Some d1));
            match second with
            | None => ret (500, StatusUpdateFailed)
            | Some d2 =>
              do committed <- connection_commit d2;
              if negb committed then ret (500, StatusUpdateFailed)
              else
                run log_operation ActUpdateBorrowStatus "borrow" borrow_id;
                ret (200, StatusUpdated)
            end
          end
      end
  end.

(** [UPDATE readers SET f1 = %s, ... WHERE id = %s] for the keys of the
    request that are there. *)
Definition set_reader_fields (data : reader_update) (r : reader) : reader :=
  mk_reader (default (r_name r) (upd_name data))
            (default (r_gender r) (upd_gender data))
            (default (r_phone r) (upd_phone data))
            (default (r_email r) (upd_email data))
            (default (r_address r) (upd_address data))
            (r_status r)
            (default (r_max_borrow_count r) (upd_max_borrow_count data)).

Definition update_readers (f : reader -> reader) (reader_id : Z)
    (d : database) : database :=
  mk_db (alter f reader_id (readers d)) (books d) (borrows d) (system_logs d).

Definition no_update_fields (data : reader_update) : bool :=
  match upd_name data, upd_gender data, upd_phone data, upd_email data,
        upd_address data, upd_max_borrow_count data with
  | None, None, None, None, None, None => true
  | _, _, _, _, _, _ => false
  end.

Definition update_reader (reader_id : Z) (data : reader_update) : M response :=
  do existing <- execute_query (select_reader reader_id);
  match existing with
  | None | Some None => ret (404, ReaderNotFound)
  | Some (Some _) =>
    if no_update_fields data then ret (400, NoUpdateFields)
    else
      do result <- execute_query_nofetch (update_readers (set_reader_fields data) reader_id);
      match result with
      | None => ret (500, ReaderUpdateFailed)
      | Some _ =>
        run log_operation ActUpdateReader "reader" reader_id;
        ret (200, ReaderUpdated)
      end
  end.

(** ** Outcomes of the storage and of the routes *)

(** A schedule without failures. *)
Definition no_faults (sched : list bool) : Prop :=
  forallb (fun ok => ok) sched = true.

(** The audit log is the only table [log_operation] can touch. *)
Definition same_tables (d d' : database) : Prop :=
  readers d' = readers d ∧ books d' = books d ∧ borrows d' = borrows d.

(** ** The eligibility rules of the specification *)

Inductive reason :=
| ReaderNotEligible
| BookNotFound
| BookIsLost
| BookUnavailable
| BorrowLimitReached.

(** The checker in the words of the specification: five rules, evaluated
    in order, the first failure wins; [None] is "allowed". *)
Definition canBorrow (reader : option reader) (book : option book)
    (activeBorrowCountForReader : Z) : option reason :=
  match reader with
  | None => Some ReaderNotEligible
  | Some r =>
    if decide (r_status r = "active") then
      match book with
      | None => Some BookNotFound
      | Some bk =>
        if decide (bk_status bk = "lost") then Some BookIsLost
        else if decide (bk_status bk = "borrowed") then Some BookUnavailable
        else if decide (activeBorrowCountForReader < r_max_borrow_count r)
        then None
        else Some BorrowLimitReached
      end
    else Some ReaderNotEligible
  end.

(** The eligibility error a response of [create_borrow] stands for. *)
Definition rejection (resp : response) : option reason :=
  if decide (resp.1 = 400) then
    match resp.2 with
    | ReaderNotExist | ReaderAbnormal => Some ReaderNotEligible
    | BookNotExist => Some BookNotFound
    | BookLost => Some BookIsLost
    | BookBorrowed => Some BookUnavailable
    | LimitReached => Some BorrowLimitReached
    | _ => None
    end
  else None.

(** A request that carries the three required fields. *)
Definition borrow_req (reader_id book_id : Z) (borrow_days : jvalue)
    (notes : option string) : borrow_request :=
  mk_borrow_request (Some reader_id) (Some book_id) (Some borrow_days) notes.

(** The database a committed [create_borrow] leaves, the audit log apart. *)
Definition borrowed_db (reader_id book_id borrow_date due_date : Z)
    (notes : string) (d : database) : database :=
  update_book_status book_id "borrowed"
    (insert_borrow (new_borrow reader_id book_id borrow_date due_date notes) d).

(** The database a completed return leaves, the audit log apart. *)
Definition returned_db (today borrow_id : Z) (b : borrow) (d : database)
  : database :=
  update_book_status (b_book_id b) "available"
    (update_borrows (mark_returned today) borrow_id d).

(** The database a committed [update_borrow_status] leaves, the audit log
    apart. *)
Definition status_db (today borrow_id : Z) (status : string) (book_id : Z)
    (d : database) : database :=
  let d1 :=
    if String.eqb status "returned"
    then update_borrows (set_status_returned status today) borrow_id d
    else update_borrows (set_status status) borrow_id d in
  if String.eqb status "lost" then update_book_status book_id "lost" d1
  else if String.eqb status "damaged" then update_book_status book_id "damaged" d1
  else if String.eqb status "returned" then update_book_status book_id "available" d1
  else d1.

(** ** Notions of the specification *)

(** A date of the calendar: 0001-01-01 to 9999-12-31. *)
Definition valid_date (d : Z) : Prop := date_min ≤ d ≤ date_max.

(** An eligible request: the reader exists and is active, the book exists
    and is neither lost nor borrowed, and the reader's count of active
    borrows is below the reader's limit. *)
Definition eligible (d : database) (reader_id book_id : Z) : Prop :=
  ∃ r bk,
    readers d !! reader_id = Some r ∧ r_status r = "active"
    ∧ books d !! book_id = Some bk
    ∧ bk_status bk ≠ "lost" ∧ bk_status bk ≠ "borrowed"
    ∧ count_borrowed reader_id d < r_max_borrow_count r.

(** No reader has more active borrows than the reader's limit. *)
Definition within_limit (d : database) : Prop :=
  ∀ rid r, readers d !! rid = Some r →
           count_borrowed rid d ≤ r_max_borrow_count r.

(** The operations of the system on the borrow ledger and the readers. *)
Inductive operation :=
| CreateBorrow (data : borrow_request)
| ReturnBook (borrow_id : Z)
| RenewBook (borrow_id : Z) (data : option jvalue)
| MarkStatus (borrow_id : Z) (data : option string)
| ApplyFine (borrow_id : Z) (data : option Z)
| UpdateReader (reader_id : Z) (data : reader_update).

Definition perform (today : Z) (op : operation) : M response :=
  match op with
  | CreateBorrow data => create_borrow today data
  | ReturnBook borrow_id => return_book today borrow_id
  | RenewBook borrow_id data => renew_book borrow_id data
  | MarkStatus borrow_id data => update_borrow_status today borrow_id data
  | ApplyFine borrow_id data => apply_fine borrow_id data
  | UpdateReader reader_id data => update_reader reader_id data
  end.

(** The operations that cannot add an active borrow unchecked nor lower a
    limit: all but a status update to [borrowed] and a reader update that
    sets [max_borrow_count]. *)
Definition keeps_limit (op : operation) : Prop :=
  match op with
  | MarkStatus _ data => data ≠ Some "borrowed"
  | UpdateReader _ data => upd_max_borrow_count data = None
  | _ => True
  end.

(** A step that leaves the readers alone and adds no active borrow. *)
Definition quiet (d d' : database) : Prop :=
  readers d' = readers d ∧ ∀ rid, count_borrowed rid d' ≤ count_borrowed rid d.

(** ** Sample data *)

Definition reader_R : reader :=
  mk_reader "R" "F" "555-0100" "" "" "active" 3.

Definition book_B (s : string) : book := mk_book "B" s.

(** Reader 1 with the limit 3 and no borrow; book 10 on the shelf. *)
Definition db0 : database :=
  mk_db {[ 1 := reader_R ]} {[ 10 := book_B "available" ]} ∅ [].

(** Reader 1 of [db0] with three active borrows, and a second book. *)
Definition db3 : database :=
  mk_db {[ 1 := reader_R ]}
        {[ 10 := book_B "borrowed"; 11 := book_B "available";
           12 := book_B "borrowed"; 13 := book_B "borrowed" ]}
        {[ 1 := new_borrow 1 10 739900 739914 "";
           2 := new_borrow 1 12 739901 739915 "";
           3 := new_borrow 1 13 739902 739916 "" ]}
        [].

(** Borrow 5 of reader 1 on book 10, due on 2024-01-10 (day 738895). *)
Definition db5 : database :=
  mk_db {[ 1 := reader_R ]} {[ 10 := book_B "borrowed" ]}
        {[ 5 := new_borrow 1 10 738881 738895 "" ]} [].

(** Select and first update succeed; the connection of the second update
    fails. *)
Definition second_write_fails : list bool :=
  [true; true; true; true; true; false].

(** Borrow 5 of [db5] after two renewals. *)
Definition db5_renewed_twice : database :=
  mk_db {[ 1 := reader_R ]} {[ 10 := book_B "borrowed" ]}
        {[ 5 := mk_borrow 1 10 738881 738955 None (Some 2) None "borrowed" "" ]}
        [].

(** ** Sequences of requests *)

(** Requests served one after the other, each on its own day. *)
Fixpoint perform_all (reqs : list (Z * operation)) : M (list response) :=
  match reqs with
  | [] => ret []
  | (today, op) :: rest =>
    do r <- perform today op;
    do rs <- perform_all rest;
    ret (r :: rs)
  end.

(** The renewals [renew_book] still grants a borrow, and the latest due
    date they can lead to: 90 days for each of them. *)
Definition renewals_left (b : borrow) : Z :=
  Z.max 0 (2 - default 0 (b_renew_count b)).

Definition latest_due_date (b : borrow) : Z :=
  b_due_date b + 90 * renewals_left b.

(** What a later state of the ledger keeps of an earlier one: every
    record, with its reader, book, borrow date and notes, a due date that
    has not moved back, and no later a latest due date. *)
Definition ledger_kept (d d' : database) : Prop :=
  ∀ id b, borrows d !! id = Some b →
    ∃ b', borrows d' !! id = Some b'
          ∧ b_reader_id b' = b_reader_id b ∧ b_book_id b' = b_book_id b
          ∧ b_borrow_date b' = b_borrow_date b ∧ b_notes b' = b_notes b
          ∧ b_due_date b ≤ b_due_date b'
          ∧ latest_due_date b' ≤ latest_due_date b.

(** ** Consistency of ledger and catalogue *)

(** No book has two active borrows. *)
Definition lent_once (d : database) : Prop :=
  ∀ id1 id2 b1 b2,
    borrows d !! id1 = Some b1 → borrows d !! id2 = Some b2 →
    b_status b1 = "borrowed" → b_status b2 = "borrowed" →
    b_book_id b1 = b_book_id b2 → id1 = id2.

(** The book of an active borrow is marked as borrowed. *)
Definition lent_marked (d : database) : Prop :=
  ∀ id b bk,
    borrows d !! id = Some b → b_status b = "borrowed" →
    books d !! b_book_id b = Some bk → bk_status bk = "borrowed".

Definition ledger_consistent (d : database) : Prop :=
  lent_once d ∧ lent_marked d.

(** The requests under which the consistency is kept: a return whose
    storage does not fail, a status update to [reserved] or, on a borrow
    that is active, to any status but [borrowed], and all the requests of
    the other kinds. *)
Definition keeps_ledger (d : database) (sched : list bool) (op : operation)
  : Prop :=
  match op with
  | ReturnBook _ => no_faults sched
  | MarkStatus id (Some s) =>
    s = "reserved" ∨ (s ≠ "borrowed" ∧ is_Some (select_borrowed id d))
  | _ => True
  end.

(** ** Failing guards *)

(** The count query of [create_borrow] fails, on its connection or on its
    statement, after the two queries before it went through. *)
Definition count_query_fails (sched rest : list bool) : Prop :=
  sched = ([true; true; true; true; false] ++ rest)%list
  ∨ sched = ([true; true; true; true; true; false] ++ rest)%list.

(** ** The audit log *)

(** The audit record a request with its response stands for: the action,
    the kind of target and the target's id; none unless the response is the
    success of the request. *)
Definition audit_record (op : operation) (resp : response) : option log_entry :=
  match op, resp.2 with
  | CreateBorrow _, BorrowCreated id => Some (mk_log ActCreateBorrow "borrow" id)
  | ReturnBook id, BookReturned => Some (mk_log ActReturnBook "borrow" id)
  | RenewBook id _, BookRenewed _ _ => Some (mk_log ActRenewBook "borrow" id)
  | MarkStatus id _, StatusUpdated =>
    Some (mk_log ActUpdateBorrowStatus "borrow" id)
  | ApplyFine id _, FineSet _ => Some (mk_log ActApplyFine "borrow" id)
  | UpdateReader id _, ReaderUpdated => Some (mk_log ActUpdateReader "reader" id)
  | _, _ => None
  end.

(** What a request does to the audit log: nothing, or one record at the
    end, the one of the request; and the latter if the request succeeded
    on a storage that does not fail. *)
Definition audited (op : operation) (d : database) (sched : list bool)
    (out : response * world) : Prop :=
  (system_logs (db out.2) = system_logs d
   ∨ ∃ e, audit_record op out.1 = Some e
          ∧ system_logs (db out.2) = (system_logs d ++ [e])%list)
  ∧ (no_faults sched → out.1.1 = 200 ∨ out.1.1 = 201 →
     ∃ e, audit_record op out.1 = Some e
          ∧ system_logs (db out.2) = (system_logs d ++ [e])%list).

(** ** The listing of the borrows *)

(** A row of [get_borrows]: the borrow with its id, the reader's name, the
    book's title and the book's status. *)
Record borrow_view := mk_view {
  v_id : Z;
  v_row : borrow;
  v_reader_name : string;
  v_book_title : string;
  v_book_status : string
}.

(** [ORDER BY b.id DESC] *)
Definition id_desc (x y : Z * borrow) : Prop := y.1 ≤ x.1.

Global Instance id_desc_dec : RelDecision id_desc.
Proof. intros x y. unfold id_desc. apply _. Defined.

(** [JOIN readers r ON b.reader_id = r.id JOIN books bk ON b.book_id = bk.id]:
    a borrow whose reader or book is not there gives no row. *)
Definition join_borrow (d : database) (kv : Z * borrow) : option borrow_view :=
  match readers d !! b_reader_id kv.2, books d !! b_book_id kv.2 with
  | Some r, Some bk =>
    Some (mk_view kv.1 kv.2 (r_name r) (bk_title bk) (bk_status bk))
  | _, _ => None
  end.

(** [SELECT b.id, ..., r.name as reader_name, bk.title as book_title,
    bk.status as book_status FROM borrows b JOIN readers r ... JOIN books bk
    ... ORDER BY b.id DESC] *)
Definition select_borrow_views (d : database) : list borrow_view :=
  omap (join_borrow d) (merge_sort id_desc (map_to_list (borrows d))).

(** The body of the loop of [get_borrows]. *)
Definition mark_overdue (today : Z) (v : borrow_view) : borrow_view :=
  if String.eqb (b_status (v_row v)) "borrowed" && (b_due_date (v_row v) <? today)
  then mk_view (v_id v) (set_status "overdue" (v_row v)) (v_reader_name v)
               (v_book_title v) (v_book_status v)
  else v.

Inductive listing :=
| ListingFailed                        (* 500 *)
| Listing (rows : list borrow_view).   (* 200 *)

Definition get_borrows (today : Z) : M (Z * listing) :=
  do borrows <- execute_query select_borrow_views;
  match borrows with
  | None => ret (500, ListingFailed)
  | Some rows => ret (200, Listing (mark_overdue today <$> rows))
  end.

(** ** The dashboard *)


Definition is_borrowed (kv : Z * borrow) : Prop := b_status kv.2 = "borrowed".

Global Instance is_borrowed_dec kv : Decision (is_borrowed kv).
Proof. unfold is_borrowed. apply _. Defined.

Definition is_overdue (today : Z) (kv : Z * borrow) : Prop :=
  b_status kv.2 = "borrowed" ∧ b_due_date kv.2 < today.

Global Instance is_overdue_dec today kv : Decision (is_overdue today kv).
Proof. unfold is_overdue. apply _. Defined.







(** ** Deleting readers and books *)

(** The audit records of the two routes. They are rows of [system_logs]
    as well; a route hands back the record it has written. *)
Inductive catalogue_action :=
| ActDeleteReader
| ActDeleteBook.

Record catalogue_log := mk_catalogue_log {
  cl_action : catalogue_action;
  cl_target_type : string;
  cl_target_id : Z
}.

(** [log_operation] for these records: the insertion is attempted as any
    other write, its failure is ignored. *)
Definition log_catalogue_operation (a : catalogue_action) (target_type : string)
    (target_id : Z) : M (list catalogue_log) :=
  do written <- execute_query_nofetch (fun d => d);
  ret (match written with
       | Some _ => [mk_catalogue_log a target_type target_id]
       | None => []
       end).

(** [execute_query(sql, params, fetch=False)] for a statement that the
    database may refuse on the data it finds: [sql d = None] is the
    exception then raised by [cursor.execute]. *)
Definition execute_query_raising (sql : database -> option database)
  : M (option unit) :=
  do connection <- get_db_connection;
  if negb connection then ret None
  else
    do ok <- tick;
    if negb ok then ret None
    else
      do d <- get_db;
      match sql d with
      | None => ret None
      | Some d' =>
        do committed <- tick;
        if negb committed then ret None
        else run put_db d'; ret (Some tt)
      end.

Definition is_active_borrow_on (book_id : Z) (kv : Z * borrow) : Prop :=
  b_book_id kv.2 = book_id ∧ b_status kv.2 = "borrowed".

Global Instance is_active_borrow_on_dec book_id kv :
  Decision (is_active_borrow_on book_id kv).
Proof. unfold is_active_borrow_on. apply _. Defined.

(** [SELECT id FROM borrows WHERE reader_id = %s AND status = 'borrowed'] *)
Definition select_active_of_reader (reader_id : Z) (d : database) : list Z :=
  (map_to_list (filter (is_active_borrow_of reader_id) (borrows d))).*1.

(** [SELECT id FROM borrows WHERE book_id = %s AND status = 'borrowed'] *)
Definition select_active_on_book (book_id : Z) (d : database) : list Z :=
  (map_to_list (filter (is_active_borrow_on book_id) (borrows d))).*1.

(** The body of the answer of [delete_reader] and [delete_book]. *)
Inductive deletion :=
| TargetNotExist        (* 404, no reader (book) of that id *)
| HasActiveBorrows      (* 400, there are borrows not yet returned *)
| DeleteFailed          (* 500 *)
| Deleted.              (* 200 *)

Section deleting.

(** [DELETE FROM readers WHERE id = %s] and [DELETE FROM books WHERE id =
    %s]. What they do beyond removing the row - refusing it or removing the
    borrows with it - is decided by the foreign keys of the schema
    (create_database.sql), which is not among the sources: the two
    statements are parameters, [None] when the database refuses. *)
Variable delete_reader_row : Z -> database -> option database.
Variable delete_book_row : Z -> database -> option database.

Definition delete_reader (reader_id : Z)
  : M (Z * deletion * list catalogue_log) :=
  do existing <- execute_query (select_reader reader_id);
  match existing with
  | None | Some None => ret (404, TargetNotExist, [])
  | Some (Some _) =>
    do active_borrows <- execute_query (select_active_of_reader reader_id);
    match active_borrows with
    | Some (_ :: _) => ret (400, HasActiveBorrows, [])
    | _ =>
      do result <- execute_query_raising (delete_reader_row reader_id);
      match result with
      | None => ret (500, DeleteFailed, [])
      | Some _ =>
        do logged <- log_catalogue_operation ActDeleteReader "reader" reader_id;
        ret (200, Deleted, logged)
      end
    end
  end.

Definition delete_book (book_id : Z)
  : M (Z * deletion * list catalogue_log) :=
  do existing <- execute_query (select_book book_id);
  match existing with
  | None | Some None => ret (404, TargetNotExist, [])
  | Some (Some _) =>
    do active_borrows <- execute_query (select_active_on_book book_id);
    match active_borrows with
    | Some (_ :: _) => ret (400, HasActiveBorrows, [])
    | _ =>
      do result <- execute_query_raising (delete_book_row book_id);
      match result with
      | None => ret (500, DeleteFailed, [])
      | Some _ =>
        do logged <- log_catalogue_operation ActDeleteBook "book" book_id;
        ret (200, Deleted, logged)
      end
    end
  end.

End deleting.

(** The guard query of a deletion fails, on its connection or on its
    statement, after the query before it went through. *)
Definition guard_query_fails (sched rest : list bool) : Prop :=
  sched = ([true; true; false] ++ rest)%list
  ∨ sched = ([true; true; true; false] ++ rest)%list.

(** The two statements on a schema without foreign keys: the row goes,
    nothing else does. *)
Definition drop_reader (reader_id : Z) (d : database) : option database :=
  Some (mk_db (delete reader_id (readers d)) (books d) (borrows d)
              (system_logs d)).

Definition drop_book (book_id : Z) (d : database) : option database :=
  Some (mk_db (readers d) (delete book_id (books d)) (borrows d)
              (system_logs d)).

(** The write of a route fails, on its connection or on its statement,
    after the query before it went through. *)
Definition write_fails_after_read (sched rest : list bool) : Prop :=
  sched = ([true; true; false] ++ rest)%list
  ∨ sched = ([true; true; true; false] ++ rest)%list.

(** ** Running an SQL script

    [execute_sql_script] of src/database/init_database.py cuts a script at
    its semicolons and sends the pieces to the server one by one, printing
    a line for each. A Python [str] is a sequence of code points. *)

Definition pystr := list N.

(** An ASCII literal of the source as a [str]. *)
Definition codes (s : string) : pystr :=
  map Ascii.N_of_ascii (String.list_ascii_of_string s).

Definition semicolon : N := 59%N.

(** [str.isspace] on one code point: the white space of the Unicode
    database, which is what [str.strip()] removes. *)
Definition isspace (c : N) : bool :=
  ((9 <=? c) && (c <=? 13) || (28 <=? c) && (c <=? 32)
   || (c =? 133) || (c =? 160) || (c =? 5760)
   || (8192 <=? c) && (c <=? 8202)
   || (c =? 8232) || (c =? 8233) || (c =? 8239) || (c =? 8287)
   || (c =? 12288))%N.

(** [s.split(sep)] for a separator of one code point: never empty, one
    piece more than there are separators. *)
Fixpoint str_split (sep : N) (s : pystr) : list pystr :=
  match s with
  | [] => [[]]
  | c :: s' =>
    if (c =? sep)%N then [] :: str_split sep s'
    else match str_split sep s' with
         | piece :: pieces => (c :: piece) :: pieces
         | [] => [[c]]
         end
  end.

Fixpoint str_lstrip (s : pystr) : pystr :=
  match s with
  | c :: s' => if isspace c then str_lstrip s' else s
  | [] => []
  end.

Definition str_strip (s : pystr) : pystr :=
  reverse (str_lstrip (reverse (str_lstrip s))).

Fixpoint str_startswith (prefix s : pystr) : bool :=
  match prefix, s with
  | [], _ => true
  | p :: prefix', c :: s' => (p =? c)%N && str_startswith prefix' s'
  | _ :: _, [] => false
  end.

(** [sub in s] *)
Fixpoint str_contains (sub s : pystr) : bool :=
  str_startswith sub s
  || match s with
     | _ :: s' => str_contains sub s'
     | [] => false
     end.

(** The truth value of a [str]: not empty. *)
Definition str_bool (s : pystr) : bool :=
  match s with
  | [] => false
  | _ :: _ => true
  end.

(** [[stmt.strip() for stmt in sql_content.split(';') if stmt.strip()]] *)
Definition script_statements (sql_content : pystr) : list pystr :=
  omap (fun stmt => if str_bool (str_strip stmt)
                    then Some (str_strip stmt) else None)
       (str_split semicolon sql_content).

(** What [cursor.execute] does with one statement: it goes through, or it
    raises an exception; of the exception the script reads
    [str(e).lower()], which is what [Raised] carries. *)
Inductive exec_result :=
| Executed
| Raised (message : pystr).

(** What [print] does with one line: it is written, or it raises (the
    lines carry marks and Chinese text that the encoding of the standard
    output may not have); [PrintRaised] carries [str(e).lower()]. *)
Inductive print_result :=
| Printed
| PrintRaised (message : pystr).

(** The world as the script meets it: whether [connection.cursor()],
    [connection.commit()] and [connection.rollback()] go through, the
    answers to the statements executed and the outcomes of the lines
    printed, each in order (when they run out, the call goes through).
    Closing the cursor at the end of the [with] block is taken not to
    raise. *)
Record sql_server := mk_sql_server {
  cursor_opens : bool;
  answers : list exec_result;
  prints : list print_result;
  commit_succeeds : bool;
  rollback_succeeds : bool
}.

(** The calls the script makes on the connection and its cursor. *)
Inductive sql_call :=
| Execute (statement : pystr)
| Commit
| Rollback.

(** [print(...)]: the next outcome of the standard output. *)
Definition print (stdout : list print_result)
  : print_result * list print_result :=
  match stdout with
  | [] => (Printed, [])
  | outcome :: stdout' => (outcome, stdout')
  end.

(** [if statement.startswith('--') or not statement: continue] *)
Definition skipped (statement : pystr) : bool :=
  str_startswith (codes "--") statement || negb (str_bool statement).

(** ["already exists" in str(e).lower() or "duplicate" in str(e).lower()] *)
Definition tolerated (message : pystr) : bool :=
  str_contains (codes "already exists") message
  || str_contains (codes "duplicate") message.

(** How the [for] loop ends: it ran to its end, it left the function with
    [return False], or an exception left it for the handler of the outer
    [try]. *)
Inductive loop_exit :=
| Finished
| ReturnedFalse
| LoopRaised.

(** The [else] branch of the inner handler: two lines, then
    [return False]. *)
Definition report_failure (stdout : list print_result)
  : loop_exit * list print_result :=
  match print stdout with
  | (Printed, stdout1) =>
    match print stdout1 with
    | (Printed, stdout2) => (ReturnedFalse, stdout2)
    | (PrintRaised _, stdout2) => (LoopRaised, stdout2)
    end
  | (PrintRaised _, stdout1) => (LoopRaised, stdout1)
  end.

(** The [for] loop, with the calls made and what is left of the standard
    output. The line printed after a statement that went through is inside
    the inner [try]: when it raises, its exception is handled like one of
    the statement. An exception of a line printed inside the handler
    leaves the loop. *)
Fixpoint execute_statements (statements : list pystr)
    (answers : list exec_result) (stdout : list print_result)
  : loop_exit * list sql_call * list print_result :=
  match statements with
  | [] => (Finished, [], stdout)
  | statement :: statements' =>
    if skipped statement then execute_statements statements' answers stdout
    else
      let continue answers' stdout' :=
        let '(exit, calls, stdout_left) :=
          execute_statements statements' answers' stdout' in
        (exit, Execute statement :: calls, stdout_left) in
      (* [except Exception as e] *)
      let handler message answers' stdout' :=
        if tolerated message then
          match print stdout' with
          | (Printed, stdout1) => continue answers' stdout1
          | (PrintRaised _, stdout1) =>
            (LoopRaised, [Execute statement], stdout1)
          end
        else
          let '(exit, stdout1) := report_failure stdout' in
          (exit, [Execute statement], stdout1) in
      let '(answer, answers') :=
        match answers with
        | [] => (Executed, [])
        | answer :: answers' => (answer, answers')
        end in
      match answer with
      | Executed =>
        match print stdout with
        | (Printed, stdout') => continue answers' stdout'
        | (PrintRaised message, stdout') => handler message answers' stdout'
        end
      | Raised message => handler message answers' stdout
      end
  end.

(** The handler of the outer [try]: print, roll back and return [False];
    an exception of the line printed or of [rollback] leaves the function
    ([None]), the former before anything is rolled back. *)
Definition handle_failure (srv : sql_server) (calls : list sql_call)
    (stdout : list print_result) : option bool * list sql_call :=
  match print stdout with
  | (Printed, _) =>
    (if rollback_succeeds srv then Some false else None,
     (calls ++ [Rollback])%list)
  | (PrintRaised _, _) => (None, calls)
  end.

Definition execute_sql_script (srv : sql_server) (sql_content : pystr)
  : option bool * list sql_call :=
  let statements := script_statements sql_content in
  if cursor_opens srv then
    let '(exit, calls, stdout) :=
      execute_statements statements (answers srv) (prints srv) in
    match exit with
    | Finished =>
      if commit_succeeds srv then
        match print stdout with
        | (Printed, _) => (Some true, (calls ++ [Commit])%list)
        | (PrintRaised _, stdout') =>
          handle_failure srv (calls ++ [Commit])%list stdout'
        end
      else handle_failure srv (calls ++ [Commit])%list stdout
    | ReturnedFalse => (Some false, calls)
    | LoopRaised => handle_failure srv calls stdout
    end
  else handle_failure srv [] (prints srv).

(** The statements of a script that are not skipped, in order. *)
Definition runnable (sql_content : pystr) : list pystr :=
  filter (fun statement => skipped statement = false)
         (script_statements sql_content).

(** Every exception the server raises is one the script tolerates. *)
Definition all_tolerated (answers : list exec_result) : Prop :=
  Forall (fun answer => match answer with
                        | Executed => True
                        | Raised message => tolerated message = true
                        end) answers.

(** Every line printed is written. *)
Definition all_printed (stdout : list print_result) : Prop :=
  Forall (fun outcome => outcome = Printed) stdout.

(** ** The storage primitives, step by step *)

Lemma tick_inv w ok w' :
  tick w = (ok, w') → db w' = db w.
Proof.
  unfold tick. destruct (pending w); intros [= <- <-]; reflexivity.
Qed.

Lemma tick_calm w ok w' :
  no_faults (pending w) → tick w = (ok, w') →
  ok = true ∧ db w' = db w ∧ no_faults (pending w').
Proof.
  unfold tick, no_faults. destruct (pending w) as [|b rest] eqn:E.
  - intros _ [= <- <-]. rewrite E. auto.
  - simpl. intros [-> H]%andb_prop [= <- <-]. auto.
Qed.

Lemma execute_query_inv {A} (sql : database → A) w r w' :
  execute_query sql w = (r, w') →
  db w' = db w ∧ (r = None ∨ r = Some (sql (db w))).
Proof.
  unfold execute_query, get_db_connection, bind, ret, get_db.
  destruct (tick w) as [c w1] eqn:E1. apply tick_inv in E1.
  destruct c; simpl; [|intros [= <- <-]; auto].
  destruct (tick w1) as [ok w2] eqn:E2. apply tick_inv in E2.
  destruct ok; simpl; intros [= <- <-]; rewrite E2, E1; auto.
Qed.

Lemma execute_query_calm {A} (sql : database → A) w r w' :
  no_faults (pending w) → execute_query sql w = (r, w') →
  r = Some (sql (db w)) ∧ db w' = db w ∧ no_faults (pending w').
Proof.
  unfold execute_query, get_db_connection, bind, ret, get_db. intros Hw.
  destruct (tick w) as [c w1] eqn:E1.
  destruct (tick_calm _ _ _ Hw E1) as (-> & D1 & H1). simpl.
  destruct (tick w1) as [ok w2] eqn:E2.
  destruct (tick_calm _ _ _ H1 E2) as (-> & D2 & H2). simpl.
  intros [= <- <-]. rewrite D2, D1. auto.
Qed.

Lemma execute_query_nofetch_inv (sql : database → database) w r w' :
  execute_query_nofetch sql w = (r, w') →
  (r = None ∧ db w' = db w) ∨ (r = Some tt ∧ db w' = sql (db w)).
Proof.
  unfold execute_query_nofetch, get_db_connection, bind, ret, get_db, put_db.
  destruct (tick w) as [c w1] eqn:E1. apply tick_inv in E1.
  destruct c; simpl; [|intros [= <- <-]; auto].
  destruct (tick w1) as [ok w2] eqn:E2. apply tick_inv in E2.
  destruct ok; simpl; [|intros [= <- <-]; rewrite E2; auto].
  destruct (tick w2) as [cm w3] eqn:E3. apply tick_inv in E3.
  destruct cm; simpl; intros [= <- <-]; simpl; rewrite E3, E2, E1; auto.
Qed.

Lemma execute_query_nofetch_calm (sql : database → database) w r w' :
  no_faults (pending w) → execute_query_nofetch sql w = (r, w') →
  r = Some tt ∧ db w' = sql (db w) ∧ no_faults (pending w').
Proof.
  unfold execute_query_nofetch, get_db_connection, bind, ret, get_db, put_db.
  intros Hw.
  destruct (tick w) as [c w1] eqn:E1.
  destruct (tick_calm _ _ _ Hw E1) as (-> & D1 & H1). simpl.
  destruct (tick w1) as [ok w2] eqn:E2.
  destruct (tick_calm _ _ _ H1 E2) as (-> & D2 & H2). simpl.
  destruct (tick w2) as [cm w3] eqn:E3.
  destruct (tick_calm _ _ _ H2 E3) as (-> & D3 & H3). simpl.
  intros [= <- <-]. simpl. rewrite D3, D2, D1. auto.
Qed.

Lemma cursor_execute_inv sql working w r w' :
  cursor_execute sql working w = (r, w') →
  db w' = db w ∧ (r = None ∨ r = Some (sql working)).
Proof.
  unfold cursor_execute, bind, ret.
  destruct (tick w) as [ok w1] eqn:E1. apply tick_inv in E1.
  intros [= <- <-]. destruct ok; auto.
Qed.

Lemma cursor_execute_calm sql working w r w' :
  no_faults (pending w) → cursor_execute sql working w = (r, w') →
  r = Some (sql working) ∧ db w' = db w ∧ no_faults (pending w').
Proof.
  unfold cursor_execute, bind, ret. intros Hw.
  destruct (tick w) as [ok w1] eqn:E1.
  destruct (tick_calm _ _ _ Hw E1) as (-> & D1 & H1).
  intros [= <- <-]. auto.
Qed.

Lemma connection_commit_inv working w ok w' :
  connection_commit working w = (ok, w') →
  (ok = false ∧ db w' = db w) ∨ (ok = true ∧ db w' = working).
Proof.
  unfold connection_commit, bind, ret, put_db.
  destruct (tick w) as [c w1] eqn:E1. apply tick_inv in E1.
  destruct c; intros [= <- <-]; auto.
Qed.

Lemma connection_commit_calm working w ok w' :
  no_faults (pending w) → connection_commit working w = (ok, w') →
  ok = true ∧ db w' = working ∧ no_faults (pending w').
Proof.
  unfold connection_commit, bind, ret, put_db. intros Hw.
  destruct (tick w) as [c w1] eqn:E1.
  destruct (tick_calm _ _ _ Hw E1) as (-> & D1 & H1).
  intros [= <- <-]. auto.
Qed.

Lemma same_tables_refl d : same_tables d d.
Proof. repeat split. Qed.

Lemma log_operation_inv a ty id w u w' :
  log_operation a ty id w = (u, w') → same_tables (db w) (db w').
Proof.
  unfold log_operation, bind, ret.
  destruct (execute_query_nofetch _ w) as [r w1] eqn:E.
  intros [= _ <-].
  destruct (execute_query_nofetch_inv _ _ _ _ E) as [[_ ->]|[_ ->]];
    repeat split.
Qed.

(** ** Keys and counts *)

Lemma lastrowid_bound (m : gmap Z borrow) k b :
  m !! k = Some b → k < lastrowid m.
Proof.
  unfold lastrowid. intros Hk.
  cut (k ≤ map_fold (fun k _ acc => Z.max k acc) 0 m); [lia|].
  revert k b Hk.
  apply (map_fold_weak_ind
           (fun acc (m : gmap Z borrow) => ∀ k b, m !! k = Some b → k ≤ acc)).
  - intros k b. rewrite lookup_empty. discriminate.
  - intros i x m' r _ IH k b. rewrite lookup_insert_Some.
    intros [[-> _]|[_ Hk]]; [lia|]. specialize (IH _ _ Hk). lia.
Qed.

Lemma lastrowid_fresh (m : gmap Z borrow) : m !! lastrowid m = None.
Proof.
  destruct (m !! lastrowid m) eqn:E; [|reflexivity].
  apply lastrowid_bound in E. lia.
Qed.

Section counting.
Context (P : Z * borrow → Prop) `{!∀ kv, Decision (P kv)}.

Lemma size_filter_insert_fresh (m : gmap Z borrow) k b :
  m !! k = None →
  size (filter P (<[k:=b]> m))
  = if decide (P (k, b)) then S (size (filter P m)) else size (filter P m).
Proof.
  intros Hk. rewrite map_filter_insert. case_decide.
  - apply map_size_insert_None, map_lookup_filter_None_2. auto.
  - rewrite delete_id; auto.
Qed.

Lemma size_filter_alter_le (f : borrow → borrow) (m : gmap Z borrow) k :
  (∀ b, m !! k = Some b → P (k, f b) → P (k, b)) →
  (size (filter P (alter f k m)) ≤ size (filter P m))%nat.
Proof.
  intros Hf. destruct (m !! k) as [b|] eqn:Hk.
  - rewrite (alter_alt_Some _ _ _ _ Hk), map_filter_insert. case_decide.
    + rewrite map_size_insert_Some; [lia|].
      exists b. apply map_lookup_filter_Some_2; auto.
    + rewrite map_filter_delete, map_size_delete.
      destruct (filter P m !! k); simpl; lia.
  - rewrite alter_id'; auto.
Qed.
End counting.

Lemma count_borrowed_alter_le f k rid d :
  (∀ b, borrows d !! k = Some b →
        is_active_borrow_of rid (k, f b) → is_active_borrow_of rid (k, b)) →
  count_borrowed rid (update_borrows f k d) ≤ count_borrowed rid d.
Proof.
  intros Hf. unfold count_borrowed, update_borrows. simpl.
  apply inj_le, size_filter_alter_le, Hf.
Qed.

Lemma count_borrowed_insert rid rid' d b :
  b_status b = "borrowed" → b_reader_id b = rid' →
  count_borrowed rid (insert_borrow b d)
  = if decide (rid' = rid) then count_borrowed rid d + 1 else count_borrowed rid d.
Proof.
  intros Hs Hr. unfold count_borrowed, insert_borrow. simpl.
  rewrite size_filter_insert_fresh by apply lastrowid_fresh.
  destruct (decide (is_active_borrow_of rid (lastrowid (borrows d), b)))
    as [[Ha _]|Hn]; simpl in *; case_decide; try lia.
  exfalso. apply Hn. split; simpl; congruence.
Qed.

Lemma count_borrowed_books rid d bid s :
  count_borrowed rid (update_book_status bid s d) = count_borrowed rid d.
Proof. reflexivity. Qed.

Lemma count_borrowed_same_tables rid d d' :
  same_tables d d' → count_borrowed rid d' = count_borrowed rid d.
Proof. intros (_ & _ & Hb). unfold count_borrowed. by rewrite Hb. Qed.

(** Run the next query of the route in the goal: [step_calm H] when [H]
    says that the schedule has no failure, [step_any] otherwise. *)
Ltac step_calm H :=
  match goal with
  | |- context [execute_query ?q ?w] =>
    let r := fresh "r" in let w1 := fresh "w" in let E := fresh "E" in
    let D := fresh "D" in let C := fresh "C" in
    destruct (execute_query q w) as [r w1] eqn:E;
    destruct (execute_query_calm q w _ _ H E) as (-> & D & C);
    clear E; cbn [db pending] in D, C; cbv beta iota
  end.

Ltac step_any :=
  match goal with
  | |- context [execute_query ?q ?w] =>
    let r := fresh "r" in let w1 := fresh "w" in let E := fresh "E" in
    let D := fresh "D" in
    destruct (execute_query q w) as [r w1] eqn:E;
    destruct (execute_query_inv q w _ _ E) as (D & [->| ->]);
    clear E; cbn [db pending] in D; cbv beta iota
  end.

Lemma create_borrow_transaction_inv rid bid bd due notes w resp w' :
  create_borrow_transaction rid bid bd due notes w = (resp, w') →
  (resp.1 = 500 ∧ db w' = db w)
  ∨ (resp = (201, BorrowCreated (lastrowid (borrows (db w))))
     ∧ same_tables (borrowed_db rid bid bd due notes (db w)) (db w')).
Proof.
  unfold create_borrow_transaction, get_db_connection, get_db, bind.
  destruct (tick w) as [c w1] eqn:E1. apply tick_inv in E1.
  destruct c; cbn [negb]; [|intros [= <- <-]; auto].
  destruct (cursor_execute _ (db w1) w1) as [i w2] eqn:E2.
  destruct (cursor_execute_inv _ _ _ _ _ E2) as (D2 & [->| ->]);
    [intros [= <- <-]; left; split; [done|congruence]|].
  destruct (cursor_execute _ _ w2) as [u w3] eqn:E3.
  destruct (cursor_execute_inv _ _ _ _ _ E3) as (D3 & [->| ->]);
    [intros [= <- <-]; left; split; [done|congruence]|].
  destruct (connection_commit _ w3) as [cm w4] eqn:E4.
  destruct (connection_commit_inv _ _ _ _ E4) as [[-> D4]|[-> D4]]; cbn [negb];
    [intros [= <- <-]; left; split; [done|congruence]|].
  destruct (log_operation _ _ _ w4) as [u w5] eqn:E5.
  apply log_operation_inv in E5. intros [= <- <-]. right.
  rewrite E1. split; [done|]. rewrite D4, E1 in E5. exact E5.
Qed.

Lemma create_borrow_transaction_calm rid bid bd due notes w resp w' :
  no_faults (pending w) →
  create_borrow_transaction rid bid bd due notes w = (resp, w') →
  resp = (201, BorrowCreated (lastrowid (borrows (db w))))
  ∧ same_tables (borrowed_db rid bid bd due notes (db w)) (db w').
Proof.
  intros Hw E. destruct (create_borrow_transaction_inv _ _ _ _ _ _ _ _ E)
    as [[Hc _]|?]; [exfalso|done].
  revert E Hc.
  unfold create_borrow_transaction, get_db_connection, get_db, bind.
  destruct (tick w) as [c w1] eqn:E1.
  destruct (tick_calm _ _ _ Hw E1) as (-> & D1 & H1). cbn [negb].
  destruct (cursor_execute _ (db w1) w1) as [i w2] eqn:E2.
  destruct (cursor_execute_calm _ _ _ _ _ H1 E2) as (-> & D2 & H2).
  destruct (cursor_execute _ _ w2) as [u w3] eqn:E3.
  destruct (cursor_execute_calm _ _ _ _ _ H2 E3) as (-> & D3 & H3).
  destruct (connection_commit _ w3) as [cm w4] eqn:E4.
  destruct (connection_commit_calm _ _ _ _ H3 E4) as (-> & D4 & H4). cbn [negb].
  destruct (log_operation _ _ _ w4) as [u w5]. intros [= <- <-]. discriminate.
Qed.

Lemma create_borrow_decision today rid bid v notes d sched :
  no_faults sched →
  let out := create_borrow today (borrow_req rid bid v notes) (mk_world d sched) in
  rejection out.1
  = canBorrow (readers d !! rid) (books d !! bid) (count_borrowed rid d).
Proof.
  intros Hs out. subst out.
  unfold create_borrow, borrow_req, bind; cbn [req_reader_id req_book_id req_borrow_days req_notes].
  step_calm Hs. unfold select_reader, canBorrow. cbn [db].
  destruct (readers d !! rid) as [r|]; [|reflexivity].
  destruct (String.eqb_spec (r_status r) "active") as [Hr|Hr]; cbn [negb];
    [rewrite decide_True by done|rewrite decide_False by done; reflexivity].
  step_calm C. unfold select_book. rewrite D.
  destruct (books d !! bid) as [bk|]; [|reflexivity].
  destruct (String.eqb_spec (bk_status bk) "lost") as [Hl|Hl];
    [rewrite decide_True by done; reflexivity|rewrite decide_False by done].
  destruct (String.eqb_spec (bk_status bk) "borrowed") as [Hb|Hb];
    [rewrite decide_True by done; reflexivity|rewrite decide_False by done].
  step_calm C0. rewrite D0, D.
  destruct (Z.leb_spec (r_max_borrow_count r) (count_borrowed rid d));
    [rewrite decide_False by lia; reflexivity|rewrite decide_True by lia].
  destruct (py_int v) as [n|]; [|reflexivity].
  destruct (date_add today n) as [due|]; [|reflexivity].
  destruct (create_borrow_transaction _ _ _ _ _ w1) as [resp w2] eqn:E.
  destruct (create_borrow_transaction_inv _ _ _ _ _ _ _ _ E) as [[Hc _]|[-> _]];
    [|reflexivity].
  unfold rejection. cbn [fst]. rewrite Hc. reflexivity.
Qed.

(** Whatever the storage does, [create_borrow] either answers something
    else than 201 and writes nothing, or has passed the checks on the
    reader and the book and has committed both writes. *)
Lemma create_borrow_outcome today rid bid v notes w resp w' :
  create_borrow today (borrow_req rid bid v notes) w = (resp, w') →
  (resp.1 ≠ 201 ∧ db w' = db w)
  ∨ (∃ r bk n due,
       readers (db w) !! rid = Some r ∧ r_status r = "active"
       ∧ books (db w) !! bid = Some bk
       ∧ bk_status bk ≠ "lost" ∧ bk_status bk ≠ "borrowed"
       ∧ py_int v = Some n ∧ date_add today n = Some due
       ∧ resp = (201, BorrowCreated (lastrowid (borrows (db w))))
       ∧ same_tables (borrowed_db rid bid today due (default "" notes) (db w))
                     (db w')).
Proof.
  unfold create_borrow, borrow_req, bind;
    cbn [req_reader_id req_book_id req_borrow_days req_notes].
  step_any; [intros [= <- <-]; left; split; [done|congruence]|].
  unfold select_reader.
  destruct (readers (db w) !! rid) as [r|] eqn:Er;
    [|intros [= <- <-]; left; split; [done|congruence]].
  destruct (String.eqb_spec (r_status r) "active") as [Hr|Hr]; cbn [negb];
    [|intros [= <- <-]; left; split; [done|congruence]].
  step_any; [intros [= <- <-]; left; split; [done|congruence]|].
  unfold select_book. rewrite D.
  destruct (books (db w) !! bid) as [bk|] eqn:Eb;
    [|intros [= <- <-]; left; split; [done|congruence]].
  destruct (String.eqb_spec (bk_status bk) "lost") as [Hl|Hl];
    [intros [= <- <-]; left; split; [done|congruence]|].
  destruct (String.eqb_spec (bk_status bk) "borrowed") as [Hb|Hb];
    [intros [= <- <-]; left; split; [done|congruence]|].
  assert (Htail : ∀ w2, db w2 = db w →
    match py_int v with
    | Some days =>
      match date_add today days with
      | Some due_date =>
        create_borrow_transaction rid bid today due_date (default "" notes)
      | None => ret (500, CreateBorrowFailed)
      end
    | None => ret (500, CreateBorrowFailed)
    end w2 = (resp, w') →
    (resp.1 ≠ 201 ∧ db w' = db w)
    ∨ (∃ n due,
         py_int v = Some n ∧ date_add today n = Some due
         ∧ resp = (201, BorrowCreated (lastrowid (borrows (db w))))
         ∧ same_tables (borrowed_db rid bid today due (default "" notes) (db w))
                       (db w'))).
  { intros w2 D2.
    destruct (py_int v) as [n|] eqn:Ev;
      [|intros [= <- <-]; left; split; [done|congruence]].
    destruct (date_add today n) as [due|] eqn:Edue;
      [|intros [= <- <-]; left; split; [done|congruence]].
    intros E. destruct (create_borrow_transaction_inv _ _ _ _ _ _ _ _ E)
      as [[Hc Hd]|[-> Hd]].
    - left. split; [rewrite Hc; done|congruence].
    - right. exists n, due. rewrite D2 in Hd. rewrite D2. auto. }
  assert (Hfin : ∀ w2, db w2 = db w →
    match py_int v with
    | Some days =>
      match date_add today days with
      | Some due_date =>
        create_borrow_transaction rid bid today due_date (default "" notes)
      | None => ret (500, CreateBorrowFailed)
      end
    | None => ret (500, CreateBorrowFailed)
    end w2 = (resp, w') →
    (resp.1 ≠ 201 ∧ db w' = db w)
    ∨ (∃ r0 bk0 n due,
         Some r = Some r0 ∧ r_status r0 = "active"
         ∧ Some bk = Some bk0
         ∧ bk_status bk0 ≠ "lost" ∧ bk_status bk0 ≠ "borrowed"
         ∧ py_int v = Some n ∧ date_add today n = Some due
         ∧ resp = (201, BorrowCreated (lastrowid (borrows (db w))))
         ∧ same_tables (borrowed_db rid bid today due (default "" notes) (db w))
                       (db w'))).
  { intros w2 D2 E.
    destruct (Htail w2 D2 E) as [?|(n & due & ? & ? & ? & ?)]; [by left|].
    right. exists r, bk, n, due. auto 10. }
  step_any.
  - intros E. apply (Hfin w2); [congruence|exact E].
  - destruct (r_max_borrow_count r <=? count_borrowed rid (db w1));
      [intros [= <- <-]; left; split; [done|congruence]|].
    intros E. apply (Hfin w2); [congruence|exact E].
Qed.

Lemma create_borrow_calm today rid bid v notes n due d sched :
  no_faults sched →
  canBorrow (readers d !! rid) (books d !! bid) (count_borrowed rid d) = None →
  py_int v = Some n → date_add today n = Some due →
  let out := create_borrow today (borrow_req rid bid v notes) (mk_world d sched) in
  out.1 = (201, BorrowCreated (lastrowid (borrows d)))
  ∧ same_tables (borrowed_db rid bid today due (default "" notes) d) (db out.2).
Proof.
  intros Hs Hcan Hv Hdue out. subst out. revert Hcan.
  unfold create_borrow, borrow_req, bind;
    cbn [req_reader_id req_book_id req_borrow_days req_notes].
  step_calm Hs. unfold select_reader, canBorrow. cbn [db].
  destruct (readers d !! rid) as [r|]; [|discriminate].
  destruct (String.eqb_spec (r_status r) "active") as [Hr|Hr]; cbn [negb];
    [rewrite decide_True by done|rewrite decide_False by done; discriminate].
  step_calm C. unfold select_book. rewrite D.
  destruct (books d !! bid) as [bk|]; [|discriminate].
  destruct (String.eqb_spec (bk_status bk) "lost") as [Hl|Hl];
    [rewrite decide_True by done; discriminate|rewrite decide_False by done].
  destruct (String.eqb_spec (bk_status bk) "borrowed") as [Hb|Hb];
    [rewrite decide_True by done; discriminate|rewrite decide_False by done].
  step_calm C0. rewrite D0, D.
  destruct (Z.leb_spec (r_max_borrow_count r) (count_borrowed rid d));
    [rewrite decide_False by lia; discriminate|intros _].
  rewrite Hv, Hdue.
  destruct (create_borrow_transaction _ _ _ _ _ w1) as [resp w2] eqn:E.
  destruct (create_borrow_transaction_calm _ _ _ _ _ _ _ _ C1 E) as [-> Ht].
  rewrite D1, D0, D in Ht. split; [|exact Ht].
  cbn [fst]. by rewrite D1, D0, D.
Qed.

Ltac write_calm H :=
  match goal with
  | |- context [execute_query_nofetch ?u ?w] =>
    let r := fresh "r" in let w1 := fresh "w" in let E := fresh "E" in
    let D := fresh "D" in let C := fresh "C" in
    destruct (execute_query_nofetch u w) as [r w1] eqn:E;
    destruct (execute_query_nofetch_calm u w _ _ H E) as (-> & D & C);
    clear E; cbn [db pending] in D, C; cbv beta iota
  end.

Ltac write_any :=
  match goal with
  | |- context [execute_query_nofetch ?u ?w] =>
    let r := fresh "r" in let w1 := fresh "w" in let E := fresh "E" in
    let D := fresh "D" in
    destruct (execute_query_nofetch u w) as [r w1] eqn:E;
    destruct (execute_query_nofetch_inv u w _ _ E) as [[-> D]|[-> D]];
    clear E; cbn [db pending] in D; cbv beta iota
  end.

Ltac log_any :=
  match goal with
  | |- context [log_operation ?a ?t ?i ?w] =>
    let u := fresh "u" in let w1 := fresh "w" in let L := fresh "L" in
    destruct (log_operation a t i w) as [u w1] eqn:L;
    apply log_operation_inv in L; cbv beta iota
  end.

Lemma same_tables_trans d1 d2 d3 :
  same_tables d1 d2 → same_tables d2 d3 → same_tables d1 d3.
Proof. intros (?&?&?) (?&?&?). repeat split; congruence. Qed.

Lemma same_tables_eq d d' : d' = d → same_tables d d'.
Proof. intros ->. apply same_tables_refl. Qed.

(** *** [return_book] *)

Lemma return_book_missing today id w :
  select_borrowed id (db w) = None →
  (return_book today id w).1 = (404, BorrowNotFoundOrReturned)
  ∧ db (return_book today id w).2 = db w.
Proof.
  intros Hn. unfold return_book, bind.
  step_any; [split; [reflexivity|exact D]|].
  rewrite Hn. split; [reflexivity|exact D].
Qed.

Lemma return_book_calm today id b d sched :
  no_faults sched → select_borrowed id d = Some b →
  let out := return_book today id (mk_world d sched) in
  out.1 = (200, BookReturned)
  ∧ same_tables (returned_db today id b d) (db out.2).
Proof.
  intros Hs Hb out. subst out. unfold return_book, bind.
  step_calm Hs. cbn [db]. rewrite Hb.
  write_calm C. write_calm C0. log_any.
  split; [reflexivity|]. cbn [snd].
  eapply same_tables_trans; [|exact L]. apply same_tables_eq.
  rewrite D1, D0, D. reflexivity.
Qed.

(** Whatever the storage does, [return_book] cannot make a borrow active
    nor touch a reader. *)
Lemma return_book_outcome today id w :
  let out := return_book today id w in
  (out.1 = (404, BorrowNotFoundOrReturned) ∧ db out.2 = db w)
  ∨ (∃ b d1 d2,
       select_borrowed id (db w) = Some b ∧ out.1 = (200, BookReturned)
       ∧ (d1 = db w ∨ d1 = update_borrows (mark_returned today) id (db w))
       ∧ (d2 = d1 ∨ d2 = update_book_status (b_book_id b) "available" d1)
       ∧ same_tables d2 (db out.2)).
Proof.
  intros out. subst out. unfold return_book, bind.
  step_any; [left; split; [reflexivity|exact D]|].
  destruct (select_borrowed id (db w)) as [b|] eqn:Hb;
    [|left; split; [reflexivity|exact D]].
  right. exists b.
  write_any; write_any; log_any;
    eexists _, _; (split; [reflexivity|]); (split; [reflexivity|]); cbn [snd];
    rewrite D in *.
  - split; [left; reflexivity|]. split; [left; reflexivity|].
    eapply same_tables_trans; [|exact L]. apply same_tables_eq. congruence.
  - split; [left; reflexivity|]. split; [right; reflexivity|].
    eapply same_tables_trans; [|exact L]. apply same_tables_eq. congruence.
  - split; [right; reflexivity|]. split; [left; reflexivity|].
    eapply same_tables_trans; [|exact L]. apply same_tables_eq. congruence.
  - split; [right; reflexivity|]. split; [right; reflexivity|].
    eapply same_tables_trans; [|exact L]. apply same_tables_eq. congruence.
Qed.

(** *** [renew_book] *)

Lemma renew_book_invalid id data w :
  match isinstance_int (default (JInt 30) data) with
  | Some days => days < 1 ∨ 90 < days
  | None => True
  end →
  renew_book id data w = ((400, RenewDaysInvalid), w).
Proof.
  unfold renew_book. destruct (isinstance_int _) as [days|]; [|reflexivity].
  intros H. destruct (Z.ltb_spec days 1); [reflexivity|].
  destruct (Z.ltb_spec 90 days); [reflexivity|lia].
Qed.

Lemma renew_book_missing id data days w :
  isinstance_int (default (JInt 30) data) = Some days → 1 ≤ days ≤ 90 →
  select_borrowed id (db w) = None →
  (renew_book id data w).1 = (404, BorrowNotFoundOrReturned)
  ∧ db (renew_book id data w).2 = db w.
Proof.
  intros Hi Hd Hn. unfold renew_book, bind. rewrite Hi.
  destruct (Z.ltb_spec days 1); [lia|].
  destruct (Z.ltb_spec 90 days); [lia|]. cbn [orb].
  step_any; [split; [reflexivity|exact D]|].
  rewrite Hn. split; [reflexivity|exact D].
Qed.

Lemma renew_book_calm id data days b n due d sched :
  no_faults sched →
  isinstance_int (default (JInt 30) data) = Some days → 1 ≤ days ≤ 90 →
  select_borrowed id d = Some b →
  b_renew_count b = Some n →
  let out := renew_book id data (mk_world d sched) in
  (2 ≤ n → out.1 = (400, RenewLimitReached) ∧ db out.2 = d)
  ∧ (n < 2 → date_add (b_due_date b) days = Some due →
     out.1 = (200, BookRenewed due days)
     ∧ same_tables (update_borrows (extend_due due) id d) (db out.2)).
Proof.
  intros Hs Hi Hd Hb Hn out. subst out. unfold renew_book, bind.
  rewrite Hi.
  destruct (Z.ltb_spec days 1); [lia|].
  destruct (Z.ltb_spec 90 days); [lia|]. cbn [orb].
  step_calm Hs. cbn [db]. rewrite Hb, Hn.
  destruct (Z.leb_spec 2 n); (split; [|intros; try lia]); try lia.
  - intros _. split; [reflexivity|exact D].
  - match goal with H : date_add _ _ = _ |- _ => rewrite H end.
    write_calm C. log_any. split; [reflexivity|]. cbn [snd].
    eapply same_tables_trans; [|exact L]. apply same_tables_eq. congruence.
Qed.

(** Whatever the storage does, a renewal that is not answered with 200
    writes nothing, and one answered with 200 has passed every check. *)
Lemma renew_book_outcome id data w :
  let out := renew_book id data w in
  (out.1.1 ≠ 200 ∧ db out.2 = db w)
  ∨ (∃ days b n due,
       isinstance_int (default (JInt 30) data) = Some days ∧ 1 ≤ days ≤ 90
       ∧ select_borrowed id (db w) = Some b
       ∧ b_renew_count b = Some n ∧ n < 2
       ∧ date_add (b_due_date b) days = Some due
       ∧ out.1 = (200, BookRenewed due days)
       ∧ (same_tables (db w) (db out.2)
          ∨ same_tables (update_borrows (extend_due due) id (db w)) (db out.2))).
Proof.
  intros out. subst out. unfold renew_book, bind.
  destruct (isinstance_int _) as [days|] eqn:Hi; [|left; split; done].
  destruct (Z.ltb_spec days 1); [left; split; done|].
  destruct (Z.ltb_spec 90 days); [left; split; done|]. cbn [orb].
  step_any; [left; split; [done|exact D]|].
  destruct (select_borrowed id (db w)) as [b|] eqn:Hb;
    [|left; split; [done|exact D]].
  destruct (b_renew_count b) as [n|] eqn:Hn; [|left; split; [done|exact D]].
  destruct (Z.leb_spec 2 n); [left; split; [done|exact D]|].
  destruct (date_add (b_due_date b) days) as [due|] eqn:Hdue;
    [|left; split; [done|exact D]].
  right. exists days, b, n, due.
  write_any; log_any; cbn [fst snd]; repeat (split; [done || lia|]).
  - left. eapply same_tables_trans; [|exact L]. apply same_tables_eq. congruence.
  - right. eapply same_tables_trans; [|exact L]. apply same_tables_eq. congruence.
Qed.

(** *** [apply_fine] *)

Lemma apply_fine_calm id amount b d sched :
  no_faults sched → 0 < amount → borrows d !! id = Some b →
  let out := apply_fine id (Some amount) (mk_world d sched) in
  out.1 = (200, FineSet amount)
  ∧ same_tables (update_borrows (set_fine amount) id d) (db out.2).
Proof.
  intros Hs Ha Hb out. subst out. unfold apply_fine, bind.
  destruct (Z.eqb_spec amount 0); [lia|].
  destruct (Z.leb_spec amount 0); [lia|]. cbn [orb].
  step_calm Hs. unfold select_borrow. cbn [db]. rewrite Hb.
  write_calm C. log_any. split; [reflexivity|]. cbn [snd].
  eapply same_tables_trans; [|exact L]. apply same_tables_eq. congruence.
Qed.

Lemma apply_fine_outcome id data w :
  let out := apply_fine id data w in
  (out.1.1 ≠ 200 ∧ db out.2 = db w)
  ∨ (∃ amount b,
       data = Some amount ∧ 0 < amount ∧ borrows (db w) !! id = Some b
       ∧ out.1 = (200, FineSet amount)
       ∧ same_tables (update_borrows (set_fine amount) id (db w)) (db out.2)).
Proof.
  intros out. subst out. unfold apply_fine, bind.
  destruct data as [amount|]; [|left; split; done].
  destruct (Z.eqb_spec amount 0); [left; split; done|].
  destruct (Z.leb_spec amount 0); [left; split; done|]. cbn [orb].
  step_any; [left; split; [done|exact D]|]. unfold select_borrow.
  destruct (borrows (db w) !! id) as [b|] eqn:Hb; [|left; split; [done|exact D]].
  write_any; [left; split; [done|unfold ret; cbn [snd]; congruence]|].
  right. exists amount, b. log_any. cbn [fst snd].
  repeat (split; [done || lia|]).
  eapply same_tables_trans; [|exact L]. apply same_tables_eq. congruence.
Qed.

(** *** [update_borrow_status] *)

Ltac connect_any :=
  match goal with
  | |- context [get_db_connection ?w] =>
    let c := fresh "c" in let w1 := fresh "w" in let E := fresh "E" in
    destruct (get_db_connection w) as [c w1] eqn:E;
    apply tick_inv in E; cbv beta iota
  end.

Ltac connect_calm H :=
  match goal with
  | |- context [get_db_connection ?w] =>
    let c := fresh "c" in let w1 := fresh "w" in let E := fresh "E" in
    let D := fresh "D" in let C := fresh "C" in
    destruct (get_db_connection w) as [c w1] eqn:E;
    destruct (tick_calm w _ _ H E) as (-> & D & C); clear E;
    cbn [db pending] in D, C; cbv beta iota
  end.

Ltac cursor_any :=
  match goal with
  | |- context [cursor_execute ?u ?d ?w] =>
    let r := fresh "r" in let w1 := fresh "w" in let E := fresh "E" in
    let D := fresh "D" in
    destruct (cursor_execute u d w) as [r w1] eqn:E;
    destruct (cursor_execute_inv u d w _ _ E) as (D & [->| ->]);
    clear E; cbv beta iota
  end.

Ltac cursor_calm H :=
  match goal with
  | |- context [cursor_execute ?u ?d ?w] =>
    let r := fresh "r" in let w1 := fresh "w" in let E := fresh "E" in
    let D := fresh "D" in let C := fresh "C" in
    destruct (cursor_execute u d w) as [r w1] eqn:E;
    destruct (cursor_execute_calm u d w _ _ H E) as (-> & D & C);
    clear E; cbv beta iota
  end.

Ltac commit_any :=
  match goal with
  | |- context [connection_commit ?d ?w] =>
    let r := fresh "r" in let w1 := fresh "w" in let E := fresh "E" in
    let D := fresh "D" in
    destruct (connection_commit d w) as [r w1] eqn:E;
    destruct (connection_commit_inv d w _ _ E) as [[-> D]|[-> D]];
    clear E; cbn [negb]; cbv beta iota
  end.

Ltac commit_calm H :=
  match goal with
  | |- context [connection_commit ?d ?w] =>
    let r := fresh "r" in let w1 := fresh "w" in let E := fresh "E" in
    let D := fresh "D" in let C := fresh "C" in
    destruct (connection_commit d w) as [r w1] eqn:E;
    destruct (connection_commit_calm d w _ _ H E) as (-> & D & C);
    clear E; cbn [negb]; cbv beta iota
  end.

Lemma update_borrow_status_outcome today id data w :
  let out := update_borrow_status today id data w in
  (out.1.1 ≠ 200 ∧ db out.2 = db w)
  ∨ (∃ s b,
       data = Some s ∧ s ∈ valid_statuses ∧ borrows (db w) !! id = Some b
       ∧ out.1 = (200, StatusUpdated)
       ∧ same_tables (status_db today id s (b_book_id b) (db w)) (db out.2)).
Proof.
  intros out. subst out. unfold update_borrow_status, bind.
  destruct data as [s|]; [|left; split; done].
  destruct (bool_decide_reflect (s ∈ valid_statuses)) as [Hv|Hv]; cbn [negb];
    [|left; split; done].
  step_any; [left; split; [done|exact D]|]. unfold select_borrow.
  destruct (borrows (db w) !! id) as [b|] eqn:Hb; [|left; split; [done|exact D]].
  connect_any. destruct c; cbn [negb];
    [|left; split; [done|unfold ret; cbn [snd]; congruence]].
  unfold get_db.
  assert (Hfin : ∀ d2 w3, db w3 = db w →
    d2 = status_db today id s (b_book_id b) (db w) →
    let out := (do committed <- connection_commit d2;
                if negb committed then ret (500, StatusUpdateFailed)
                else run log_operation ActUpdateBorrowStatus "borrow" id;
                     ret (200, StatusUpdated)) w3 in
    (out.1.1 ≠ 200 ∧ db out.2 = db w)
    ∨ (∃ s0 b0,
         Some s = Some s0 ∧ s0 ∈ valid_statuses ∧ Some b = Some b0
         ∧ out.1 = (200, StatusUpdated)
         ∧ same_tables (status_db today id s0 (b_book_id b0) (db w)) (db out.2))).
  { intros d2 w3 D3 -> out. subst out. unfold bind. commit_any.
    - left. split; [done|unfold ret; cbn [snd]; congruence].
    - right. exists s, b. log_any. cbn [fst snd].
      repeat (split; [done|]).
      eapply same_tables_trans; [|exact L]. apply same_tables_eq. congruence. }
  unfold bind in Hfin.
  destruct (String.eqb s "lost") eqn:E1;
    destruct (String.eqb s "damaged") eqn:E2;
    destruct (String.eqb s "returned") eqn:E3;
    (cursor_any; [left; split; [done|unfold ret; cbn [snd]; congruence]|]);
    try (cursor_any; [left; split; [done|unfold ret; cbn [snd]; congruence]|]);
    try (unfold ret at 1; cbv beta iota);
    (apply Hfin;
     [congruence|unfold status_db; rewrite ?E1, ?E2, ?E3, ?E, ?D; reflexivity]).
Qed.

Lemma update_borrow_status_calm today id s b d sched :
  no_faults sched → s ∈ valid_statuses → borrows d !! id = Some b →
  let out := update_borrow_status today id (Some s) (mk_world d sched) in
  out.1 = (200, StatusUpdated)
  ∧ same_tables (status_db today id s (b_book_id b) d) (db out.2).
Proof.
  intros Hs Hv Hb out. subst out. unfold update_borrow_status, bind.
  rewrite bool_decide_eq_true_2 by done. cbn [negb].
  step_calm Hs. unfold select_borrow. cbn [db]. rewrite Hb.
  connect_calm C. cbn [negb]. unfold get_db.
  assert (Hfin : ∀ d2 w3, no_faults (pending w3) →
    d2 = status_db today id s (b_book_id b) d →
    let out := (do committed <- connection_commit d2;
                if negb committed then ret (500, StatusUpdateFailed)
                else run log_operation ActUpdateBorrowStatus "borrow" id;
                     ret (200, StatusUpdated)) w3 in
    out.1 = (200, StatusUpdated)
    ∧ same_tables (status_db today id s (b_book_id b) d) (db out.2)).
  { intros d2 w3 C3 -> out. subst out. unfold bind. commit_calm C3.
    log_any. split; [reflexivity|]. cbn [snd].
    eapply same_tables_trans; [|exact L]. apply same_tables_eq. congruence. }
  unfold bind in Hfin.
  destruct (String.eqb s "lost") eqn:E1;
    destruct (String.eqb s "damaged") eqn:E2;
    destruct (String.eqb s "returned") eqn:E3;
    cursor_calm C0;
    try cursor_calm C1;
    try (unfold ret at 1; cbv beta iota);
    (apply Hfin;
     [assumption|unfold status_db; rewrite ?E1, ?E2, ?E3, ?D0, ?D; reflexivity]).
Qed.

(** *** [update_reader] *)

Lemma update_reader_outcome id data w :
  let out := update_reader id data w in
  (out.1.1 ≠ 200 ∧ db out.2 = db w)
  ∨ (out.1 = (200, ReaderUpdated)
     ∧ same_tables (update_readers (set_reader_fields data) id (db w))
                   (db out.2)).
Proof.
  intros out. subst out. unfold update_reader, bind.
  step_any; [left; split; [done|exact D]|]. unfold select_reader.
  destruct (readers (db w) !! id); [|left; split; [done|exact D]].
  destruct (no_update_fields data); [left; split; [done|exact D]|].
  write_any; [left; split; [done|unfold ret; cbn [snd]; congruence]|].
  right. log_any. split; [reflexivity|]. cbn [snd].
  eapply same_tables_trans; [|exact L]. apply same_tables_eq. congruence.
Qed.

Lemma update_reader_calm id data r d sched :
  no_faults sched → readers d !! id = Some r → no_update_fields data = false →
  let out := update_reader id data (mk_world d sched) in
  out.1 = (200, ReaderUpdated)
  ∧ same_tables (update_readers (set_reader_fields data) id d) (db out.2).
Proof.
  intros Hs Hr Hf out. subst out. unfold update_reader, bind.
  step_calm Hs. unfold select_reader. cbn [db]. rewrite Hr, Hf.
  write_calm C. log_any. split; [reflexivity|]. cbn [snd].
  eapply same_tables_trans; [|exact L]. apply same_tables_eq. congruence.
Qed.

Lemma date_add_valid d n :
  valid_date d → valid_date (d + n) → date_add d n = Some (d + n).
Proof.
  unfold valid_date, date_add, timedelta, date_min, date_max,
    timedelta_max_days.
  intros Hd Hn. destruct (Z.leb_spec (Z.abs n) 999999999); [|lia].
  destruct (Z.leb_spec 1 (d + n)); [|lia].
  destruct (Z.leb_spec (d + n) 3652059); [reflexivity|lia].
Qed.

Lemma eligible_canBorrow d rid bid :
  eligible d rid bid
  ↔ canBorrow (readers d !! rid) (books d !! bid) (count_borrowed rid d) = None.
Proof.
  unfold eligible, canBorrow. split.
  - intros (r & bk & -> & Hr & -> & Hl & Hb & Hc).
    rewrite decide_True by done. rewrite !decide_False by done.
    by rewrite decide_True.
  - destruct (readers d !! rid) as [r|]; [|discriminate].
    destruct (decide (r_status r = "active")); [|discriminate].
    destruct (books d !! bid) as [bk|]; [|discriminate].
    repeat case_decide; try discriminate. intros _. exists r, bk. auto 10.
Qed.

(** ** Properties *)




(** The eligibility rules in the order of the specification, the first
    failure wins, as far as the code keeps them: when the storage does not
    fail, the eligibility error of the response is the one [canBorrow]
    gives (none when the request is eligible); and whatever the storage
    does, a response that is an eligibility error leaves the database
    unchanged. *)
Theorem create_borrow_first_failure_wins today rid bid borrow_days notes d sched :
  let out := create_borrow today (borrow_req rid bid borrow_days notes)
               (mk_world d sched) in
  (rejection out.1 ≠ None → db out.2 = d)
  ∧ (no_faults sched →
     rejection out.1
     = canBorrow (readers d !! rid) (books d !! bid) (count_borrowed rid d)).
Proof.
  intros out. split; [|apply create_borrow_decision].
  destruct (create_borrow_outcome today rid bid borrow_days notes
              (mk_world d sched) out.1 out.2) as [[_ Hd]|Hok].
  { subst out. by destruct (create_borrow _ _ _). }
  - intros _. exact Hd.
  - destruct Hok as (r & bk & n & due & _ & _ & _ & _ & _ & _ & _ & -> & _).
    intros Hr. exfalso. apply Hr. reflexivity.
Qed.

Lemma create_borrow_first_failure_wins_witness :
  no_faults []
  ∧ let out := create_borrow 739923 (borrow_req 1 11 (JInt 14) None)
                 (mk_world db3 []) in
    rejection out.1 = Some BorrowLimitReached ∧ db out.2 = db3.
Proof.
  assert (Hs : no_faults []) by reflexivity.
  split; [exact Hs|].
  pose proof (create_borrow_first_failure_wins 739923 1 11 (JInt 14) None db3 [])
    as [Hd Hr].
  specialize (Hr Hs). cbv zeta. split.
  - rewrite Hr. vm_compute. reflexivity.
  - apply Hd. rewrite Hr. vm_compute. discriminate.
Defined.

(** C2 (the code departs from it): the rules are enforced for every
    request but the last one, which [create_borrow] enforces only if it can
    read the count. Reader 1 of [db3] holds three active borrows, which is
    the reader's limit, so the rules turn the request for book 11 away with
    the borrow-limit error. When the query that counts the borrows fails,
    [if current_count and ...] is false: the call answers 201 and the
    reader holds a fourth book. The checks before it fail closed
    ([if not reader], [if not book]). *)
Theorem create_borrow_limit_fails_open :
  let out := create_borrow 739923 (borrow_req 1 11 (JInt 14) None)
               (mk_world db3 [true; true; true; true; false]) in
  canBorrow (readers db3 !! 1) (books db3 !! 11) (count_borrowed 1 db3)
  = Some BorrowLimitReached
  ∧ out.1 = (201, BorrowCreated 4)
  ∧ rejection out.1 = None
  ∧ r_max_borrow_count <$> readers (db out.2) !! 1 = Some 3
  ∧ count_borrowed 1 (db out.2) = 4
  ∧ bk_status <$> books (db out.2) !! 11 = Some "borrowed".
Proof. vm_compute. repeat split. Qed.

(** C3 (the code departs from it): [return_book] runs its two updates as
    two separately committed statements and ignores their results. When
    the second one fails, the call still answers 200, the borrow is
    [returned] and the book is still [borrowed]. *)
Theorem return_book_partial_write :
  let out := return_book 738905 5 (mk_world db5 second_write_fails) in
  out.1 = (200, BookReturned)
  ∧ b_status <$> borrows (db out.2) !! 5 = Some "returned"
  ∧ b_return_date <$> borrows (db out.2) !! 5 = Some (Some 738905)
  ∧ bk_status <$> books (db out.2) !! 10 = Some "borrowed".
Proof. vm_compute. repeat split. Qed.

(** C4, as stated, fails: a renewal within [1,90] of an active borrow
    with fewer than two renewals whose new due date would lie past
    9999-12-31 is answered with a 500 and extends nothing. *)
Lemma renew_book_due_date_overflow :
  ¬ (∀ id extend_days b n d,
       1 ≤ extend_days ≤ 90 → select_borrowed id d = Some b →
       b_renew_count b = Some n → n < 2 →
       let out := renew_book id (Some (JInt extend_days)) (mk_world d []) in
       b_due_date <$> borrows (db out.2) !! id
       = Some (b_due_date b + extend_days)).
Proof.
  intros H.
  specialize (H 5 30 (new_borrow 1 10 739923 3652059 "") 0
                (mk_db {[ 1 := reader_R ]} {[ 10 := book_B "borrowed" ]}
                       {[ 5 := new_borrow 1 10 739923 3652059 "" ]} [])).
  vm_compute in H.
  assert (E : Some 3652059 = Some 3652089).
  { apply H; first [reflexivity | intros [=] | split; intros [=]]. }
  discriminate E.
Qed.

(** C4 (amended): when the storage does not fail, a renewal by
    [extend_days] within [1,90] of an existing borrow with status
    [borrowed] and fewer than two renewals, whose new due date is still a
    date, sets the due date to the current due date plus [extend_days] -
    the day of the request plays no part - and adds one to [renew_count].
    Whatever the storage does, [extend_days] outside [1,90] is answered
    with the validation error and, within [1,90], a borrow that is not
    there with status [borrowed] is answered with not-found; these two
    write nothing. *)
Theorem renew_book_extends_due_date id extend_days d sched :
  let out := renew_book id (Some (JInt extend_days)) (mk_world d sched) in
  (∀ b n,
     no_faults sched → 1 ≤ extend_days ≤ 90 →
     select_borrowed id d = Some b → b_renew_count b = Some n → n < 2 →
     valid_date (b_due_date b) → b_due_date b + extend_days ≤ date_max →
     out.1 = (200, BookRenewed (b_due_date b + extend_days) extend_days)
     ∧ borrows (db out.2)
       = <[id := mk_borrow (b_reader_id b) (b_book_id b) (b_borrow_date b)
                   (b_due_date b + extend_days) (b_return_date b)
                   (Some (n + 1)) (b_fine_amount b) (b_status b)
                   (b_notes b)]> (borrows d)
     ∧ books (db out.2) = books d ∧ readers (db out.2) = readers d)
  ∧ (extend_days < 1 ∨ 90 < extend_days →
     out.1 = (400, RenewDaysInvalid) ∧ db out.2 = d)
  ∧ (1 ≤ extend_days ≤ 90 → select_borrowed id d = None →
     out.1 = (404, BorrowNotFoundOrReturned) ∧ db out.2 = d).
Proof.
  intros out. split; [|split].
  - intros b n Hs Hd Hb Hn Hlt Hv Hmax.
    assert (Hdue : date_add (b_due_date b) extend_days
                   = Some (b_due_date b + extend_days)).
    { apply date_add_valid; [done|]. unfold valid_date, date_min in *. lia. }
    destruct (renew_book_calm id (Some (JInt extend_days)) extend_days b n
                (b_due_date b + extend_days) d sched Hs eq_refl Hd Hb Hn)
      as [_ Hok].
    destruct (Hok Hlt Hdue) as [Hr (Hrd & Hbk & Hbr)].
    split; [exact Hr|]. fold out in Hrd, Hbk, Hbr. rewrite Hbr, Hbk, Hrd.
    repeat split. cbn [update_borrows borrows].
    unfold select_borrowed in Hb.
    destruct (borrows d !! id) as [b0|] eqn:Hl; [|discriminate].
    case_decide; [|discriminate]. injection Hb as ->.
    rewrite (alter_alt_Some _ _ _ _ Hl). unfold extend_due. by rewrite Hn.
  - intros Hd. subst out. by rewrite renew_book_invalid.
  - intros Hd Hb.
    apply (renew_book_missing id (Some (JInt extend_days)) extend_days
             (mk_world d sched) eq_refl Hd Hb).
Qed.

Lemma renew_book_extends_due_date_witness :
  no_faults [] ∧ 1 ≤ 30 ≤ 90
  ∧ select_borrowed 5 db5 = Some (new_borrow 1 10 738881 738895 "")
  ∧ let out := renew_book 5 (Some (JInt 30)) (mk_world db5 []) in
    out.1 = (200, BookRenewed 738925 30)
    ∧ borrows (db out.2)
      = <[5 := mk_borrow 1 10 738881 738925 None (Some 1) None "borrowed" ""]>
          (borrows db5)
    ∧ books (db out.2) = books db5 ∧ readers (db out.2) = readers db5.
Proof.
  assert (Hs : no_faults []) by reflexivity.
  assert (Hd : 1 ≤ 30 ≤ 90) by lia.
  assert (Hb : select_borrowed 5 db5 = Some (new_borrow 1 10 738881 738895 ""))
    by reflexivity.
  repeat (split; [assumption|]).
  refine (proj1 (renew_book_extends_due_date 5 30 db5 [])
            (new_borrow 1 10 738881 738895 "") 0 Hs Hd Hb eq_refl _ _ _).
  - lia.
  - unfold valid_date, date_min, date_max. simpl. lia.
  - unfold date_max. simpl. lia.
Defined.

(** *** The borrow limit *)

Lemma within_limit_step d d' :
  within_limit d →
  (∀ rid r', readers d' !! rid = Some r' →
     ∃ r, readers d !! rid = Some r
          ∧ r_max_borrow_count r = r_max_borrow_count r') →
  (∀ rid, count_borrowed rid d' ≤ count_borrowed rid d) →
  within_limit d'.
Proof.
  intros Hd Hr Hc rid r' Hl. destruct (Hr _ _ Hl) as (r & Hl0 & <-).
  specialize (Hd _ _ Hl0). specialize (Hc rid). lia.
Qed.

Lemma quiet_within_limit d d' : quiet d d' → within_limit d → within_limit d'.
Proof.
  intros [Hr Hc] Hd. apply (within_limit_step d); [done| |done].
  intros rid r'. rewrite Hr. eauto.
Qed.

Lemma quiet_refl d : quiet d d.
Proof. split; [reflexivity|intros; lia]. Qed.

Lemma quiet_eq d d' : d' = d → quiet d d'.
Proof. intros ->. apply quiet_refl. Qed.

Lemma quiet_trans d1 d2 d3 : quiet d1 d2 → quiet d2 d3 → quiet d1 d3.
Proof.
  intros [R1 C1] [R2 C2]. split; [congruence|].
  intros rid. specialize (C1 rid). specialize (C2 rid). lia.
Qed.

Lemma quiet_same_tables d d' : same_tables d d' → quiet d d'.
Proof.
  intros H. split; [apply H|]. intros rid.
  rewrite (count_borrowed_same_tables _ _ _ H). lia.
Qed.

Lemma quiet_books d bid s : quiet d (update_book_status bid s d).
Proof. split; [reflexivity|]. intros rid. rewrite count_borrowed_books. lia. Qed.

Lemma quiet_borrows f k d :
  (∀ b, b_status (f b) = "borrowed" →
        b_status b = "borrowed" ∧ b_reader_id (f b) = b_reader_id b) →
  quiet d (update_borrows f k d).
Proof.
  intros Hf. split; [reflexivity|]. intros rid.
  apply count_borrowed_alter_le. intros b _ [Hr Hs]. simpl in *.
  destruct (Hf b Hs) as [Hs' Hr']. split; simpl; congruence.
Qed.

Lemma quiet_status_db today id s bid d :
  s ≠ "borrowed" → quiet d (status_db today id s bid d).
Proof.
  intros Hs. unfold status_db.
  assert (Q : quiet d (if String.eqb s "returned"
                       then update_borrows (set_status_returned s today) id d
                       else update_borrows (set_status s) id d)).
  { destruct (String.eqb s "returned"); apply quiet_borrows;
      intros b Hb; simpl in Hb; congruence. }
  repeat match goal with
         | |- context [if String.eqb ?a ?b then _ else _] =>
           destruct (String.eqb a b)
         end;
    try (eapply quiet_trans; [|apply quiet_books]);
    first [exact Q | apply quiet_borrows; intros b Hb; simpl in Hb; congruence].
Qed.

(** C5, as stated, fails: [update_reader] writes [max_borrow_count]
    without looking at the ledger. Reader 1 of [db5] has one active borrow
    and the limit 3; after the limit is set to 0 the reader has more active
    borrows than the limit allows. *)
Lemma update_reader_breaks_limit :
  ¬ (∀ today op d sched,
       within_limit d →
       within_limit (db (perform today op (mk_world d sched)).2)).
Proof.
  intros H.
  specialize (H 738905
                (UpdateReader 1 (mk_reader_update None None None None None (Some 0)))
                db5 []).
  assert (H5 : within_limit db5).
  { intros rid r Hl. cbn [db5 readers] in Hl.
    apply lookup_singleton_Some in Hl as [<- <-]. vm_compute. discriminate. }
  specialize (H H5 1 (mk_reader "R" "F" "555-0100" "" "" "active" 0) eq_refl).
  vm_compute in H. apply H. reflexivity.
Qed.

(** C5 (amended): [create_borrow] (when the storage does not fail),
    [return_book], [renew], [apply_fine], [mark_status] to a status other
    than [borrowed], and reader updates that do not set [max_borrow_count]
    preserve the invariant that no reader has more active borrows than
    [max_borrow_count]. *)
Theorem borrow_limit_preserved today op d sched :
  within_limit d → keeps_limit op →
  (∀ data, op = CreateBorrow data → no_faults sched) →
  within_limit (db (perform today op (mk_world d sched)).2).
Proof.
  intros Hd Hop Hs. destruct op as [data|id|id data|id data|id data|id data];
    unfold perform.
  - specialize (Hs data eq_refl).
    destruct data as [[rid|] [bid|] [v|] notes]; try exact Hd.
    change (mk_borrow_request (Some rid) (Some bid) (Some v) notes)
      with (borrow_req rid bid v notes).
    pose proof (create_borrow_decision today rid bid v notes d sched Hs) as Hdec.
    cbv zeta in Hdec.
    destruct (create_borrow today (borrow_req rid bid v notes) (mk_world d sched))
      as [resp w'] eqn:E. cbn [fst snd] in *.
    destruct (create_borrow_outcome _ _ _ _ _ _ _ _ E) as [[_ ->]|Hok];
      [exact Hd|].
    destruct Hok as (r & bk & n & due & Hr & _ & _ & _ & _ & _ & _ & -> & Ht).
    cbn [db fst snd] in *. symmetry in Hdec.
    apply eligible_canBorrow in Hdec.
    destruct Hdec as (r0 & _ & Hr0 & _ & _ & _ & _ & Hlt).
    assert (r0 = r) as -> by congruence.
    intros rid' r' Hl. destruct Ht as (Hrd & Hbk & Hbr).
    rewrite Hrd in Hl.
    unfold borrowed_db, update_book_status, insert_borrow in Hl.
    cbn [readers] in Hl.
    rewrite (count_borrowed_same_tables _ _ _ (conj Hrd (conj Hbk Hbr))).
    unfold borrowed_db. rewrite count_borrowed_books.
    rewrite (count_borrowed_insert rid' rid) by reflexivity.
    case_decide as Hk.
    + subst rid'. assert (r' = r) as -> by congruence. lia.
    + apply Hd. exact Hl.
  - apply (quiet_within_limit d); [|exact Hd].
    destruct (return_book_outcome today id (mk_world d sched))
      as [[_ Hdb]|(b & d1 & d2 & _ & _ & H1 & H2 & Ht)].
    + apply quiet_eq. exact Hdb.
    + cbn [db] in *. apply (quiet_trans _ d2); [|by apply quiet_same_tables].
      apply (quiet_trans _ d1).
      * destruct H1 as [->| ->]; [apply quiet_refl|].
        apply quiet_borrows. intros b0 Hb0. simpl in Hb0. discriminate.
      * destruct H2 as [->| ->]; [apply quiet_refl|apply quiet_books].
  - apply (quiet_within_limit d); [|exact Hd].
    destruct (renew_book_outcome id data (mk_world d sched))
      as [[_ Hdb]|(days & b & n & due & _ & _ & _ & _ & _ & _ & _ & [Ht|Ht])].
    + apply quiet_eq. exact Hdb.
    + by apply quiet_same_tables.
    + cbn [db] in *.
      eapply quiet_trans; [|apply quiet_same_tables; exact Ht].
      apply quiet_borrows. intros b0 Hb0. simpl in *. auto.
  - apply (quiet_within_limit d); [|exact Hd].
    destruct (update_borrow_status_outcome today id data (mk_world d sched))
      as [[_ Hdb]|(s & b & -> & _ & _ & _ & Ht)].
    + apply quiet_eq. exact Hdb.
    + cbn [db] in *.
      eapply quiet_trans; [|apply quiet_same_tables; exact Ht].
      apply quiet_status_db. simpl in Hop. congruence.
  - apply (quiet_within_limit d); [|exact Hd].
    destruct (apply_fine_outcome id data (mk_world d sched))
      as [[_ Hdb]|(amount & b & _ & _ & _ & _ & Ht)].
    + apply quiet_eq. exact Hdb.
    + cbn [db] in *.
      eapply quiet_trans; [|apply quiet_same_tables; exact Ht].
      apply quiet_borrows. intros b0 Hb0. simpl in Hb0. discriminate.
  - destruct (update_reader_outcome id data (mk_world d sched))
      as [[_ Hdb]|[_ Ht]]; cbn [db] in *.
    + rewrite Hdb. exact Hd.
    + simpl in Hop. apply (within_limit_step d); [exact Hd| |].
      * intros rid r'. destruct Ht as (-> & _ & _).
        cbn [update_readers readers]. rewrite lookup_alter.
        case_decide as Hk; [|eauto]. subst rid.
        rewrite fmap_Some. intros (r & Hr & ->). exists r. split; [done|].
        unfold set_reader_fields. cbn [r_max_borrow_count]. by rewrite Hop.
      * intros rid. rewrite (count_borrowed_same_tables _ _ _ Ht).
        unfold count_borrowed, update_readers. cbn [borrows]. lia.
Qed.

Lemma borrow_limit_preserved_witness :
  within_limit db0
  ∧ keeps_limit (CreateBorrow (borrow_req 1 10 (JInt 14) None))
  ∧ within_limit
      (db (perform 739923 (CreateBorrow (borrow_req 1 10 (JInt 14) None))
             (mk_world db0 [])).2).
Proof.
  assert (H0 : within_limit db0).
  { intros rid r Hl. cbn [db0 readers] in Hl.
    apply lookup_singleton_Some in Hl as [<- <-]. vm_compute. discriminate. }
  split; [exact H0|]. split; [exact I|].
  apply (borrow_limit_preserved 739923
           (CreateBorrow (borrow_req 1 10 (JInt 14) None)) db0 [] H0 I).
  intros data _. reflexivity.
Defined.

(** *** Lost and damaged books *)

Lemma rejection_BookIsLost resp :
  rejection resp = Some BookIsLost → resp = (400, BookLost).
Proof.
  destruct resp as [code b]. unfold rejection. cbn [fst snd].
  case_decide as Hc; [|discriminate]. subst code.
  destruct b; try discriminate. reflexivity.
Qed.

Lemma create_borrow_lost today rid bid v notes d sched bk :
  books d !! bid = Some bk → bk_status bk = "lost" →
  let out := create_borrow today (borrow_req rid bid v notes) (mk_world d sched) in
  out.1.1 ≠ 201 ∧ db out.2 = d
  ∧ (no_faults sched →
     ∀ r, readers d !! rid = Some r → r_status r = "active" →
          out.1 = (400, BookLost)).
Proof.
  intros Hbk Hl out.
  destruct (create_borrow_outcome today rid bid v notes (mk_world d sched)
              out.1 out.2) as [[Hc Hd]|Hok].
  { subst out. by destruct (create_borrow _ _ _). }
  - split; [exact Hc|]. split; [exact Hd|].
    intros Hs r Hr Ha. apply rejection_BookIsLost. subst out.
    rewrite (create_borrow_decision today rid bid v notes d sched Hs).
    unfold canBorrow. rewrite Hr, Hbk.
    rewrite decide_True by done. by rewrite decide_True.
  - destruct Hok as (r & bk' & n & due & _ & _ & Hbk' & Hnl & _).
    cbn [db] in Hbk'. congruence.
Qed.

(** C6, as stated, fails: a damaged book can be borrowed; only [lost] and
    [borrowed] are turned away. *)
Lemma damaged_book_is_lent :
  ¬ (∀ today rid bid borrow_days notes d sched bk,
       books d !! bid = Some bk →
       bk_status bk = "damaged" ∨ bk_status bk = "lost" →
       (create_borrow today (borrow_req rid bid borrow_days notes)
          (mk_world d sched)).1.1 ≠ 201).
Proof.
  intros H.
  apply (H 739923 1 10 (JInt 14) None
           (mk_db {[ 1 := reader_R ]} {[ 10 := book_B "damaged" ]} ∅ []) []
           (book_B "damaged")).
  - reflexivity.
  - left. reflexivity.
  - reflexivity.
Qed.

(** C6 (amended): a book with status [lost] cannot be borrowed: every
    [create_borrow] on it is answered with an error and writes nothing, and
    for an existing active reader (storage not failing) the error is the
    book-lost one. After [mark_status(borrow_id, "lost")] on a borrow whose
    book exists, the borrow and the book both have status [lost], and so a
    later [create_borrow] on that book fails in that way. (A damaged book
    can be borrowed.) *)
Theorem lost_book_not_borrowable today rid bid borrow_days notes d sched :
  (∀ bk, books d !! bid = Some bk → bk_status bk = "lost" →
     let out := create_borrow today (borrow_req rid bid borrow_days notes)
                  (mk_world d sched) in
     out.1.1 ≠ 201 ∧ db out.2 = d
     ∧ (no_faults sched →
        ∀ r, readers d !! rid = Some r → r_status r = "active" →
             out.1 = (400, BookLost)))
  ∧ (∀ borrow_id b bk sched0,
       no_faults sched0 →
       borrows d !! borrow_id = Some b → b_book_id b = bid →
       books d !! bid = Some bk →
       let marked := update_borrow_status today borrow_id (Some "lost")
                       (mk_world d sched0) in
       marked.1 = (200, StatusUpdated)
       ∧ b_status <$> borrows (db marked.2) !! borrow_id = Some "lost"
       ∧ bk_status <$> books (db marked.2) !! bid = Some "lost"
       ∧ let out := create_borrow today (borrow_req rid bid borrow_days notes)
                      (mk_world (db marked.2) sched) in
         out.1.1 ≠ 201 ∧ db out.2 = db marked.2
         ∧ (no_faults sched →
            ∀ r, readers d !! rid = Some r → r_status r = "active" →
                 out.1 = (400, BookLost))).
Proof.
  split; [intros bk; apply create_borrow_lost|].
  intros id b bk sched0 Hs Hb Hbid Hbk marked.
  destruct (update_borrow_status_calm today id "lost" b d sched0 Hs) as [Hr Ht];
    [set_solver|exact Hb|].
  fold marked in Hr, Ht. destruct Ht as (Hrd & Hbks & Hbrs).
  assert (Hbk' : books (db marked.2) !! bid = Some (set_book_status "lost" bk)).
  { rewrite Hbks, Hbid. cbn. by rewrite lookup_alter_eq, Hbk. }
  split; [exact Hr|]. split; [|split].
  - rewrite Hbrs. cbn. by rewrite lookup_alter_eq, Hb.
  - by rewrite Hbk'.
  - assert (Hrd' : readers (db marked.2) = readers d) by (by rewrite Hrd).
    rewrite <- Hrd'.
    apply (create_borrow_lost _ _ _ _ _ _ _ _ Hbk'). reflexivity.
Qed.

Lemma lost_book_not_borrowable_witness :
  no_faults []
  ∧ borrows db5 !! 5 = Some (new_borrow 1 10 738881 738895 "")
  ∧ books db5 !! 10 = Some (book_B "borrowed")
  ∧ let marked := update_borrow_status 738905 5 (Some "lost") (mk_world db5 []) in
    marked.1 = (200, StatusUpdated)
    ∧ b_status <$> borrows (db marked.2) !! 5 = Some "lost"
    ∧ bk_status <$> books (db marked.2) !! 10 = Some "lost"
    ∧ let out := create_borrow 738905 (borrow_req 1 10 (JInt 14) None)
                   (mk_world (db marked.2) []) in
      out.1.1 ≠ 201 ∧ db out.2 = db marked.2
      ∧ (no_faults [] →
         ∀ r, readers db5 !! 1 = Some r → r_status r = "active" →
              out.1 = (400, BookLost)).
Proof.
  assert (Hs : no_faults []) by reflexivity.
  assert (Hb : borrows db5 !! 5 = Some (new_borrow 1 10 738881 738895 ""))
    by reflexivity.
  assert (Hbk : books db5 !! 10 = Some (book_B "borrowed")) by reflexivity.
  repeat (split; [assumption|]).
  exact (proj2 (lost_book_not_borrowable 738905 1 10 (JInt 14) None db5 [])
           5 _ _ [] Hs Hb eq_refl Hbk).
Defined.

(** *** Returning twice *)

Lemma select_borrowed_alter f id d :
  (∀ b, b_status (f b) ≠ "borrowed") →
  select_borrowed id (update_borrows f id d) = None.
Proof.
  intros Hf. unfold select_borrowed, update_borrows. cbn [borrows].
  rewrite lookup_alter_eq. destruct (borrows d !! id) as [b|]; [|reflexivity].
  cbn. rewrite decide_False; [reflexivity|apply Hf].
Qed.

Lemma select_borrowed_same_tables id d d' :
  same_tables d d' → select_borrowed id d' = select_borrowed id d.
Proof. intros (_ & _ & Hb). unfold select_borrowed. by rewrite Hb. Qed.

(** C7: [return_book] answers not-found whenever there is no borrow of
    that id with status [borrowed] - absent id and wrong state alike - and
    then writes nothing; in particular, after a return that went through, a
    second call on the same id is answered with not-found and writes
    nothing. *)
Theorem return_book_not_idempotent today id d sched :
  (select_borrowed id d = None →
   let out := return_book today id (mk_world d sched) in
   out.1 = (404, BorrowNotFoundOrReturned) ∧ db out.2 = d)
  ∧ (∀ b today' sched',
       no_faults sched → select_borrowed id d = Some b →
       let first := return_book today id (mk_world d sched) in
       let second := return_book today' id (mk_world (db first.2) sched') in
       first.1 = (200, BookReturned)
       ∧ second.1 = (404, BorrowNotFoundOrReturned)
       ∧ db second.2 = db first.2).
Proof.
  split.
  - intros Hn. apply (return_book_missing today id (mk_world d sched) Hn).
  - intros b today' sched' Hs Hb first second.
    destruct (return_book_calm today id b d sched Hs Hb) as [Hr Ht].
    fold first in Hr, Ht. split; [exact Hr|].
    apply (return_book_missing today' id (mk_world (db first.2) sched')).
    cbn [db]. rewrite (select_borrowed_same_tables _ _ _ Ht).
    unfold returned_db.
    change (select_borrowed id (update_book_status (b_book_id b) "available"
              (update_borrows (mark_returned today) id d)))
      with (select_borrowed id (update_borrows (mark_returned today) id d)).
    apply select_borrowed_alter. intros b0. simpl. discriminate.
Qed.

Lemma return_book_not_idempotent_witness :
  no_faults []
  ∧ select_borrowed 5 db5 = Some (new_borrow 1 10 738881 738895 "")
  ∧ let first := return_book 738905 5 (mk_world db5 []) in
    let second := return_book 738906 5 (mk_world (db first.2) []) in
    first.1 = (200, BookReturned)
    ∧ second.1 = (404, BorrowNotFoundOrReturned)
    ∧ db second.2 = db first.2.
Proof.
  assert (Hs : no_faults []) by reflexivity.
  assert (Hb : select_borrowed 5 db5 = Some (new_borrow 1 10 738881 738895 ""))
    by reflexivity.
  repeat (split; [assumption|]).
  exact (proj2 (return_book_not_idempotent 738905 5 db5 []) _ 738906 [] Hs Hb).
Defined.

(** *** The renewal limit *)

(** C8, as stated, fails: the range check on [extend_days] comes first, so
    a third renewal that asks for 100 days is answered with the validation
    error, not with the renewal-limit error. *)
Lemma third_renewal_out_of_range :
  ¬ (∀ id data b d,
       select_borrowed id d = Some b → b_renew_count b = Some 2 →
       (renew_book id data (mk_world d [])).1 = (400, RenewLimitReached)).
Proof.
  intros H.
  specialize (H 5 (Some (JInt 100)) _ db5_renewed_twice eq_refl eq_refl).
  vm_compute in H. discriminate H.
Qed.

(** C8 (amended): on a borrow with status [borrowed] and [renew_count] 2,
    every further renewal fails and leaves the borrow (and the rest of the
    database) unchanged; for [extend_days] within [1,90] (storage not
    failing) the error is the renewal-limit one, whatever the value. *)
Theorem renew_book_bounded id data b d sched :
  select_borrowed id d = Some b → b_renew_count b = Some 2 →
  let out := renew_book id data (mk_world d sched) in
  out.1.1 ≠ 200 ∧ db out.2 = d
  ∧ (∀ days, no_faults sched →
       isinstance_int (default (JInt 30) data) = Some days → 1 ≤ days ≤ 90 →
       out.1 = (400, RenewLimitReached)).
Proof.
  intros Hb Hn out.
  destruct (renew_book_outcome id data (mk_world d sched)) as [[Hc Hd]|Hok].
  - fold out in Hc, Hd. split; [exact Hc|]. split; [exact Hd|].
    intros days Hs Hi Hdays.
    destruct (renew_book_calm id data days b 2 0 d sched Hs Hi Hdays Hb Hn)
      as [Hlim _].
    apply Hlim. lia.
  - destruct Hok as (? & b' & n & ? & _ & _ & Hb' & Hn' & Hlt & _).
    cbn [db] in Hb'. assert (b' = b) as -> by congruence.
    assert (n = 2) by congruence. lia.
Qed.

Lemma renew_book_bounded_witness :
  select_borrowed 5 db5_renewed_twice
  = Some (mk_borrow 1 10 738881 738955 None (Some 2) None "borrowed" "")
  ∧ let out := renew_book 5 (Some (JInt 30)) (mk_world db5_renewed_twice []) in
    out.1.1 ≠ 200 ∧ db out.2 = db5_renewed_twice
    ∧ (∀ days, no_faults [] →
         isinstance_int (default (JInt 30) (Some (JInt 30))) = Some days →
         1 ≤ days ≤ 90 → out.1 = (400, RenewLimitReached)).
Proof.
  assert (Hb : select_borrowed 5 db5_renewed_twice
               = Some (mk_borrow 1 10 738881 738955 None (Some 2) None
                                 "borrowed" "")) by reflexivity.
  split; [exact Hb|].
  exact (renew_book_bounded 5 (Some (JInt 30)) _ db5_renewed_twice [] Hb eq_refl).
Defined.

(** *** Input validation of [create_borrow] *)

(** C9 (the code departs from it): [create_borrow] only checks that the
    three fields are there. With [borrow_days] 0 or -7 an eligible request
    is answered with 201, a borrow is inserted that is due today or a week
    ago, and the book is set to [borrowed]; with [borrow_days] [null] the
    answer is a 500, not a validation error. *)
Theorem create_borrow_accepts_nonpositive_days :
  let zero := create_borrow 739923 (borrow_req 1 10 (JInt 0) None)
                (mk_world db0 []) in
  let negative := create_borrow 739923 (borrow_req 1 10 (JInt (-7)) None)
                    (mk_world db0 []) in
  let null := create_borrow 739923 (borrow_req 1 10 JNull None)
                (mk_world db0 []) in
  (zero.1 = (201, BorrowCreated 1)
   ∧ b_due_date <$> borrows (db zero.2) !! 1 = Some 739923
   ∧ bk_status <$> books (db zero.2) !! 10 = Some "borrowed")
  ∧ (negative.1 = (201, BorrowCreated 1)
     ∧ b_due_date <$> borrows (db negative.2) !! 1 = Some 739916
     ∧ bk_status <$> books (db negative.2) !! 10 = Some "borrowed")
  ∧ (null.1 = (500, CreateBorrowFailed) ∧ db null.2 = db0).
Proof. vm_compute. repeat split. Qed.

(** *** A fine on an active borrow *)

(** C10: a fine with a positive amount on a borrow with status
    [borrowed] sets the borrow's status to [fined] (and its fine amount)
    and leaves the books as they are, so the book stays [borrowed]; from
    then on [return_book] on that borrow is answered with not-found and
    writes nothing. *)
Theorem apply_fine_strands_book id amount b d sched :
  no_faults sched → borrows d !! id = Some b → b_status b = "borrowed" →
  0 < amount →
  let out := apply_fine id (Some amount) (mk_world d sched) in
  out.1 = (200, FineSet amount)
  ∧ borrows (db out.2) !! id
    = Some (mk_borrow (b_reader_id b) (b_book_id b) (b_borrow_date b)
                      (b_due_date b) (b_return_date b) (b_renew_count b)
                      (Some amount) "fined" (b_notes b))
  ∧ books (db out.2) = books d
  ∧ (∀ today sched',
       let back := return_book today id (mk_world (db out.2) sched') in
       back.1 = (404, BorrowNotFoundOrReturned) ∧ db back.2 = db out.2).
Proof.
  intros Hs Hb Hst Ha out.
  destruct (apply_fine_calm id amount b d sched Hs Ha Hb) as [Hr Ht].
  fold out in Hr, Ht. split; [exact Hr|].
  pose proof Ht as (Hrd & Hbk & Hbr). split; [|split; [exact Hbk|]].
  - rewrite Hbr. cbn. by rewrite lookup_alter_eq, Hb.
  - intros today sched' back.
    apply (return_book_missing today id (mk_world (db out.2) sched')).
    cbn [db]. rewrite (select_borrowed_same_tables _ _ _ Ht).
    apply select_borrowed_alter. intros b0. simpl. discriminate.
Qed.

Lemma apply_fine_strands_book_witness :
  no_faults []
  ∧ borrows db5 !! 5 = Some (new_borrow 1 10 738881 738895 "")
  ∧ 0 < 20
  ∧ let out := apply_fine 5 (Some 20) (mk_world db5 []) in
    out.1 = (200, FineSet 20)
    ∧ borrows (db out.2) !! 5
      = Some (mk_borrow 1 10 738881 738895 None (Some 0) (Some 20) "fined" "")
    ∧ books (db out.2) = books db5
    ∧ (∀ today sched',
         let back := return_book today 5 (mk_world (db out.2) sched') in
         back.1 = (404, BorrowNotFoundOrReturned) ∧ db back.2 = db out.2).
Proof.
  assert (Hs : no_faults []) by reflexivity.
  assert (Hb : borrows db5 !! 5 = Some (new_borrow 1 10 738881 738895 ""))
    by reflexivity.
  assert (Ha : 0 < 20) by lia.
  repeat (split; [assumption|]).
  exact (apply_fine_strands_book 5 20 _ db5 [] Hs Hb eq_refl Ha).
Defined.

(** ** Further properties of the routes *)

(** *** The ledger over sequences of requests *)

Lemma world_eta w : w = mk_world (db w) (pending w).
Proof. by destruct w. Qed.

Lemma date_add_Some d n r : date_add d n = Some r → r = d + n.
Proof.
  unfold date_add, timedelta. destruct (Z.abs n <=? timedelta_max_days); [|done].
  destruct ((date_min <=? d + n) && (d + n <=? date_max)); congruence.
Qed.

Lemma select_borrowed_Some id d b :
  select_borrowed id d = Some b →
  borrows d !! id = Some b ∧ b_status b = "borrowed".
Proof.
  unfold select_borrowed. destruct (borrows d !! id) as [b0|]; [|done].
  case_decide; [|done]. by intros [= <-].
Qed.

Lemma ledger_kept_refl d : ledger_kept d d.
Proof. intros id b Hb. exists b. repeat split; try done; lia. Qed.

Lemma ledger_kept_trans d1 d2 d3 :
  ledger_kept d1 d2 → ledger_kept d2 d3 → ledger_kept d1 d3.
Proof.
  intros H12 H23 id b Hb.
  destruct (H12 _ _ Hb) as (b2 & Hb2 & ? & ? & ? & ? & ? & ?).
  destruct (H23 _ _ Hb2) as (b3 & Hb3 & ? & ? & ? & ? & ? & ?).
  exists b3. repeat split; try congruence; lia.
Qed.

Lemma ledger_kept_borrows d d' : borrows d' = borrows d → ledger_kept d d'.
Proof. intros H id b Hb. exists b. rewrite H. repeat split; try done; lia. Qed.

Lemma ledger_kept_same_tables d d' : same_tables d d' → ledger_kept d d'.
Proof. intros (_ & _ & H). by apply ledger_kept_borrows. Qed.

Lemma ledger_kept_eq d d' : d' = d → ledger_kept d d'.
Proof. intros ->. apply ledger_kept_refl. Qed.

Lemma ledger_kept_alter f id d :
  (∀ b, borrows d !! id = Some b →
        b_reader_id (f b) = b_reader_id b ∧ b_book_id (f b) = b_book_id b
        ∧ b_borrow_date (f b) = b_borrow_date b ∧ b_notes (f b) = b_notes b
        ∧ b_due_date b ≤ b_due_date (f b)
        ∧ latest_due_date (f b) ≤ latest_due_date b) →
  ledger_kept d (update_borrows f id d).
Proof.
  intros Hf k b Hb. cbn [update_borrows borrows]. rewrite lookup_alter.
  case_decide as Hk.
  - subst k. rewrite Hb. exists (f b). split; [done|]. by apply Hf.
  - exists b. repeat split; try done; lia.
Qed.

Lemma ledger_kept_insert b d : ledger_kept d (insert_borrow b d).
Proof.
  intros k b0 Hb0. exists b0. cbn [insert_borrow borrows].
  rewrite lookup_insert_ne; [repeat split; try done; lia|].
  intros <-. by rewrite lastrowid_fresh in Hb0.
Qed.

Lemma perform_ledger_kept today op w :
  ledger_kept (db w) (db (perform today op w).2).
Proof.
  rewrite (world_eta w). generalize (db w) (pending w). clear w.
  intros d sched. cbn [db].
  destruct op as [data|id|id data|id data|id data|id data]; unfold perform.
  - destruct data as [[rid|] [bid|] [v|] notes]; try apply ledger_kept_refl.
    change (mk_borrow_request (Some rid) (Some bid) (Some v) notes)
      with (borrow_req rid bid v notes).
    destruct (create_borrow today (borrow_req rid bid v notes) (mk_world d sched))
      as [resp w'] eqn:E. cbn [snd].
    destruct (create_borrow_outcome _ _ _ _ _ _ _ _ E) as [[_ ->]|Hok];
      [apply ledger_kept_refl|].
    destruct Hok as (r & bk & n & due & _ & _ & _ & _ & _ & _ & _ & _ & Ht).
    cbn [db] in Ht.
    eapply ledger_kept_trans; [|apply ledger_kept_same_tables; exact Ht].
    unfold borrowed_db.
    eapply ledger_kept_trans; [apply ledger_kept_insert|].
    by apply ledger_kept_borrows.
  - destruct (return_book_outcome today id (mk_world d sched))
      as [[_ Hdb]|(b & d1 & d2 & _ & _ & H1 & H2 & Ht)]; cbn [db] in *.
    + by apply ledger_kept_eq.
    + apply (ledger_kept_trans _ d2); [|by apply ledger_kept_same_tables].
      apply (ledger_kept_trans _ d1).
      * destruct H1 as [->| ->]; [apply ledger_kept_refl|].
        apply ledger_kept_alter. intros b0 _. unfold latest_due_date, renewals_left. cbn. repeat split; lia.
      * destruct H2 as [->| ->]; [apply ledger_kept_refl|].
        by apply ledger_kept_borrows.
  - destruct (renew_book_outcome id data (mk_world d sched))
      as [[_ Hdb]|(days & b & n & due & _ & Hd & Hb & Hn & Hlt & Hdue & _ & [Ht|Ht])];
      cbn [db] in *.
    + by apply ledger_kept_eq.
    + by apply ledger_kept_same_tables.
    + eapply ledger_kept_trans; [|apply ledger_kept_same_tables; exact Ht].
      apply ledger_kept_alter. intros b0 Hb0.
      apply select_borrowed_Some in Hb as [Hb _].
      assert (b0 = b) as -> by congruence.
      apply date_add_Some in Hdue as ->.
      unfold latest_due_date, renewals_left. cbn. rewrite Hn. cbn.
      repeat split; lia.
  - destruct (update_borrow_status_outcome today id data (mk_world d sched))
      as [[_ Hdb]|(s & b & _ & _ & _ & _ & Ht)]; cbn [db] in *.
    + by apply ledger_kept_eq.
    + eapply ledger_kept_trans; [|apply ledger_kept_same_tables; exact Ht].
      unfold status_db.
      assert (K : ledger_kept d
                    (if String.eqb s "returned"
                     then update_borrows (set_status_returned s today) id d
                     else update_borrows (set_status s) id d)).
      { destruct (String.eqb s "returned"); apply ledger_kept_alter;
          intros b0 _; unfold latest_due_date, renewals_left; cbn; repeat split; lia. }
      repeat match goal with
             | |- context [if String.eqb ?a ?b then _ else _] =>
               destruct (String.eqb a b)
             end;
        try (eapply ledger_kept_trans; [|by apply ledger_kept_borrows]);
        first [exact K
              | apply ledger_kept_alter; intros b0 _; unfold latest_due_date, renewals_left; cbn; repeat split; lia].
  - destruct (apply_fine_outcome id data (mk_world d sched))
      as [[_ Hdb]|(amount & b & _ & _ & _ & _ & Ht)]; cbn [db] in *.
    + by apply ledger_kept_eq.
    + eapply ledger_kept_trans; [|apply ledger_kept_same_tables; exact Ht].
      apply ledger_kept_alter. intros b0 _. unfold latest_due_date, renewals_left. cbn. repeat split; lia.
  - destruct (update_reader_outcome id data (mk_world d sched))
      as [[_ Hdb]|[_ Ht]]; cbn [db] in *.
    + by apply ledger_kept_eq.
    + eapply ledger_kept_trans; [|apply ledger_kept_same_tables; exact Ht].
      by apply ledger_kept_borrows.
Qed.

Lemma perform_all_ledger_kept reqs w :
  ledger_kept (db w) (db (perform_all reqs w).2).
Proof.
  revert w. induction reqs as [|[today op] rest IH]; intros w.
  - apply ledger_kept_refl.
  - cbn [perform_all]. unfold bind.
    pose proof (perform_ledger_kept today op w) as H1.
    destruct (perform today op w) as [r w1]. cbn [snd] in H1.
    pose proof (IH w1) as H2.
    destruct (perform_all rest w1) as [rs w2]. cbn [snd] in *.
    by apply (ledger_kept_trans _ (db w1)).
Qed.

(** X1: the ledger is append-only. Whatever requests are served and
    whatever the storage does, every borrow record stays, under its id,
    with its reader, its book, its borrow date and its notes, and its due
    date never moves back. *)
Theorem ledger_append_only reqs d sched id b :
  borrows d !! id = Some b →
  ∃ b', borrows (db (perform_all reqs (mk_world d sched)).2) !! id = Some b'
        ∧ b_reader_id b' = b_reader_id b ∧ b_book_id b' = b_book_id b
        ∧ b_borrow_date b' = b_borrow_date b ∧ b_notes b' = b_notes b
        ∧ b_due_date b ≤ b_due_date b'.
Proof.
  intros Hb.
  destruct (perform_all_ledger_kept reqs (mk_world d sched) id b Hb)
    as (b' & ? & ? & ? & ? & ? & ? & _).
  exists b'. auto 10.
Qed.

Lemma ledger_append_only_witness :
  borrows db5 !! 5 = Some (new_borrow 1 10 738881 738895 "")
  ∧ ∃ b', borrows (db (perform_all
                         [(738905, RenewBook 5 (Some (JInt 30)));
                          (738906, ApplyFine 5 (Some 25));
                          (738907, ReturnBook 5)]
                         (mk_world db5 [true; true; false])).2) !! 5 = Some b'
          ∧ b_reader_id b' = 1 ∧ b_book_id b' = 10
          ∧ b_borrow_date b' = 738881 ∧ b_notes b' = ""
          ∧ 738895 ≤ b_due_date b'.
Proof.
  assert (Hb : borrows db5 !! 5 = Some (new_borrow 1 10 738881 738895 ""))
    by reflexivity.
  split; [exact Hb|].
  exact (ledger_append_only _ db5 [true; true; false] 5 _ Hb).
Defined.

Lemma due_date_le_latest b : b_due_date b ≤ latest_due_date b.
Proof. unfold latest_due_date, renewals_left. lia. Qed.

(** X2: renewals extend a borrow by at most 90 days each and there are at
    most two of them: whatever requests are served and whatever the storage
    does, the due date of a borrow with [renew_count] n never passes its
    present due date by more than 90 days for each renewal left of the two,
    and once n is 2 or more it never changes again. *)
Theorem due_date_bounded_by_renewals reqs d sched id b n :
  borrows d !! id = Some b → b_renew_count b = Some n →
  ∃ b', borrows (db (perform_all reqs (mk_world d sched)).2) !! id = Some b'
        ∧ b_due_date b' ≤ b_due_date b + 90 * Z.max 0 (2 - n)
        ∧ (2 ≤ n → b_due_date b' = b_due_date b).
Proof.
  intros Hb Hn.
  destruct (perform_all_ledger_kept reqs (mk_world d sched) id b Hb)
    as (b' & Hb' & _ & _ & _ & _ & Hge & Hle).
  exists b'. split; [exact Hb'|].
  pose proof (due_date_le_latest b') as Hd.
  unfold latest_due_date at 2 in Hle. unfold renewals_left in Hle.
  rewrite Hn in Hle. cbn in Hle. split; lia.
Qed.

Lemma due_date_bounded_by_renewals_witness :
  borrows db5 !! 5 = Some (new_borrow 1 10 738881 738895 "")
  ∧ ∃ b', borrows (db (perform_all
                         [(738905, RenewBook 5 (Some (JInt 90)));
                          (738906, RenewBook 5 (Some (JInt 90)));
                          (738907, RenewBook 5 (Some (JInt 90)))]
                         (mk_world db5 [])).2) !! 5 = Some b'
          ∧ b_due_date b' ≤ 738895 + 90 * Z.max 0 (2 - 0)
          ∧ (2 ≤ 0 → b_due_date b' = 738895).
Proof.
  assert (Hb : borrows db5 !! 5 = Some (new_borrow 1 10 738881 738895 ""))
    by reflexivity.
  split; [exact Hb|].
  exact (due_date_bounded_by_renewals _ db5 [] 5 _ 0 Hb eq_refl).
Defined.

(** *** Requests that fail *)



(** *** No book is lent twice *)

Lemma consistent_same_tables d d' :
  same_tables d d' → ledger_consistent d → ledger_consistent d'.
Proof.
  intros (_ & Hbk & Hbr) [H1 H2]. split.
  - intros id1 id2 b1 b2. rewrite Hbr. apply H1.
  - intros id b bk. rewrite Hbr, Hbk. apply H2.
Qed.

(** A change of one borrow that lends nothing. *)
Lemma consistent_quiet f id d :
  (∀ x, b_status (f x) = "borrowed" →
        b_status x = "borrowed" ∧ b_book_id (f x) = b_book_id x) →
  ledger_consistent d → ledger_consistent (update_borrows f id d).
Proof.
  intros Hf [H1 H2].
  assert (Hold : ∀ k b', alter f id (borrows d) !! k = Some b' →
                   b_status b' = "borrowed" →
                   ∃ b, borrows d !! k = Some b ∧ b_status b = "borrowed"
                        ∧ b_book_id b = b_book_id b').
  { intros k b'. rewrite lookup_alter. case_decide as Hk.
    - subst k. rewrite fmap_Some. intros (b & Hb & ->) Hs.
      destruct (Hf b Hs) as [? ?]. eauto.
    - intros Hb Hs. eauto. }
  split.
  - intros id1 id2 b1 b2 Hb1 Hb2 Hs1 Hs2 Hbk.
    destruct (Hold _ _ Hb1 Hs1) as (c1 & ? & ? & ?).
    destruct (Hold _ _ Hb2 Hs2) as (c2 & ? & ? & ?).
    apply (H1 id1 id2 c1 c2); congruence.
  - intros k b bk Hb Hs. cbn [update_borrows books].
    destruct (Hold _ _ Hb Hs) as (c & Hc & Hcs & <-). by apply (H2 k c).
Qed.

(** The active borrow [id] ends and its book gets a new status. *)
Lemma consistent_release f s id b d :
  borrows d !! id = Some b → b_status b = "borrowed" →
  (∀ x, b_status (f x) ≠ "borrowed") →
  ledger_consistent d →
  ledger_consistent (update_book_status (b_book_id b) s (update_borrows f id d)).
Proof.
  intros Hb Hs Hf [H1 H2].
  assert (Hold : ∀ k b', alter f id (borrows d) !! k = Some b' →
                   b_status b' = "borrowed" →
                   k ≠ id ∧ borrows d !! k = Some b').
  { intros k b'. rewrite lookup_alter. case_decide as Hk.
    - subst k. rewrite fmap_Some. intros (x & _ & ->) Hx. by destruct (Hf x).
    - auto. }
  split.
  - intros id1 id2 b1 b2 Hb1 Hb2 Hs1 Hs2 Hbk.
    destruct (Hold _ _ Hb1 Hs1) as [_ ?]. destruct (Hold _ _ Hb2 Hs2) as [_ ?].
    by apply (H1 id1 id2 b1 b2).
  - intros k b' bk Hb' Hs'. destruct (Hold _ _ Hb' Hs') as [Hk Hb0].
    cbn [update_book_status update_borrows books].
    rewrite lookup_alter_ne; [by apply (H2 k b')|].
    intros Hbk. apply Hk. by apply (H1 k id b' b).
Qed.

Lemma consistent_borrowed_db rid bid today due notes d bk :
  books d !! bid = Some bk → bk_status bk ≠ "borrowed" →
  ledger_consistent d →
  ledger_consistent (borrowed_db rid bid today due notes d).
Proof.
  intros Hbk Hnb [H1 H2]. unfold borrowed_db.
  set (row := new_borrow rid bid today due notes).
  assert (Hnone : ∀ k b, borrows d !! k = Some b → b_status b = "borrowed" →
                         b_book_id b ≠ bid).
  { intros k b Hb Hs Hk. apply Hnb. apply (H2 k b bk Hb Hs). by rewrite Hk. }
  assert (Hcase : ∀ k b, <[lastrowid (borrows d) := row]> (borrows d) !! k = Some b →
                    (k = lastrowid (borrows d) ∧ b = row)
                    ∨ (k ≠ lastrowid (borrows d) ∧ borrows d !! k = Some b)).
  { intros k b. rewrite lookup_insert_Some.
    intros [[<- <-]|[? ?]]; [left|right]; auto. }
  split.
  - intros id1 id2 b1 b2 Hb1 Hb2 Hs1 Hs2 Hk.
    cbn [update_book_status insert_borrow borrows] in Hb1, Hb2.
    destruct (Hcase _ _ Hb1) as [[-> ->]|[? Hc1]];
      destruct (Hcase _ _ Hb2) as [[-> ->]|[? Hc2]].
    + reflexivity.
    + destruct (Hnone _ _ Hc2 Hs2). by rewrite <- Hk.
    + destruct (Hnone _ _ Hc1 Hs1). by rewrite Hk.
    + by apply (H1 id1 id2 b1 b2).
  - intros k b bk' Hb Hs.
    cbn [update_book_status insert_borrow borrows books] in *.
    rewrite lookup_alter. case_decide as Hk.
    + rewrite fmap_Some. intros (x & _ & ->). reflexivity.
    + destruct (Hcase _ _ Hb) as [[-> ->]|[? Hc]]; [by destruct Hk|].
      by apply (H2 k b).
Qed.

(** X4: no book is lent twice. That no book has two active borrows and
    that the book of an active borrow is marked [borrowed] is kept by
    [create_borrow], [renew_book], [apply_fine] and [update_reader]
    whatever the storage does, by [return_book] when the storage does not
    fail, and by a status update to [reserved] or, on an active borrow, to
    [returned], [damaged] or [lost]. *)
Theorem no_double_lending today op d sched :
  ledger_consistent d → keeps_ledger d sched op →
  ledger_consistent (db (perform today op (mk_world d sched)).2).
Proof.
  intros Hd Hop.
  destruct op as [data|id|id data|id data|id data|id data]; unfold perform.
  - destruct data as [[rid|] [bid|] [v|] notes]; try exact Hd.
    change (mk_borrow_request (Some rid) (Some bid) (Some v) notes)
      with (borrow_req rid bid v notes).
    destruct (create_borrow today (borrow_req rid bid v notes) (mk_world d sched))
      as [resp w'] eqn:E. cbn [snd].
    destruct (create_borrow_outcome _ _ _ _ _ _ _ _ E) as [[_ ->]|Hok];
      [exact Hd|].
    destruct Hok as (r & bk & n & due & _ & _ & Hbk & _ & Hnb & _ & _ & _ & Ht).
    cbn [db] in *. apply (consistent_same_tables _ _ Ht).
    by apply (consistent_borrowed_db _ _ _ _ _ _ bk).
  - cbn in Hop.
    destruct (select_borrowed id d) as [b|] eqn:Hb.
    + destruct (return_book_calm today id b d sched Hop Hb) as [_ Ht].
      apply (consistent_same_tables _ _ Ht). unfold returned_db.
      apply select_borrowed_Some in Hb as [Hb Hs].
      apply consistent_release; [done|done| |done]. intros x. cbn. discriminate.
    + destruct (return_book_missing today id (mk_world d sched) Hb) as [_ ->].
      exact Hd.
  - destruct (renew_book_outcome id data (mk_world d sched))
      as [[_ Hdb]|(days & b & n & due & _ & _ & _ & _ & _ & _ & _ & [Ht|Ht])];
      cbn [db] in *.
    + by rewrite Hdb.
    + by apply (consistent_same_tables _ _ Ht).
    + apply (consistent_same_tables _ _ Ht).
      apply consistent_quiet; [|done]. intros x. cbn. auto.
  - destruct (update_borrow_status_outcome today id data (mk_world d sched))
      as [[_ Hdb]|(s & b & -> & Hv & Hb & _ & Ht)]; cbn [db] in *.
    + by rewrite Hdb.
    + apply (consistent_same_tables _ _ Ht). cbn in Hop. unfold status_db.
      destruct Hop as [->|[Hnb [b0 Hb0]]].
      * cbn. apply consistent_quiet; [|done]. intros x. cbn. discriminate.
      * apply select_borrowed_Some in Hb0 as [Hb0 Hs0].
        assert (b0 = b) as -> by congruence.
        assert (Hcases : s = "returned" ∨ s = "reserved" ∨ s = "damaged"
                         ∨ s = "lost").
        { unfold valid_statuses in Hv.
          repeat (apply elem_of_cons in Hv as [Hv|Hv];
                  [subst s; try (by destruct Hnb); auto|]).
          by apply elem_of_nil in Hv. }
        destruct Hcases as [->|[->|[->| ->]]]; cbn;
          first [ apply consistent_release; [done|done| |done];
                  intros x; cbn; discriminate
                | apply consistent_quiet; [|done]; intros x; cbn; discriminate ].
  - destruct (apply_fine_outcome id data (mk_world d sched))
      as [[_ Hdb]|(amount & b & _ & _ & _ & _ & Ht)]; cbn [db] in *.
    + by rewrite Hdb.
    + apply (consistent_same_tables _ _ Ht).
      apply consistent_quiet; [|done]. intros x. cbn. discriminate.
  - destruct (update_reader_outcome id data (mk_world d sched))
      as [[_ Hdb]|[_ Ht]]; cbn [db] in *.
    + by rewrite Hdb.
    + apply (consistent_same_tables _ _ Ht).
      destruct Hd as [H1 H2]. split; [exact H1|exact H2].
Qed.

Lemma db5_consistent : ledger_consistent db5.
Proof.
  split.
  - intros id1 id2 b1 b2 H1 H2 _ _ _. cbn [db5 borrows] in H1, H2.
    apply lookup_singleton_Some in H1 as [<- _].
    by apply lookup_singleton_Some in H2 as [<- _].
  - intros id b bk Hb _. cbn [db5 borrows books] in *.
    apply lookup_singleton_Some in Hb as [<- <-]. cbn.
    intros [_ <-]%lookup_singleton_Some. reflexivity.
Qed.

Lemma no_double_lending_witness :
  ledger_consistent db5 ∧ keeps_ledger db5 [] (ReturnBook 5)
  ∧ ledger_consistent (db (perform 738905 (ReturnBook 5) (mk_world db5 [])).2).
Proof.
  assert (Hk : keeps_ledger db5 [] (ReturnBook 5)) by reflexivity.
  split; [exact db5_consistent|]. split; [exact Hk|].
  exact (no_double_lending 738905 (ReturnBook 5) db5 [] db5_consistent Hk).
Defined.

(** *** Borrowing and returning *)

(** X5: borrowing and returning is a round trip for the reader. When the
    storage does not fail, an eligible [create_borrow] followed by
    [return_book] on the identifier it answered leaves the borrow
    [returned] on the day of the return, the book [available] - also when
    it was [damaged] before - every reader's count of active borrows as
    it was, and the request eligible again. *)
Theorem borrow_return_round_trip today today' rid bid borrow_days notes d
    sched sched' :
  valid_date today → eligible d rid bid →
  0 < borrow_days → today + borrow_days ≤ date_max →
  no_faults sched → no_faults sched' →
  let created := create_borrow today (borrow_req rid bid (JInt borrow_days) notes)
                   (mk_world d sched) in
  let id := lastrowid (borrows d) in
  let returned := return_book today' id (mk_world (db created.2) sched') in
  created.1 = (201, BorrowCreated id)
  ∧ returned.1 = (200, BookReturned)
  ∧ b_status <$> borrows (db returned.2) !! id = Some "returned"
  ∧ b_return_date <$> borrows (db returned.2) !! id = Some (Some today')
  ∧ bk_status <$> books (db returned.2) !! bid = Some "available"
  ∧ (∀ rid', count_borrowed rid' (db returned.2) = count_borrowed rid' d)
  ∧ eligible (db returned.2) rid bid.
Proof.
  intros Ht He Hn Hmax Hs Hs' created id returned.
  assert (Hdue : date_add today borrow_days = Some (today + borrow_days)).
  { apply date_add_valid; [done|]. unfold valid_date, date_min in *. lia. }
  pose proof He as He0. apply eligible_canBorrow in He0.
  destruct (create_borrow_calm today rid bid (JInt borrow_days) notes
              borrow_days (today + borrow_days) d sched Hs He0 eq_refl Hdue)
    as [Hr1 Ht1].
  fold created in Hr1, Ht1. fold id in Hr1.
  set (row := new_borrow rid bid today (today + borrow_days) (default "" notes))
    in *.
  destruct Ht1 as (Hrd1 & Hbk1 & Hbr1).
  cbn [borrowed_db update_book_status insert_borrow readers books borrows]
    in Hrd1, Hbk1, Hbr1. fold id in Hbr1.
  assert (Hsel : select_borrowed id (db created.2) = Some row).
  { unfold select_borrowed. rewrite Hbr1, lookup_insert_eq. reflexivity. }
  destruct (return_book_calm today' id row (db created.2) sched' Hs' Hsel)
    as [Hr2 Ht2].
  fold returned in Hr2, Ht2. destruct Ht2 as (Hrd2 & Hbk2 & Hbr2).
  cbn [returned_db update_book_status update_borrows readers books borrows]
    in Hrd2, Hbk2, Hbr2.
  change (b_book_id row) with bid in Hbk2.
  destruct He as (r & bk & Hr & Hact & Hbk & Hnl & Hnb & Hcnt).
  assert (Hbr : borrows (db returned.2)
                = <[id := mark_returned today' row]> (borrows d)).
  { rewrite Hbr2, Hbr1. by rewrite (alter_alt_Some _ _ _ row),
      insert_insert_eq by apply lookup_insert_eq. }
  assert (Hbook : books (db returned.2) !! bid
                  = Some (set_book_status "available"
                            (set_book_status "borrowed" bk))).
  { rewrite Hbk2, Hbk1. by rewrite !lookup_alter_eq, Hbk. }
  assert (Hcount : ∀ rid', count_borrowed rid' (db returned.2)
                           = count_borrowed rid' d).
  { intros rid'. unfold count_borrowed. rewrite Hbr. unfold id.
    rewrite size_filter_insert_fresh by apply lastrowid_fresh.
    rewrite decide_False; [done|]. by intros [_ H]. }
  split; [exact Hr1|]. split; [exact Hr2|].
  split; [by rewrite Hbr, lookup_insert_eq|].
  split; [by rewrite Hbr, lookup_insert_eq|].
  split; [by rewrite Hbook|]. split; [exact Hcount|].
  exists r, (set_book_status "available" (set_book_status "borrowed" bk)).
  rewrite Hrd2, Hrd1, Hcount. repeat split; try done.
Qed.

Lemma borrow_return_round_trip_witness :
  valid_date 739923 ∧ eligible db0 1 10 ∧ 0 < 14 ∧ 739923 + 14 ≤ date_max
  ∧ no_faults []
  ∧ let created := create_borrow 739923 (borrow_req 1 10 (JInt 14) None)
                     (mk_world db0 []) in
    let returned := return_book 739930 1 (mk_world (db created.2) []) in
    created.1 = (201, BorrowCreated 1)
    ∧ returned.1 = (200, BookReturned)
    ∧ b_status <$> borrows (db returned.2) !! 1 = Some "returned"
    ∧ b_return_date <$> borrows (db returned.2) !! 1 = Some (Some 739930)
    ∧ bk_status <$> books (db returned.2) !! 10 = Some "available"
    ∧ (∀ rid', count_borrowed rid' (db returned.2) = count_borrowed rid' db0)
    ∧ eligible (db returned.2) 1 10.
Proof.
  assert (Hv : valid_date 739923)
    by (unfold valid_date, date_min, date_max; lia).
  assert (He : eligible db0 1 10)
    by (exists reader_R, (book_B "available"); vm_compute;
        repeat split; congruence).
  assert (Hn : 0 < 14) by lia.
  assert (Hm : 739923 + 14 ≤ date_max) by (unfold date_max; lia).
  assert (Hs : no_faults []) by reflexivity.
  repeat (split; [assumption|]).
  exact (borrow_return_round_trip 739923 739930 1 10 14 None db0 [] []
           Hv He Hn Hm Hs Hs).
Defined.

(** *** Guards whose query fails *)

Lemma execute_query_ok {A} (sql : database → A) d sched :
  execute_query sql (mk_world d (true :: true :: sched))
  = (Some (sql d), mk_world d sched).
Proof. reflexivity. Qed.

Lemma execute_query_no_connection {A} (sql : database → A) d sched :
  execute_query sql (mk_world d (false :: sched)) = (None, mk_world d sched).
Proof. reflexivity. Qed.

Lemma execute_query_no_result {A} (sql : database → A) d sched :
  execute_query sql (mk_world d (true :: false :: sched))
  = (None, mk_world d sched).
Proof. reflexivity. Qed.

(** X6: the borrow limit is enforced only if it can be read. When the
    query that counts the reader's active borrows fails (and nothing else
    does), [create_borrow] lends to an active reader a book that is neither
    lost nor borrowed whatever the reader's count is - at or over the limit
    too - and the count rises by one. *)
Theorem borrow_limit_skipped_when_count_fails today rid bid borrow_days notes
    d sched rest r bk :
  readers d !! rid = Some r → r_status r = "active" →
  books d !! bid = Some bk →
  bk_status bk ≠ "lost" → bk_status bk ≠ "borrowed" →
  valid_date today → 0 < borrow_days → today + borrow_days ≤ date_max →
  count_query_fails sched rest → no_faults rest →
  let out := create_borrow today (borrow_req rid bid (JInt borrow_days) notes)
               (mk_world d sched) in
  out.1 = (201, BorrowCreated (lastrowid (borrows d)))
  ∧ count_borrowed rid (db out.2) = count_borrowed rid d + 1.
Proof.
  intros Hr Hact Hbk Hnl Hnb Ht Hn Hmax Hsched Hrest out.
  assert (Hdue : date_add today borrow_days = Some (today + borrow_days)).
  { apply date_add_valid; [done|]. unfold valid_date, date_min in *. lia. }
  assert (Htxn : ∀ w, db w = d → pending w = rest →
    let res := create_borrow_transaction rid bid today (today + borrow_days)
                 (default "" notes) w in
    res.1 = (201, BorrowCreated (lastrowid (borrows d)))
    ∧ count_borrowed rid (db res.2) = count_borrowed rid d + 1).
  { intros w Hd Hp res.
    destruct (create_borrow_transaction rid bid today (today + borrow_days)
                (default "" notes) w) as [resp w'] eqn:E.
    assert (Hw : no_faults (pending w)) by (by rewrite Hp).
    destruct (create_borrow_transaction_calm _ _ _ _ _ _ _ _ Hw E) as [-> Hsame].
    subst res. cbn [fst snd]. rewrite Hd in *. split; [done|].
    rewrite (count_borrowed_same_tables _ _ _ Hsame).
    unfold borrowed_db. rewrite count_borrowed_books.
    rewrite (count_borrowed_insert rid rid) by reflexivity.
    by rewrite decide_True. }
  subst out. unfold create_borrow, borrow_req, bind.
  cbn [req_reader_id req_book_id req_borrow_days req_notes].
  apply String.eqb_eq in Hact. apply String.eqb_neq in Hnl, Hnb.
  destruct Hsched as [-> | ->]; cbn [app];
    rewrite !execute_query_ok; unfold select_reader, select_book;
    rewrite Hr, Hact; cbn [negb]; rewrite execute_query_ok, Hbk, Hnl, Hnb;
    [rewrite execute_query_no_connection|rewrite execute_query_no_result];
    cbn [py_int]; rewrite Hdue; by apply Htxn.
Qed.

(** Reader 1 at the limit of three active borrows, as in [db3]. *)
Lemma borrow_limit_skipped_when_count_fails_witness :
  readers db3 !! 1 = Some reader_R ∧ books db3 !! 11 = Some (book_B "available")
  ∧ count_borrowed 1 db3 = r_max_borrow_count reader_R
  ∧ let out := create_borrow 739923 (borrow_req 1 11 (JInt 14) None)
                 (mk_world db3 [true; true; true; true; false]) in
    out.1 = (201, BorrowCreated 4)
    ∧ count_borrowed 1 (db out.2) = count_borrowed 1 db3 + 1.
Proof.
  assert (Hr : readers db3 !! 1 = Some reader_R) by reflexivity.
  assert (Hb : books db3 !! 11 = Some (book_B "available")) by reflexivity.
  assert (Hc : count_borrowed 1 db3 = r_max_borrow_count reader_R)
    by (vm_compute; reflexivity).
  repeat (split; [assumption|]).
  refine (borrow_limit_skipped_when_count_fails 739923 1 11 14 None db3
            _ [] reader_R (book_B "available") Hr eq_refl Hb _ _ _ _ _ _ _).
  - cbn. discriminate.
  - cbn. discriminate.
  - unfold valid_date, date_min, date_max. lia.
  - lia.
  - unfold date_max. lia.
  - left. reflexivity.
  - reflexivity.
Defined.

(** *** The audit log *)

Lemma tick_spec w ok w' :
  tick w = (ok, w') →
  db w' = db w
  ∧ (no_faults (pending w) → ok = true ∧ no_faults (pending w')).
Proof.
  intros E. split; [by apply tick_inv in E|].
  intros H. by destruct (tick_calm _ _ _ H E) as (? & _ & ?).
Qed.

Lemma execute_query_spec {A} (sql : database → A) w r w' :
  execute_query sql w = (r, w') →
  system_logs (db w') = system_logs (db w)
  ∧ (no_faults (pending w) → is_Some r ∧ no_faults (pending w')).
Proof.
  intros E. split; [by destruct (execute_query_inv _ _ _ _ E) as [-> _]|].
  intros H. destruct (execute_query_calm _ _ _ _ H E) as (-> & _ & ?). eauto.
Qed.

Lemma execute_query_nofetch_spec sql w r w' :
  (∀ d, system_logs (sql d) = system_logs d) →
  execute_query_nofetch sql w = (r, w') →
  system_logs (db w') = system_logs (db w)
  ∧ (no_faults (pending w) → is_Some r ∧ no_faults (pending w')).
Proof.
  intros Hsql E. split.
  - destruct (execute_query_nofetch_inv _ _ _ _ E) as [[_ ->]|[_ ->]]; auto.
  - intros H. destruct (execute_query_nofetch_calm _ _ _ _ H E) as (-> & _ & ?).
    eauto.
Qed.

Lemma log_operation_spec a ty id w u w' :
  log_operation a ty id w = (u, w') →
  (system_logs (db w') = system_logs (db w)
   ∨ system_logs (db w') = (system_logs (db w) ++ [mk_log a ty id])%list)
  ∧ (no_faults (pending w) →
     system_logs (db w') = (system_logs (db w) ++ [mk_log a ty id])%list).
Proof.
  unfold log_operation, bind, ret.
  destruct (execute_query_nofetch _ w) as [r w1] eqn:E. intros [= _ <-]. split.
  - destruct (execute_query_nofetch_inv _ _ _ _ E) as [[_ ->]|[_ ->]]; auto.
  - intros H. by destruct (execute_query_nofetch_calm _ _ _ _ H E) as (_ & -> & _).
Qed.

Lemma cursor_execute_spec sql working w r w' :
  cursor_execute sql working w = (r, w') →
  db w' = db w
  ∧ (r = None ∨ r = Some (sql working))
  ∧ (no_faults (pending w) → is_Some r ∧ no_faults (pending w')).
Proof.
  intros E. destruct (cursor_execute_inv _ _ _ _ _ E) as [? ?].
  split; [done|]. split; [done|]. intros Hnf.
  destruct (cursor_execute_calm _ _ _ _ _ Hnf E) as (-> & _ & ?). eauto.
Qed.

Lemma connection_commit_spec working w ok w' :
  connection_commit working w = (ok, w') →
  ((ok = false ∧ db w' = db w) ∨ (ok = true ∧ db w' = working))
  ∧ (no_faults (pending w) → ok = true ∧ no_faults (pending w')).
Proof.
  intros E. split; [by apply connection_commit_inv|].
  intros H. by destruct (connection_commit_calm _ _ _ _ H E) as (? & _ & ?).
Qed.

Ltac query_spec :=
  match goal with
  | |- context [execute_query ?q ?w] =>
    let r := fresh "r" in let w1 := fresh "w" in let E := fresh "E" in
    let L := fresh "L" in let C := fresh "C" in
    destruct (execute_query q w) as [r w1] eqn:E;
    destruct (execute_query_spec q w _ _ E) as [L C];
    clear E; cbn [db pending] in L, C; cbv beta iota
  end.

Ltac write_spec :=
  match goal with
  | |- context [execute_query_nofetch ?u ?w] =>
    let r := fresh "r" in let w1 := fresh "w" in let E := fresh "E" in
    let L := fresh "L" in let C := fresh "C" in
    destruct (execute_query_nofetch u w) as [r w1] eqn:E;
    destruct (execute_query_nofetch_spec u w _ _ ltac:(reflexivity) E) as [L C];
    clear E; cbn [db pending] in L, C; cbv beta iota
  end.

Ltac log_spec :=
  match goal with
  | |- context [log_operation ?a ?t ?i ?w] =>
    let u := fresh "u" in let w1 := fresh "w" in let E := fresh "E" in
    let L := fresh "L" in let C := fresh "C" in
    destruct (log_operation a t i w) as [u w1] eqn:E;
    destruct (log_operation_spec a t i w _ _ E) as [L C];
    clear E; cbn [db pending] in L, C; cbv beta iota
  end.

(** Push the absence of failures through the steps taken so far. *)
Ltac no_failure H :=
  repeat match goal with
         | C : no_faults ?p → _ |- _ =>
           let H' := fresh "H" in
           assert (H' : no_faults p) by (first [exact H | assumption]);
           specialize (C H'); clear H'
         | C : _ ∧ no_faults _ |- _ => destruct C as [? ?]
         | C : is_Some None |- _ => by destruct C
         end.

(** The end of a route: no record and an error, or the record. *)
Ltac audit_leaf :=
  unfold audited, ret; cbn [fst snd db pending]; split;
  [ first [ left; congruence
          | right; eexists; split; [reflexivity|congruence] ]
  | let Hnf := fresh "Hnf" in let Hc := fresh "Hc" in
    intros Hnf Hc;
    first [ by destruct Hc
          | no_failure Hnf; eexists; split; [reflexivity|congruence] ] ].

Lemma return_book_audited today id w :
  audited (ReturnBook id) (db w) (pending w) (return_book today id w).
Proof.
  unfold return_book, bind. query_spec.
  destruct r as [[b|]|]; [|audit_leaf..].
  write_spec. write_spec. log_spec. destruct L2 as [L2|L2]; audit_leaf.
Qed.

Ltac connect_spec :=
  match goal with
  | |- context [get_db_connection ?w] =>
    let c := fresh "c" in let w1 := fresh "w" in let E := fresh "E" in
    let L := fresh "L" in let C := fresh "C" in
    destruct (get_db_connection w) as [c w1] eqn:E;
    destruct (tick_spec w _ _ E) as [L C];
    clear E; cbn [db pending] in L, C; cbv beta iota
  end.

Ltac cursor_spec :=
  match goal with
  | |- context [cursor_execute ?u ?d ?w] =>
    let r := fresh "r" in let w1 := fresh "w" in let E := fresh "E" in
    let L := fresh "L" in let C := fresh "C" in
    destruct (cursor_execute u d w) as [r w1] eqn:E;
    destruct (cursor_execute_spec u d w _ _ E) as (L & [->| ->] & C);
    clear E; cbn [db pending] in L, C; cbv beta iota
  end.

Ltac commit_spec :=
  match goal with
  | |- context [connection_commit ?d ?w] =>
    let r := fresh "r" in let w1 := fresh "w" in let E := fresh "E" in
    let L := fresh "L" in let C := fresh "C" in
    destruct (connection_commit d w) as [r w1] eqn:E;
    destruct (connection_commit_spec d w _ _ E) as [[[-> L]|[-> L]] C];
    clear E; cbn [db pending negb] in L, C |- *; cbv beta iota
  end.

(** The leaf of a route with a transaction: the facts on the databases are
    first turned into facts on their audit logs. *)
Ltac audit_leaf_db :=
  repeat match goal with
         | H : db ?w = _ |- _ =>
           apply (f_equal system_logs) in H;
           cbn [system_logs update_book_status insert_borrow update_borrows
                update_readers] in H
         | H : true = true ∧ _ |- _ => destruct H as [_ H]
         | H : false = true ∧ _ |- _ => by destruct H
         end;
  audit_leaf.

Lemma renew_book_audited id data w :
  audited (RenewBook id data) (db w) (pending w) (renew_book id data w).
Proof.
  unfold renew_book, bind.
  destruct (isinstance_int _) as [days|]; [|audit_leaf].
  destruct ((days <? 1) || (90 <? days)); [audit_leaf|].
  query_spec. destruct r as [[b|]|]; [|audit_leaf..].
  destruct (b_renew_count b) as [n|]; [|audit_leaf].
  destruct (2 <=? n); [audit_leaf|].
  destruct (date_add _ _) as [due|]; [|audit_leaf].
  write_spec. log_spec. destruct L1 as [L1|L1]; audit_leaf.
Qed.

Lemma apply_fine_audited id data w :
  audited (ApplyFine id data) (db w) (pending w) (apply_fine id data w).
Proof.
  unfold apply_fine, bind.
  destruct data as [amount|]; [|audit_leaf].
  destruct ((amount =? 0) || (amount <=? 0)); [audit_leaf|].
  query_spec. destruct r as [[b|]|]; [|audit_leaf..].
  write_spec. destruct r as [[]|]; [|audit_leaf].
  log_spec. destruct L1 as [L1|L1]; audit_leaf.
Qed.

Lemma update_reader_audited id data w :
  audited (UpdateReader id data) (db w) (pending w) (update_reader id data w).
Proof.
  unfold update_reader, bind.
  query_spec. destruct r as [[r|]|]; [|audit_leaf..].
  destruct (no_update_fields data); [audit_leaf|].
  write_spec. destruct r0 as [[]|]; [|audit_leaf].
  log_spec. destruct L1 as [L1|L1]; audit_leaf.
Qed.

Lemma update_borrow_status_audited today id data w :
  audited (MarkStatus id data) (db w) (pending w)
          (update_borrow_status today id data w).
Proof.
  unfold update_borrow_status, bind.
  destruct data as [s|]; [|audit_leaf].
  destruct (bool_decide (s ∈ valid_statuses)); cbn [negb]; [|audit_leaf].
  query_spec. destruct r as [[b|]|]; [|audit_leaf..].
  connect_spec. destruct c; cbn [negb]; [|audit_leaf_db].
  unfold get_db.
  destruct (String.eqb s "returned"); destruct (String.eqb s "lost");
    destruct (String.eqb s "damaged");
    (cursor_spec; [audit_leaf_db|]);
    try (cursor_spec; [audit_leaf_db|]);
    try (unfold ret at 1; cbv beta iota);
    (commit_spec; [audit_leaf_db|]);
    log_spec;
    match goal with L : _ ∨ _ |- _ => destruct L end;
    audit_leaf_db.
Qed.

Lemma create_borrow_transaction_audited data rid bid today due notes w :
  audited (CreateBorrow data) (db w) (pending w)
          (create_borrow_transaction rid bid today due notes w).
Proof.
  unfold create_borrow_transaction, bind.
  connect_spec. destruct c; cbn [negb]; [|audit_leaf_db].
  unfold get_db.
  cursor_spec; [audit_leaf_db|]. cursor_spec; [audit_leaf_db|].
  commit_spec; [audit_leaf_db|].
  log_spec. match goal with L : _ ∨ _ |- _ => destruct L end; audit_leaf_db.
Qed.

Lemma audited_after op d sched w out :
  system_logs (db w) = system_logs d →
  (no_faults sched → no_faults (pending w)) →
  audited op (db w) (pending w) out → audited op d sched out.
Proof.
  intros Hl Hs [HA HB]. unfold audited. rewrite <- Hl. split; [exact HA|].
  intros Hnf. apply HB, Hs, Hnf.
Qed.

Lemma create_borrow_audited today data w :
  audited (CreateBorrow data) (db w) (pending w) (create_borrow today data w).
Proof.
  unfold create_borrow, bind.
  destruct (req_reader_id data) as [rid|]; [|audit_leaf].
  destruct (req_book_id data) as [bid|]; [|audit_leaf].
  destruct (req_borrow_days data) as [v|]; [|audit_leaf].
  query_spec. destruct r as [[r|]|]; [|audit_leaf..].
  destruct (negb _); [audit_leaf|].
  query_spec. destruct r0 as [[bk|]|]; [|audit_leaf..].
  destruct (String.eqb (bk_status bk) "lost"); [audit_leaf|].
  destruct (String.eqb (bk_status bk) "borrowed"); [audit_leaf|].
  query_spec.
  destruct (match r0 with Some c => _ | None => false end); [audit_leaf|].
  destruct (py_int v) as [n|]; [|audit_leaf].
  destruct (date_add today n) as [due|]; [|audit_leaf].
  apply (audited_after _ _ _ w2); [congruence| |].
  - intros Hnf. no_failure Hnf. assumption.
  - apply create_borrow_transaction_audited.
Qed.

(** X7: the audit trail. Whatever the storage does, a request adds
    nothing to the audit log or exactly one record at its end, and then the
    record of its own success: its action, and the id of its target (for
    [create_borrow], the identifier it answered). When the storage does
    not fail, every request answered with 200 or 201 has added its
    record. *)
Theorem audit_trail today op d sched :
  let out := perform today op (mk_world d sched) in
  (system_logs (db out.2) = system_logs d
   ∨ ∃ e, audit_record op out.1 = Some e
          ∧ system_logs (db out.2) = (system_logs d ++ [e])%list)
  ∧ (no_faults sched → out.1.1 = 200 ∨ out.1.1 = 201 →
     ∃ e, audit_record op out.1 = Some e
          ∧ system_logs (db out.2) = (system_logs d ++ [e])%list).
Proof.
  intros out. subst out.
  change (audited op (db (mk_world d sched)) (pending (mk_world d sched))
            (perform today op (mk_world d sched))).
  destruct op; unfold perform.
  - apply create_borrow_audited.
  - apply return_book_audited.
  - apply renew_book_audited.
  - apply update_borrow_status_audited.
  - apply apply_fine_audited.
  - apply update_reader_audited.
Qed.

Lemma audit_trail_witness :
  no_faults []
  ∧ let out := perform 739923 (CreateBorrow (borrow_req 1 10 (JInt 14) None))
                 (mk_world db0 []) in
    (out.1.1 = 200 ∨ out.1.1 = 201)
    ∧ ∃ e, audit_record (CreateBorrow (borrow_req 1 10 (JInt 14) None)) out.1
           = Some e
           ∧ system_logs (db out.2) = (system_logs db0 ++ [e])%list.
Proof.
  assert (Hs : no_faults []) by reflexivity.
  assert (Hc : (perform 739923 (CreateBorrow (borrow_req 1 10 (JInt 14) None))
                  (mk_world db0 [])).1.1 = 200
               ∨ (perform 739923 (CreateBorrow (borrow_req 1 10 (JInt 14) None))
                    (mk_world db0 [])).1.1 = 201)
    by (right; reflexivity).
  split; [exact Hs|]. cbv zeta. split; [exact Hc|].
  exact (proj2 (audit_trail 739923 _ db0 []) Hs Hc).
Defined.

(** *** The listing of the borrows *)

Global Instance id_desc_trans : Transitive id_desc.
Proof. intros x y z. unfold id_desc. lia. Qed.

Global Instance id_desc_total : Total id_desc.
Proof. intros x y. unfold id_desc. lia. Qed.

Lemma mark_overdue_id today v : v_id (mark_overdue today v) = v_id v.
Proof. unfold mark_overdue. by destruct (_ && _). Qed.

Lemma join_borrow_id d kv v : join_borrow d kv = Some v → v_id v = kv.1.
Proof.
  unfold join_borrow. destruct (readers d !! _); [|done].
  destruct (books d !! _); [|done]. by intros [= <-].
Qed.

Lemma elem_of_select_borrow_views d v :
  v ∈ select_borrow_views d
  ↔ ∃ id b r bk,
      borrows d !! id = Some b ∧ readers d !! b_reader_id b = Some r
      ∧ books d !! b_book_id b = Some bk
      ∧ v = mk_view id b (r_name r) (bk_title bk) (bk_status bk).
Proof.
  unfold select_borrow_views. rewrite list_elem_of_omap. split.
  - intros ([id b] & Hin & Hj). rewrite merge_sort_Permutation in Hin.
    apply elem_of_map_to_list in Hin. unfold join_borrow in Hj. cbn in Hj.
    destruct (readers d !! b_reader_id b) as [r|] eqn:Hr; [|done].
    destruct (books d !! b_book_id b) as [bk|] eqn:Hbk; [|done].
    injection Hj as <-. exists id, b, r, bk. auto.
  - intros (id & b & r & bk & Hb & Hr & Hbk & ->). exists (id, b). split.
    + rewrite merge_sort_Permutation. by apply elem_of_map_to_list.
    + unfold join_borrow. cbn. by rewrite Hr, Hbk.
Qed.

Lemma strictly_sorted_keys (l : list (Z * borrow)) :
  StronglySorted id_desc l → NoDup l.*1 →
  StronglySorted (λ x y, y.1 < x.1) l.
Proof.
  induction 1 as [|x l Hl IH Hx]; intros Hnd; [constructor|].
  cbn in Hnd. apply NoDup_cons in Hnd as [Hnin Hnd].
  constructor; [by apply IH|].
  rewrite Forall_forall in Hx. apply Forall_forall. intros y Hy.
  specialize (Hx y Hy). unfold id_desc in Hx.
  assert (y.1 ≠ x.1); [|lia].
  intros Heq. apply Hnin. rewrite <- Heq. apply list_elem_of_fmap. eauto.
Qed.

Lemma strictly_sorted_views d (l : list (Z * borrow)) :
  StronglySorted (λ x y, y.1 < x.1) l →
  StronglySorted (λ v1 v2, v_id v2 < v_id v1) (omap (join_borrow d) l).
Proof.
  induction 1 as [|x l Hl IH Hx]; [constructor|]. cbn.
  destruct (join_borrow d x) as [v|] eqn:Hv; [|exact IH].
  constructor; [exact IH|].
  apply Forall_forall. intros v' Hv'.
  apply list_elem_of_omap in Hv' as (y & Hy & Hjy).
  rewrite Forall_forall in Hx. specialize (Hx y Hy).
  by rewrite (join_borrow_id _ _ _ Hv), (join_borrow_id _ _ _ Hjy).
Qed.

Lemma select_borrow_views_sorted d :
  StronglySorted (λ v1 v2, v_id v2 < v_id v1) (select_borrow_views d).
Proof.
  apply strictly_sorted_views, strictly_sorted_keys.
  - apply StronglySorted_merge_sort; apply _.
  - rewrite merge_sort_Permutation. apply NoDup_fst_map_to_list.
Qed.

Lemma get_borrows_run today w :
  let out := get_borrows today w in
  db out.2 = db w
  ∧ (out.1 = (500, ListingFailed)
     ∨ out.1 = (200, Listing (mark_overdue today <$> select_borrow_views (db w))))
  ∧ (no_faults (pending w) →
     out.1 = (200, Listing (mark_overdue today <$> select_borrow_views (db w)))).
Proof.
  unfold get_borrows, bind.
  destruct (execute_query select_borrow_views w) as [r w1] eqn:E.
  split; [|split].
  - destruct (execute_query_inv _ _ _ _ E) as [D _]. by destruct r.
  - destruct (execute_query_inv _ _ _ _ E) as [_ [->| ->]]; auto.
  - intros H. by destruct (execute_query_calm _ _ _ _ H E) as (-> & _ & _).
Qed.

Lemma mark_overdue_view today id b name title status :
  mark_overdue today (mk_view id b name title status)
  = mk_view id
      (mk_borrow (b_reader_id b) (b_book_id b) (b_borrow_date b)
         (b_due_date b) (b_return_date b) (b_renew_count b)
         (b_fine_amount b)
         (if bool_decide (b_status b = "borrowed" ∧ b_due_date b < today)
          then "overdue" else b_status b)
         (b_notes b))
      name title status.
Proof.
  unfold mark_overdue, set_status. cbn [v_row v_id v_reader_name v_book_title
    v_book_status].
  destruct (String.eqb_spec (b_status b) "borrowed") as [Hs|Hs];
    destruct (Z.ltb_spec (b_due_date b) today) as [Hd|Hd]; cbn [andb];
    case_bool_decide as Hc; try (by destruct b); exfalso;
    try (apply Hc; done); destruct Hc; try done; lia.
Qed.

(** X8: what [get_borrows] lists. The database stays as it is - the
    status [overdue] is shown, never stored. The answer is the failure of
    the query or a list that holds exactly one row for each borrow whose
    reader and book are there: the columns of the borrow as they are
    stored, except that the status reads [overdue] exactly when the stored
    status is [borrowed] and the due date is before today, with the
    reader's name and the book's title and status. A borrow whose reader
    or book is missing is not listed. *)
Theorem get_borrows_listing today d sched :
  let out := get_borrows today (mk_world d sched) in
  db out.2 = d
  ∧ (out.1 = (500, ListingFailed)
     ∨ ∃ rows, out.1 = (200, Listing rows)
        ∧ ∀ v, v ∈ rows
               ↔ ∃ id b r bk,
                   borrows d !! id = Some b
                   ∧ readers d !! b_reader_id b = Some r
                   ∧ books d !! b_book_id b = Some bk
                   ∧ v = mk_view id
                           (mk_borrow (b_reader_id b) (b_book_id b)
                              (b_borrow_date b) (b_due_date b)
                              (b_return_date b) (b_renew_count b)
                              (b_fine_amount b)
                              (if bool_decide (b_status b = "borrowed"
                                               ∧ b_due_date b < today)
                               then "overdue" else b_status b)
                              (b_notes b))
                           (r_name r) (bk_title bk) (bk_status bk))
  ∧ (no_faults sched → out.1.1 = 200).
Proof.
  intros out.
  destruct (get_borrows_run today (mk_world d sched)) as (Hd & Hr & Hc).
  fold out in Hd, Hr, Hc. cbn [db pending] in *.
  split; [exact Hd|]. split.
  - destruct Hr as [Hr|Hr]; [by left|right].
    eexists. split; [exact Hr|]. intros v. rewrite list_elem_of_fmap. split.
    + intros (v0 & -> & Hv0). apply elem_of_select_borrow_views in Hv0
        as (id & b & r & bk & ? & ? & ? & ->).
      exists id, b, r, bk. by rewrite mark_overdue_view.
    + intros (id & b & r & bk & ? & ? & ? & ->).
      exists (mk_view id b (r_name r) (bk_title bk) (bk_status bk)).
      split; [by rewrite mark_overdue_view|].
      apply elem_of_select_borrow_views. eauto 10.
  - intros Hs. by rewrite (Hc Hs).
Qed.

(** Borrow 5 of [db5], due on day 738895, listed ten days later: the row
    reads [overdue], the stored record stays [borrowed]. *)
Lemma get_borrows_listing_witness :
  no_faults []
  ∧ ∃ rows,
      (get_borrows 738905 (mk_world db5 [])).1 = (200, Listing rows)
      ∧ mk_view 5 (mk_borrow 1 10 738881 738895 None (Some 0) None
                     "overdue" "") "R" "B" "borrowed" ∈ rows
      ∧ b_status <$> borrows (db (get_borrows 738905 (mk_world db5 [])).2) !! 5
        = Some "borrowed".
Proof.
  assert (Hs : no_faults []) by reflexivity.
  split; [exact Hs|].
  destruct (get_borrows_listing 738905 db5 []) as (Hd & Hr & Hc).
  specialize (Hc Hs).
  destruct Hr as [Hf|(rows & Hr & Hrows)].
  { rewrite Hf in Hc. discriminate Hc. }
  exists rows. split; [exact Hr|]. split.
  - apply Hrows.
    exists 5, (new_borrow 1 10 738881 738895 ""), reader_R, (book_B "borrowed").
    repeat split; reflexivity.
  - rewrite Hd. reflexivity.
Defined.

(** X9: the order of the listing. The rows [get_borrows] answers are in
    strictly descending order of the borrow id: the latest borrow comes
    first and no borrow is listed twice. *)
Theorem get_borrows_sorted today d sched rows :
  (get_borrows today (mk_world d sched)).1 = (200, Listing rows) →
  StronglySorted (λ v1 v2, v_id v2 < v_id v1) rows.
Proof.
  intros Hr.
  destruct (get_borrows_run today (mk_world d sched)) as (_ & [Hf|Hl] & _);
    [congruence|].
  rewrite Hl in Hr. injection Hr as <-. cbn [db].
  apply (StronglySorted_fmap _ (λ v1 v2, v_id v2 < v_id v1));
    [|apply select_borrow_views_sorted].
  intros v1 v2. by rewrite !mark_overdue_id.
Qed.


Lemma get_borrows_sorted_witness :
  ∃ rows,
    (get_borrows 739923 (mk_world db3 [])).1 = (200, Listing rows)
    ∧ v_id <$> rows = [3; 2; 1]
    ∧ StronglySorted (λ v1 v2, v_id v2 < v_id v1) rows.
Proof.
  eexists. split; [vm_compute; reflexivity|]. split; [reflexivity|].
  apply (get_borrows_sorted 739923 db3 []). vm_compute. reflexivity.
Defined.

(** *** The dashboard *)





(** *** Deleting readers and books *)

Lemma execute_query_raising_inv sql w r w' :
  execute_query_raising sql w = (r, w') →
  (r = None ∧ db w' = db w) ∨ (r = Some tt ∧ sql (db w) = Some (db w')).
Proof.
  unfold execute_query_raising, get_db_connection, bind, ret, get_db, put_db.
  destruct (tick w) as [c w1] eqn:E1. apply tick_inv in E1.
  destruct c; cbn [negb]; [|intros [= <- <-]; auto].
  destruct (tick w1) as [ok w2] eqn:E2. apply tick_inv in E2.
  destruct ok; cbn [negb]; [|intros [= <- <-]; left; split; congruence].
  rewrite E2, E1. destruct (sql (db w)) as [d'|] eqn:Hsql;
    [|intros [= <- <-]; left; split; congruence].
  destruct (tick w2) as [cm w3] eqn:E3. apply tick_inv in E3.
  destruct cm; cbn [negb]; intros [= <- <-]; cbn [db]; [by right|].
  left. split; congruence.
Qed.

Lemma execute_query_raising_calm sql w r w' :
  no_faults (pending w) → execute_query_raising sql w = (r, w') →
  match sql (db w) with
  | None => r = None ∧ db w' = db w
  | Some d' => r = Some tt ∧ db w' = d'
  end ∧ no_faults (pending w').
Proof.
  unfold execute_query_raising, get_db_connection, bind, ret, get_db, put_db.
  intros Hw.
  destruct (tick w) as [c w1] eqn:E1.
  destruct (tick_calm _ _ _ Hw E1) as (-> & D1 & H1). cbn [negb].
  destruct (tick w1) as [ok w2] eqn:E2.
  destruct (tick_calm _ _ _ H1 E2) as (-> & D2 & H2). cbn [negb].
  rewrite D2, D1. destruct (sql (db w)) as [d'|];
    [|intros [= <- <-]; repeat split; congruence].
  destruct (tick w2) as [cm w3] eqn:E3.
  destruct (tick_calm _ _ _ H2 E3) as (-> & D3 & H3). cbn [negb].
  intros [= <- <-]. by cbn.
Qed.

Lemma log_catalogue_operation_inv a ty id w l w' :
  log_catalogue_operation a ty id w = (l, w') →
  db w' = db w
  ∧ (l = [] ∨ l = [mk_catalogue_log a ty id])
  ∧ (no_faults (pending w) → l = [mk_catalogue_log a ty id]).
Proof.
  unfold log_catalogue_operation, bind, ret.
  destruct (execute_query_nofetch _ w) as [r w1] eqn:E. intros [= <- <-].
  split; [|split].
  - by destruct (execute_query_nofetch_inv _ _ _ _ E) as [[_ ->]|[_ ->]].
  - destruct r; auto.
  - intros H. by destruct (execute_query_nofetch_calm _ _ _ _ H E) as (-> & _).
Qed.

Lemma select_active_of_reader_nil rid d :
  select_active_of_reader rid d = [] ↔ count_borrowed rid d = 0.
Proof.
  unfold select_active_of_reader, count_borrowed. split.
  - intros Hnil%fmap_nil_inv%map_to_list_empty_iff.
    by rewrite Hnil, map_size_empty.
  - intros Hz. assert (Hs : size (filter (is_active_borrow_of rid) (borrows d))
                            = 0%nat) by lia.
    apply map_size_empty_iff in Hs. by rewrite Hs, map_to_list_empty.
Qed.

Lemma active_on_book_nil bid d :
  select_active_on_book bid d = []
  ↔ ∀ id b, borrows d !! id = Some b → b_status b = "borrowed" →
            b_book_id b ≠ bid.
Proof.
  unfold select_active_on_book. split.
  - intros Hnil%fmap_nil_inv%map_to_list_empty_iff id b Hb Hs Hbk.
    assert (filter (is_active_borrow_on bid) (borrows d) !! id = Some b) as Hf
      by (by apply map_lookup_filter_Some_2).
    by rewrite Hnil, lookup_empty in Hf.
  - intros Hno.
    assert (filter (is_active_borrow_on bid) (borrows d) = ∅) as ->;
      [|by rewrite map_to_list_empty].
    apply map_empty. intros id. apply map_lookup_filter_None_2. right.
    intros b Hb [Hbk Hs]. by apply (Hno id b).
Qed.

Section deleting_properties.

Variable delete_reader_row : Z → database → option database.
Variable delete_book_row : Z → database → option database.

Lemma delete_reader_run id d sched :
  let out := delete_reader delete_reader_row id (mk_world d sched) in
  (out.1.1.1 ≠ 200 → db out.2 = d ∧ out.1.2 = [])
  ∧ (out.1.1.1 = 200 →
     is_Some (readers d !! id) ∧ delete_reader_row id d = Some (db out.2))
  ∧ (no_faults sched →
     match readers d !! id with
     | None => out.1 = (404, TargetNotExist, [])
     | Some _ =>
       if decide (0 < count_borrowed id d)
       then out.1 = (400, HasActiveBorrows, []) ∧ db out.2 = d
       else match delete_reader_row id d with
            | None => out.1 = (500, DeleteFailed, [])
            | Some d' =>
              out.1 = (200, Deleted, [mk_catalogue_log ActDeleteReader "reader" id])
              ∧ db out.2 = d'
            end
     end).
Proof.
  intros out. subst out. unfold delete_reader, bind.
  destruct (execute_query (select_reader id) _) as [r1 w1] eqn:E1.
  destruct (execute_query_inv _ _ _ _ E1) as [D1 H1]. cbn [db] in D1, H1.
  assert (C1 := λ H, execute_query_calm _ (mk_world d sched) _ _ H E1).
  cbn [db pending] in C1. unfold select_reader in *.
  destruct r1 as [[r|]|]; cycle 1.
  { unfold ret. cbn [fst snd]. split; [done|]. split; [done|].
    intros Hs. destruct (C1 Hs) as ([= <-] & _). reflexivity. }
  { unfold ret. cbn [fst snd]. split; [done|]. split; [done|].
    intros Hs. by destruct (C1 Hs) as ([=] & _). }
  assert (Hr : readers d !! id = Some r) by (destruct H1; congruence).
  rewrite Hr.
  destruct (execute_query (select_active_of_reader id) w1) as [r2 w2] eqn:E2.
  destruct (execute_query_inv _ _ _ _ E2) as [D2 H2]. rewrite D1 in D2, H2.
  assert (C2 := λ H, execute_query_calm _ w1 _ _ H E2). rewrite D1 in C2.
  assert (Hguard : ∀ l, r2 = Some l →
            (l = [] ↔ ¬ 0 < count_borrowed id d)).
  { intros l ->. destruct H2 as [|[= ->]]; [done|].
    rewrite select_active_of_reader_nil. unfold count_borrowed. lia. }
  assert (Htail : ∀ out,
    (do result <- execute_query_raising (delete_reader_row id);
     match result with
     | None => ret (500, DeleteFailed, [])
     | Some _ =>
       do logged <- log_catalogue_operation ActDeleteReader "reader" id;
       ret (200, Deleted, logged)
     end) w2 = out →
    (out.1.1.1 ≠ 200 → db out.2 = d ∧ out.1.2 = [])
    ∧ (out.1.1.1 = 200 →
       is_Some (Some r) ∧ delete_reader_row id d = Some (db out.2))
    ∧ (no_faults (pending w2) →
       match delete_reader_row id d with
       | None => out.1 = (500, DeleteFailed, [])
       | Some d' =>
         out.1 = (200, Deleted, [mk_catalogue_log ActDeleteReader "reader" id])
         ∧ db out.2 = d'
       end)).
  { intros out <-. unfold bind.
    destruct (execute_query_raising _ w2) as [r3 w3] eqn:E3.
    destruct (execute_query_raising_inv _ _ _ _ E3) as [[-> D3]|[-> D3]];
      rewrite D2 in D3.
    - unfold ret. cbn [fst snd]. split; [done|]. split; [done|].
      intros Hs. destruct (execute_query_raising_calm _ _ _ _ Hs E3) as [H3 _].
      rewrite D2 in H3. destruct (delete_reader_row id d); [by destruct H3|done].
    - destruct (log_catalogue_operation _ _ _ w3) as [l w4] eqn:E4.
      destruct (log_catalogue_operation_inv _ _ _ _ _ _ E4) as (D4 & H4 & C4).
      unfold ret. cbn [fst snd]. rewrite D4. split; [done|].
      split; [by split; [eauto|]|].
      intros Hs. destruct (execute_query_raising_calm _ _ _ _ Hs E3) as [_ C3].
      rewrite D3. by rewrite (C4 C3). }
  destruct r2 as [[|x l]|].
  - destruct (Htail _ eq_refl) as (T1 & T2 & T3).
    split; [exact T1|]. split; [exact T2|].
    intros Hs. destruct (C1 Hs) as (_ & _ & Hs1).
    destruct (C2 Hs1) as (_ & _ & Hs2).
    rewrite decide_False by (by apply (Hguard [])). by apply T3.
  - unfold ret. cbn [fst snd]. split; [by split; [congruence|]|].
    split; [done|]. intros _.
    rewrite decide_True; [by split; [|congruence]|].
    destruct (decide (0 < count_borrowed id d)) as [|Hn]; [done|].
    by apply (Hguard (x :: l)) in Hn.
  - destruct (Htail _ eq_refl) as (T1 & T2 & T3).
    split; [exact T1|]. split; [exact T2|].
    intros Hs. destruct (C1 Hs) as (_ & _ & Hs1). by destruct (C2 Hs1) as ([=] & _).
Qed.


Lemma delete_book_run bid d sched :
  let out := delete_book delete_book_row bid (mk_world d sched) in
  (out.1.1.1 ≠ 200 → db out.2 = d ∧ out.1.2 = [])
  ∧ (out.1.1.1 = 200 →
     is_Some (books d !! bid) ∧ delete_book_row bid d = Some (db out.2))
  ∧ (no_faults sched → books d !! bid = None →
     out.1 = (404, TargetNotExist, []))
  ∧ (no_faults sched → is_Some (books d !! bid) →
     (∃ id b, borrows d !! id = Some b ∧ b_status b = "borrowed"
              ∧ b_book_id b = bid) →
     out.1 = (400, HasActiveBorrows, []) ∧ db out.2 = d)
  ∧ (no_faults sched → is_Some (books d !! bid) →
     (∀ id b, borrows d !! id = Some b → b_status b = "borrowed" →
              b_book_id b ≠ bid) →
     match delete_book_row bid d with
     | None => out.1 = (500, DeleteFailed, [])
     | Some d' =>
       out.1 = (200, Deleted, [mk_catalogue_log ActDeleteBook "book" bid])
       ∧ db out.2 = d'
     end).
Proof.
  intros out. subst out. unfold delete_book, bind.
  destruct (execute_query (select_book bid) _) as [r1 w1] eqn:E1.
  destruct (execute_query_inv _ _ _ _ E1) as [D1 H1]. cbn [db] in D1, H1.
  assert (C1 := λ H, execute_query_calm _ (mk_world d sched) _ _ H E1).
  cbn [db pending] in C1. unfold select_book in *.
  destruct r1 as [[bk|]|]; cycle 1.
  { unfold ret. cbn [fst snd]. split; [done|]. split; [done|].
    split; [done|]. split.
    - intros Hs [x Hx]. destruct (C1 Hs) as ([= Heq] & _). congruence.
    - intros Hs [x Hx]. destruct (C1 Hs) as ([= Heq] & _). congruence. }
  { unfold ret. cbn [fst snd]. split; [done|]. split; [done|].
    split; [done|]. split; intros Hs; by destruct (C1 Hs) as ([=] & _). }
  assert (Hbk : books d !! bid = Some bk) by (destruct H1; congruence).
  rewrite Hbk.
  destruct (execute_query (select_active_on_book bid) w1) as [r2 w2] eqn:E2.
  destruct (execute_query_inv _ _ _ _ E2) as [D2 H2]. rewrite D1 in D2, H2.
  assert (C2 := λ H, execute_query_calm _ w1 _ _ H E2). rewrite D1 in C2.
  assert (Htail : ∀ out,
    (do result <- execute_query_raising (delete_book_row bid);
     match result with
     | None => ret (500, DeleteFailed, [])
     | Some _ =>
       do logged <- log_catalogue_operation ActDeleteBook "book" bid;
       ret (200, Deleted, logged)
     end) w2 = out →
    (out.1.1.1 ≠ 200 → db out.2 = d ∧ out.1.2 = [])
    ∧ (out.1.1.1 = 200 →
       is_Some (Some bk) ∧ delete_book_row bid d = Some (db out.2))
    ∧ (no_faults (pending w2) →
       match delete_book_row bid d with
       | None => out.1 = (500, DeleteFailed, [])
       | Some d' =>
         out.1 = (200, Deleted, [mk_catalogue_log ActDeleteBook "book" bid])
         ∧ db out.2 = d'
       end)).
  { intros out <-. unfold bind.
    destruct (execute_query_raising _ w2) as [r3 w3] eqn:E3.
    destruct (execute_query_raising_inv _ _ _ _ E3) as [[-> D3]|[-> D3]];
      rewrite D2 in D3.
    - unfold ret. cbn [fst snd]. split; [done|]. split; [done|].
      intros Hs. destruct (execute_query_raising_calm _ _ _ _ Hs E3) as [H3 _].
      rewrite D2 in H3. destruct (delete_book_row bid d); [by destruct H3|done].
    - destruct (log_catalogue_operation _ _ _ w3) as [l w4] eqn:E4.
      destruct (log_catalogue_operation_inv _ _ _ _ _ _ E4) as (D4 & H4 & C4).
      unfold ret. cbn [fst snd]. rewrite D4. split; [done|].
      split; [by split; [eauto|]|].
      intros Hs. destruct (execute_query_raising_calm _ _ _ _ Hs E3) as [_ C3].
      rewrite D3. by rewrite (C4 C3). }
  destruct r2 as [[|x l]|].
  - destruct (Htail _ eq_refl) as (T1 & T2 & T3).
    split; [exact T1|]. split; [exact T2|]. split; [done|].
    assert (Hnil : select_active_on_book bid d = [])
      by (destruct H2 as [|[= <-]]; done).
    split.
    + intros _ _ (id & b & Hb & Hs & Hbid).
      by destruct (proj1 (active_on_book_nil bid d) Hnil id b).
    + intros Hs _ _. destruct (C1 Hs) as (_ & _ & Hs1).
      destruct (C2 Hs1) as (_ & _ & Hs2). by apply T3.
  - unfold ret. cbn [fst snd]. split; [by split; [congruence|]|].
    split; [done|]. split; [done|]. split; [by split; [|congruence]|].
    intros _ _ Hno.
    assert (Hnil : select_active_on_book bid d = [])
      by (by apply active_on_book_nil).
    destruct H2 as [|[= Hx]]; [done|]. congruence.
  - destruct (Htail _ eq_refl) as (T1 & T2 & T3).
    split; [exact T1|]. split; [exact T2|]. split; [done|].
    split; intros Hs; destruct (C1 Hs) as (_ & _ & Hs1);
      by destruct (C2 Hs1) as ([=] & _).
Qed.


(** X13: a reader who holds a loan and a book that is on loan cannot
    be deleted. When the storage does not fail, after an eligible
    [create_borrow] both [delete_reader] for its reader and [delete_book]
    for its book are answered with 400 and delete nothing. *)
Theorem lent_cannot_be_deleted today rid bid borrow_days notes d
    sched sched1 sched2 :
  valid_date today → eligible d rid bid →
  0 < borrow_days → today + borrow_days ≤ date_max →
  no_faults sched → no_faults sched1 → no_faults sched2 →
  let created := create_borrow today (borrow_req rid bid (JInt borrow_days) notes)
                   (mk_world d sched) in
  let reader_out := delete_reader delete_reader_row rid
                      (mk_world (db created.2) sched1) in
  let book_out := delete_book delete_book_row bid
                    (mk_world (db created.2) sched2) in
  created.1 = (201, BorrowCreated (lastrowid (borrows d)))
  ∧ reader_out.1 = (400, HasActiveBorrows, [])
  ∧ db reader_out.2 = db created.2
  ∧ book_out.1 = (400, HasActiveBorrows, [])
  ∧ db book_out.2 = db created.2.
Proof.
  intros Ht He Hn Hmax Hs Hs1 Hs2 created reader_out book_out.
  assert (Hdue : date_add today borrow_days = Some (today + borrow_days)).
  { apply date_add_valid; [done|]. unfold valid_date, date_min in *. lia. }
  pose proof He as He0. apply eligible_canBorrow in He0.
  destruct (create_borrow_calm today rid bid (JInt borrow_days) notes
              borrow_days (today + borrow_days) d sched Hs He0 eq_refl Hdue)
    as [Hr1 Ht1].
  fold created in Hr1, Ht1. split; [exact Hr1|].
  set (row := new_borrow rid bid today (today + borrow_days) (default "" notes))
    in *.
  pose proof Ht1 as (Hrd & Hbk & Hbr).
  cbn [borrowed_db update_book_status insert_borrow readers books borrows]
    in Hrd, Hbk, Hbr.
  destruct He as (r & bk & Hr & _ & Hbook & _ & _ & _).
  assert (Hcount : 0 < count_borrowed rid (db created.2)).
  { rewrite (count_borrowed_same_tables _ _ _ Ht1). unfold borrowed_db.
    rewrite count_borrowed_books, (count_borrowed_insert rid rid) by reflexivity.
    rewrite decide_True by done. unfold count_borrowed. lia. }
  destruct (delete_reader_run rid (db created.2) sched1) as (_ & _ & Hgr).
  fold reader_out in Hgr. specialize (Hgr Hs1).
  rewrite Hrd, Hr, decide_True in Hgr by exact Hcount.
  destruct (delete_book_run bid (db created.2) sched2) as (_ & _ & _ & Hgb & _).
  fold book_out in Hgb.
  assert (Hisb : is_Some (books (db created.2) !! bid)).
  { rewrite Hbk, lookup_alter_eq, Hbook. by eexists. }
  assert (Hact : ∃ id b, borrows (db created.2) !! id = Some b
                         ∧ b_status b = "borrowed" ∧ b_book_id b = bid).
  { exists (lastrowid (borrows d)), row. by rewrite Hbr, lookup_insert_eq. }
  destruct (Hgb Hs2 Hisb Hact) as [? ?]. destruct Hgr as [? ?]. auto.
Qed.

Lemma delete_route_tail_run a ty id (sql : database → option database) d d' rest :
  sql d = Some d' → no_faults rest →
  let out := (do result <- execute_query_raising sql;
              match result with
              | None => ret (500, DeleteFailed, [])
              | Some _ =>
                do logged <- log_catalogue_operation a ty id;
                ret (200, Deleted, logged)
              end) (mk_world d rest) in
  out.1 = (200, Deleted, [mk_catalogue_log a ty id]) ∧ db out.2 = d'.
Proof.
  intros Hsql Hrest out. subst out. unfold bind.
  destruct (execute_query_raising sql _) as [r3 w3] eqn:E3.
  destruct (execute_query_raising_calm _ (mk_world d rest) _ _ Hrest E3)
    as [H3 C3].
  cbn [db] in H3. rewrite Hsql in H3. destruct H3 as [-> D3].
  destruct (log_catalogue_operation _ _ _ w3) as [l w4] eqn:E4.
  destruct (log_catalogue_operation_inv _ _ _ _ _ _ E4) as (D4 & _ & C4).
  unfold ret. cbn [fst snd]. rewrite (C4 C3), D4. by split.
Qed.

(** X14: the guard of a deletion holds only if it can be read. When the
    query for the active borrows fails (and nothing else does),
    [delete_reader] deletes a reader and [delete_book] a book that is
    there, as far as the DELETE itself goes through, whether or not there
    are active borrows. *)
Theorem deletion_guard_skipped_when_query_fails id d sched rest d' :
  guard_query_fails sched rest → no_faults rest →
  (is_Some (readers d !! id) → delete_reader_row id d = Some d' →
   let out := delete_reader delete_reader_row id (mk_world d sched) in
   out.1 = (200, Deleted, [mk_catalogue_log ActDeleteReader "reader" id])
   ∧ db out.2 = d')
  ∧ (is_Some (books d !! id) → delete_book_row id d = Some d' →
     let out := delete_book delete_book_row id (mk_world d sched) in
     out.1 = (200, Deleted, [mk_catalogue_log ActDeleteBook "book" id])
     ∧ db out.2 = d').
Proof.
  intros Hsched Hrest. split.
  - intros [r Hr] Hsql out.
    assert (Heq : delete_reader delete_reader_row id (mk_world d sched)
                  = (do result <- execute_query_raising (delete_reader_row id);
                     match result with
                     | None => ret (500, DeleteFailed, [])
                     | Some _ =>
                       do logged <- log_catalogue_operation ActDeleteReader
                                      "reader" id;
                       ret (200, Deleted, logged)
                     end) (mk_world d rest)).
    { unfold delete_reader. unfold bind at 1.
      destruct Hsched as [-> | ->]; cbn [app];
        rewrite execute_query_ok; unfold select_reader; rewrite Hr;
        unfold bind at 1;
        [rewrite execute_query_no_connection|rewrite execute_query_no_result];
        reflexivity. }
    subst out. rewrite Heq.
    exact (delete_route_tail_run ActDeleteReader "reader" id
             (delete_reader_row id) d d' rest Hsql Hrest).
  - intros [bk Hbk] Hsql out.
    assert (Heq : delete_book delete_book_row id (mk_world d sched)
                  = (do result <- execute_query_raising (delete_book_row id);
                     match result with
                     | None => ret (500, DeleteFailed, [])
                     | Some _ =>
                       do logged <- log_catalogue_operation ActDeleteBook
                                      "book" id;
                       ret (200, Deleted, logged)
                     end) (mk_world d rest)).
    { unfold delete_book. unfold bind at 1.
      destruct Hsched as [-> | ->]; cbn [app];
        rewrite execute_query_ok; unfold select_book; rewrite Hbk;
        unfold bind at 1;
        [rewrite execute_query_no_connection|rewrite execute_query_no_result];
        reflexivity. }
    subst out. rewrite Heq.
    exact (delete_route_tail_run ActDeleteBook "book" id
             (delete_book_row id) d d' rest Hsql Hrest).
Qed.

End deleting_properties.



Lemma lent_cannot_be_deleted_witness :
  valid_date 739923 ∧ eligible db0 1 10 ∧ 0 < 14 ∧ 739923 + 14 ≤ date_max
  ∧ no_faults []
  ∧ let created := create_borrow 739923 (borrow_req 1 10 (JInt 14) None)
                     (mk_world db0 []) in
    let reader_out := delete_reader drop_reader 1 (mk_world (db created.2) []) in
    let book_out := delete_book drop_book 10 (mk_world (db created.2) []) in
    created.1 = (201, BorrowCreated 1)
    ∧ reader_out.1 = (400, HasActiveBorrows, [])
    ∧ db reader_out.2 = db created.2
    ∧ book_out.1 = (400, HasActiveBorrows, [])
    ∧ db book_out.2 = db created.2.
Proof.
  assert (Hv : valid_date 739923)
    by (unfold valid_date, date_min, date_max; lia).
  assert (He : eligible db0 1 10)
    by (exists reader_R, (book_B "available"); vm_compute;
        repeat split; congruence).
  assert (Hn : 0 < 14) by lia.
  assert (Hm : 739923 + 14 ≤ date_max) by (unfold date_max; lia).
  assert (Hs : no_faults []) by reflexivity.
  repeat (split; [assumption|]).
  exact (lent_cannot_be_deleted drop_reader drop_book 739923 1 10 14 None db0
           [] [] [] Hv He Hn Hm Hs Hs Hs).
Defined.

Lemma deletion_guard_skipped_when_query_fails_witness :
  guard_query_fails [true; true; false] [] ∧ no_faults []
  ∧ is_Some (readers db5 !! 1)
  ∧ 0 < count_borrowed 1 db5
  ∧ let out := delete_reader drop_reader 1 (mk_world db5 [true; true; false]) in
    out.1 = (200, Deleted, [mk_catalogue_log ActDeleteReader "reader" 1])
    ∧ readers (db out.2) !! 1 = None.
Proof.
  assert (Hg : guard_query_fails [true; true; false] []) by (by left).
  assert (Hs : no_faults []) by reflexivity.
  assert (Hr : is_Some (readers db5 !! 1)) by (by eexists).
  assert (Hc : 0 < count_borrowed 1 db5) by (vm_compute; reflexivity).
  repeat (split; [assumption|]).
  destruct (proj1 (deletion_guard_skipped_when_query_fails drop_reader drop_book
                     1 db5 _ [] _ Hg Hs) Hr eq_refl) as [H1 H2].
  cbv zeta. split; [exact H1|]. rewrite H2. reflexivity.
Defined.

(** *** A renewal that is not stored *)

Lemma execute_query_nofetch_no_connection sql d sched :
  execute_query_nofetch sql (mk_world d (false :: sched))
  = (None, mk_world d sched).
Proof. reflexivity. Qed.

Lemma execute_query_nofetch_no_result sql d sched :
  execute_query_nofetch sql (mk_world d (true :: false :: sched))
  = (None, mk_world d sched).
Proof. reflexivity. Qed.

(** X21: [renew_book] does not look at the result of its UPDATE. When the
    UPDATE fails (on its connection or on its statement) after the borrow
    was read, a renewal that passes the checks is still answered with 200
    and the new due date, while the borrow, its due date and its
    [renew_count] are as before; and when the audit log can be written, it
    records the renewal that did not take place. *)
Theorem renew_book_ignores_failed_update id extend_days b n d sched rest :
  1 ≤ extend_days ≤ 90 →
  select_borrowed id d = Some b → b_renew_count b = Some n → n < 2 →
  valid_date (b_due_date b) → b_due_date b + extend_days ≤ date_max →
  write_fails_after_read sched rest →
  let out := renew_book id (Some (JInt extend_days)) (mk_world d sched) in
  out.1 = (200, BookRenewed (b_due_date b + extend_days) extend_days)
  ∧ same_tables d (db out.2)
  ∧ borrows (db out.2) !! id = Some b
  ∧ (no_faults rest →
     system_logs (db out.2)
     = (system_logs d ++ [mk_log ActRenewBook "borrow" id])%list).
Proof.
  intros Hdays Hb Hn Hlt Hv Hmax Hsched out.
  assert (Hdue : date_add (b_due_date b) extend_days
                 = Some (b_due_date b + extend_days)).
  { apply date_add_valid; [done|]. unfold valid_date, date_min in *. lia. }
  assert (Hl : borrows d !! id = Some b).
  { unfold select_borrowed in Hb.
    destruct (borrows d !! id) as [b0|]; [|done]. by case_decide; simplify_eq. }
  assert (Hlog : ∀ w, db w = d → pending w = rest →
    let res := (run log_operation ActRenewBook "borrow" id;
                ret (200, BookRenewed (b_due_date b + extend_days) extend_days))
               w in
    res.1 = (200, BookRenewed (b_due_date b + extend_days) extend_days)
    ∧ same_tables d (db res.2)
    ∧ borrows (db res.2) !! id = Some b
    ∧ (no_faults rest →
       system_logs (db res.2)
       = (system_logs d ++ [mk_log ActRenewBook "borrow" id])%list)).
  { intros w Hd Hp. unfold bind, ret.
    destruct (log_operation ActRenewBook "borrow" id w) as [u w'] eqn:E.
    cbn [fst snd].
    pose proof (log_operation_inv _ _ _ _ _ _ E) as Hsame.
    destruct (log_operation_spec _ _ _ _ _ _ E) as [_ Hcalm].
    rewrite Hd in *. split; [done|]. split; [done|]. split.
    - destruct Hsame as (_ & _ & ->). done.
    - intros Hrest. apply Hcalm. by rewrite Hp. }
  subst out. unfold renew_book, bind. cbv zeta.
  change (default (JInt 30) (Some (JInt extend_days))) with (JInt extend_days).
  cbn [isinstance_int].
  destruct (Z.ltb_spec extend_days 1); [lia|].
  destruct (Z.ltb_spec 90 extend_days); [lia|]. cbn [orb].
  destruct Hsched as [-> | ->]; cbn [app];
    rewrite execute_query_ok, Hb, Hn;
    (destruct (Z.leb_spec 2 n); [lia|]); rewrite Hdue;
    [rewrite execute_query_nofetch_no_connection
    |rewrite execute_query_nofetch_no_result]; by apply Hlog.
Qed.

(** Borrow 5 of [db5]: the renewal is answered with the new due date, day
    738925, and the borrow is still due on day 738895. *)
Lemma renew_book_ignores_failed_update_witness :
  select_borrowed 5 db5 = Some (new_borrow 1 10 738881 738895 "")
  ∧ write_fails_after_read [true; true; false] []
  ∧ let out := renew_book 5 (Some (JInt 30))
                 (mk_world db5 [true; true; false]) in
    out.1 = (200, BookRenewed 738925 30)
    ∧ b_due_date <$> borrows (db out.2) !! 5 = Some 738895
    ∧ b_renew_count <$> borrows (db out.2) !! 5 = Some (Some 0).
Proof.
  assert (Hb : select_borrowed 5 db5 = Some (new_borrow 1 10 738881 738895 ""))
    by reflexivity.
  assert (Hs : write_fails_after_read [true; true; false] [])
    by (left; reflexivity).
  split; [exact Hb|]. split; [exact Hs|].
  destruct (renew_book_ignores_failed_update 5 30
              (new_borrow 1 10 738881 738895 "") 0 db5
              [true; true; false] [] ltac:(lia) Hb eq_refl ltac:(lia)
              ltac:(unfold valid_date, date_min, date_max; simpl; lia)
              ltac:(unfold date_max; simpl; lia) Hs)
    as (Hr & _ & Hl & _).
  cbv zeta. split; [exact Hr|]. rewrite Hl. split; reflexivity.
Defined.

(** ** Running an SQL script *)

Lemma str_split_nosep sep s piece :
  piece ∈ str_split sep s → sep ∉ piece.
Proof.
  revert piece. induction s as [|c s IH]; intros piece Hin; cbn in Hin.
  - apply list_elem_of_singleton in Hin as ->. apply not_elem_of_nil.
  - destruct (N.eqb_spec c sep) as [->|Hc].
    + apply elem_of_cons in Hin as [->|Hin]; [apply not_elem_of_nil|auto].
    + destruct (str_split sep s) as [|p ps] eqn:Hs.
      * apply list_elem_of_singleton in Hin as ->.
        intros [?|[]%not_elem_of_nil]%elem_of_cons. congruence.
      * apply elem_of_cons in Hin as [->|Hin].
        -- intros [?|Hp]%elem_of_cons; [congruence|].
           apply (IH p); [left|done].
        -- apply IH. by right.
Qed.

Lemma str_split_whole sep seg :
  sep ∉ seg → str_split sep seg = [seg].
Proof.
  induction seg as [|c seg IH]; intros Hsep; [done|].
  apply not_elem_of_cons in Hsep as [Hc Hsep]. cbn.
  destruct (N.eqb_spec c sep) as [->|_]; [done|]. by rewrite IH.
Qed.

Lemma str_split_app sep seg rest :
  sep ∉ seg →
  str_split sep (seg ++ sep :: rest)%list = seg :: str_split sep rest.
Proof.
  induction seg as [|c seg IH]; intros Hsep; cbn.
  - by rewrite N.eqb_refl.
  - apply not_elem_of_cons in Hsep as [Hc Hsep].
    destruct (N.eqb_spec c sep) as [->|_]; [done|]. by rewrite IH.
Qed.

Lemma str_lstrip_suffix s : str_lstrip s `suffix_of` s.
Proof.
  induction s as [|c s IH]; cbn; [done|].
  destruct (isspace c); [by apply suffix_cons_r|done].
Qed.

Lemma str_lstrip_head s c t : str_lstrip s = c :: t → isspace c = false.
Proof.
  induction s as [|c' s IH]; cbn; [done|].
  destruct (isspace c') eqn:Hc; [done|]. by intros [= <- _].
Qed.

Lemma str_lstrip_elem c s : c ∈ str_lstrip s → c ∈ s.
Proof.
  destruct (str_lstrip_suffix s) as [k Hk]. intros Hin.
  rewrite Hk. apply elem_of_app. by right.
Qed.

Lemma str_strip_elem c s : c ∈ str_strip s → c ∈ s.
Proof.
  unfold str_strip. rewrite elem_of_reverse.
  intros Hin%str_lstrip_elem. rewrite elem_of_reverse in Hin.
  by apply str_lstrip_elem.
Qed.

Lemma str_strip_last s front c :
  str_strip s = (front ++ [c])%list → isspace c = false.
Proof.
  unfold str_strip. intros Hs.
  apply (f_equal (@reverse N)) in Hs.
  rewrite reverse_involutive, reverse_snoc in Hs.
  by apply str_lstrip_head in Hs.
Qed.

Lemma str_strip_head s c t : str_strip s = c :: t → isspace c = false.
Proof.
  unfold str_strip. intros Hs.
  apply (f_equal (@reverse N)) in Hs. rewrite reverse_involutive, reverse_cons in Hs.
  destruct (str_lstrip_suffix (reverse (str_lstrip s))) as [k Hk].
  rewrite Hs in Hk.
  apply (f_equal (@reverse N)) in Hk.
  rewrite reverse_involutive, !reverse_app, reverse_involutive, reverse_singleton in Hk. cbn in Hk.
  by apply str_lstrip_head in Hk.
Qed.

Lemma elem_of_script_statements statement sql_content :
  statement ∈ script_statements sql_content →
  statement ≠ []
  ∧ ∃ piece, piece ∈ str_split semicolon sql_content
             ∧ statement = str_strip piece.
Proof.
  unfold script_statements. intros (piece & Hin & Hp)%list_elem_of_omap.
  destruct (str_strip piece) as [|c t] eqn:Hs; [done|].
  cbn in Hp. injection Hp as <-. split; [done|]. by exists piece.
Qed.

Lemma script_statements_app seg rest :
  semicolon ∉ seg →
  script_statements (seg ++ semicolon :: rest)%list
  = (script_statements seg ++ script_statements rest)%list.
Proof.
  intros Hseg. unfold script_statements.
  rewrite str_split_app, (str_split_whole _ seg) by done. cbn.
  by destruct (str_bool (str_strip seg)).
Qed.

Lemma print_all_printed stdout :
  all_printed stdout →
  ∃ stdout', print stdout = (Printed, stdout') ∧ all_printed stdout'.
Proof.
  intros Hall. destruct stdout as [|outcome stdout'].
  - by exists [].
  - apply Forall_cons in Hall as [-> Hall]. by exists stdout'.
Qed.

Lemma report_failure_exit stdout : (report_failure stdout).1 ≠ Finished.
Proof.
  unfold report_failure.
  destruct (print stdout) as [[|m1] stdout1]; [|done].
  by destruct (print stdout1) as [[|m2] stdout2].
Qed.

Lemma report_failure_printed stdout :
  all_printed stdout →
  ∃ stdout', report_failure stdout = (ReturnedFalse, stdout')
             ∧ all_printed stdout'.
Proof.
  intros Hall. unfold report_failure.
  destruct (print_all_printed _ Hall) as (stdout1 & -> & Hall1).
  destruct (print_all_printed _ Hall1) as (stdout2 & -> & Hall2).
  by exists stdout2.
Qed.

(** The loop sends the statements that are not skipped, in order, up to
    the one it stops at. *)
Lemma execute_statements_sent statements answers stdout :
  ∃ sent,
    (execute_statements statements answers stdout).1.2 = map Execute sent
    ∧ sent `prefix_of`
        filter (fun statement => skipped statement = false) statements
    ∧ ((execute_statements statements answers stdout).1.1 = Finished →
       sent = filter (fun statement => skipped statement = false) statements)
    ∧ ((execute_statements statements answers stdout).1.1 ≠ Finished →
       sent ≠ []).
Proof.
  revert answers stdout.
  induction statements as [|s ss IH]; intros answers stdout.
  - exists []. cbn. by repeat split.
  - cbn [execute_statements].
    destruct (skipped s) eqn:Hs.
    + destruct (IH answers stdout) as (sent & ? & ? & ? & ?).
      exists sent. rewrite filter_cons_False by congruence. done.
    + rewrite filter_cons_True by done.
      set (P := λ out : loop_exit * list sql_call * list print_result,
        ∃ sent, out.1.2 = map Execute sent
          ∧ sent `prefix_of`
              s :: filter (fun statement => skipped statement = false) ss
          ∧ (out.1.1 = Finished →
             sent = s :: filter (fun statement => skipped statement = false) ss)
          ∧ (out.1.1 ≠ Finished → sent ≠ [])).
      assert (∀ answers' stdout',
        P (let '(exit, calls, stdout_left) :=
             execute_statements ss answers' stdout' in
           (exit, Execute s :: calls, stdout_left))) as Hcont.
      { intros answers' stdout'.
        destruct (IH answers' stdout') as (sent & H1 & H2 & H3 & H4).
        destruct (execute_statements ss answers' stdout')
          as [[exit calls] left].
        cbn in *. exists (s :: sent). subst calls. split; [done|].
        split; [by apply prefix_cons|]. split; [|done].
        intros Hfin. by rewrite H3. }
      assert (∀ exit left, exit ≠ Finished →
        P (exit, [Execute s], left)) as Hstop.
      { intros exit left Hexit. exists [s]. cbn. split; [done|].
        split; [apply prefix_cons, prefix_nil|]. by split. }
      assert (∀ message answers' stdout',
        P (if tolerated message
           then match print stdout' with
                | (Printed, stdout1) =>
                  let '(exit, calls, stdout_left) :=
                    execute_statements ss answers' stdout1 in
                  (exit, Execute s :: calls, stdout_left)
                | (PrintRaised _, stdout1) => (LoopRaised, [Execute s], stdout1)
                end
           else let '(exit, stdout1) := report_failure stdout' in
                (exit, [Execute s], stdout1))) as Hhandler.
      { intros message answers' stdout'. destruct (tolerated message).
        - destruct (print stdout') as [[|m1] stdout1];
            [apply Hcont|by apply Hstop].
        - pose proof (report_failure_exit stdout') as Hexit.
          destruct (report_failure stdout') as [exit stdout1].
          by apply Hstop. }
      cbv zeta.
      destruct answers as [|[|message] answers'].
      * destruct (print stdout) as [[|m1] stdout1];
          [apply Hcont|apply Hhandler].
      * destruct (print stdout) as [[|m1] stdout1];
          [apply Hcont|apply Hhandler].
      * apply Hhandler.
Qed.

(** With every line printed the loop never raises. *)
Lemma execute_statements_printed statements answers stdout :
  all_printed stdout →
  (execute_statements statements answers stdout).1.1 ≠ LoopRaised
  ∧ all_printed (execute_statements statements answers stdout).2.
Proof.
  revert answers stdout.
  induction statements as [|s ss IH]; intros answers stdout Hall.
  - done.
  - cbn [execute_statements]. destruct (skipped s); [by apply IH|].
    assert (∀ answers' stdout', all_printed stdout' →
      let out := let '(exit, calls, stdout_left) :=
                   execute_statements ss answers' stdout' in
                 (exit, Execute s :: calls, stdout_left) in
      out.1.1 ≠ LoopRaised ∧ all_printed out.2) as Hcont.
    { intros answers' stdout' Hall'.
      destruct (IH answers' stdout' Hall') as [H1 H2].
      by destruct (execute_statements ss answers' stdout') as [[exit calls] left]. }
    cbv zeta.
    destruct (print_all_printed _ Hall) as (stdout1 & Hp & Hall1).
    destruct answers as [|[|message] answers'].
    + rewrite Hp. by apply Hcont.
    + rewrite Hp. by apply Hcont.
    + destruct (tolerated message).
      * rewrite Hp. by apply Hcont.
      * destruct (report_failure_printed _ Hall) as (stdout2 & -> & Hall2).
        done.
Qed.

Lemma execute_statements_tolerant statements answers stdout :
  all_tolerated answers → all_printed stdout →
  ∃ left,
    execute_statements statements answers stdout
    = (Finished,
       map Execute
         (filter (fun statement => skipped statement = false) statements),
       left)
    ∧ all_printed left.
Proof.
  revert answers stdout.
  induction statements as [|s ss IH]; intros answers stdout Hall Hout.
  - by exists stdout.
  - cbn [execute_statements]. destruct (skipped s) eqn:Hs.
    + rewrite filter_cons_False by congruence. by apply IH.
    + rewrite filter_cons_True by done. cbv zeta.
      destruct (print_all_printed _ Hout) as (stdout1 & Hp & Hout1).
      destruct answers as [|[|message] answers'].
      * rewrite Hp. destruct (IH [] stdout1 Hall Hout1) as (left & -> & ?).
        by exists left.
      * apply Forall_cons in Hall as [_ Hall]. rewrite Hp.
        destruct (IH answers' stdout1 Hall Hout1) as (left & -> & ?).
        by exists left.
      * apply Forall_cons in Hall as [-> Hall]. rewrite Hp.
        destruct (IH answers' stdout1 Hall Hout1) as (left & -> & ?).
        by exists left.
Qed.

(** The loop stops at the first exception it does not tolerate, if not
    before. *)
Lemma execute_statements_stops statements k message answers' stdout
    front failing :
  tolerated message = false →
  take (S k) (filter (fun statement => skipped statement = false) statements)
  = (front ++ [failing])%list →
  length front = k →
  let out := execute_statements statements
               (replicate k Executed ++ Raised message :: answers')%list
               stdout in
  out.1.1 ≠ Finished
  ∧ (∃ sent, sent ≠ [] ∧ sent `prefix_of` (front ++ [failing])%list
             ∧ out.1.2 = map Execute sent)
  ∧ (all_printed stdout →
     out.1 = (ReturnedFalse, map Execute (front ++ [failing])%list)).
Proof.
  intros Hm. revert k front stdout.
  induction statements as [|s ss IH]; intros k front stdout Htake Hlen.
  - cbn in Htake. by destruct front.
  - cbn [execute_statements]. destruct (skipped s) eqn:Hs.
    + rewrite filter_cons_False in Htake by congruence. by apply IH.
    + rewrite filter_cons_True in Htake by done. cbv zeta.
      destruct k as [|k].
      * destruct front; [|done]. cbn in Htake. injection Htake as <-.
        cbn [replicate app]. rewrite Hm.
        pose proof (report_failure_exit stdout) as Hexit.
        pose proof (report_failure_printed stdout) as Hprinted.
        destruct (report_failure stdout) as [exit stdout1]. cbn in *.
        split; [done|]. split.
        -- exists [s]. by repeat split.
        -- intros Hall. destruct (Hprinted Hall) as (? & [= -> _] & _). done.
      * destruct front as [|f front]; [done|].
        cbn in Htake, Hlen. injection Htake as <- Htake.
        assert (length front = k) as Hlen' by lia.
        cbn [replicate app].
        assert (∀ stdout',
          let out := let '(exit, calls, stdout_left) :=
                       execute_statements ss
                         (replicate k Executed ++ Raised message :: answers')%list
                         stdout' in
                     (exit, Execute s :: calls, stdout_left) in
          out.1.1 ≠ Finished
          ∧ (∃ sent, sent ≠ []
               ∧ sent `prefix_of` (s :: front ++ [failing])%list
               ∧ out.1.2 = map Execute sent)
          ∧ (all_printed stdout' →
             out.1 = (ReturnedFalse,
                      map Execute (s :: front ++ [failing])%list))) as Hcont.
        { intros stdout'.
          destruct (IH k front stdout' Htake Hlen')
            as (H1 & (sent & H2 & H3 & H4) & H5).
          destruct (execute_statements ss _ stdout') as [[exit calls] left].
          cbn in *. split; [done|]. split.
          - exists (s :: sent). subst calls.
            split; [done|]. split; [by apply prefix_cons|done].
          - intros Hall. specialize (H5 Hall). by injection H5 as -> ->. }
        assert (∀ exit (left : list print_result), exit ≠ Finished →
          (exit, [Execute s], left).1.1 ≠ Finished
          ∧ ∃ sent, sent ≠ []
              ∧ sent `prefix_of` (s :: front ++ [failing])%list
              ∧ (exit, [Execute s], left).1.2 = map Execute sent) as Hstop.
        { intros exit left Hexit. split; [done|]. exists [s].
          split; [done|]. split; [apply prefix_cons, prefix_nil|done]. }
        destruct (print stdout) as [[|m1] stdout1] eqn:Hp.
        -- destruct (Hcont stdout1) as (H1 & H2 & H3).
           split; [done|]. split; [done|]. intros Hall. apply H3.
           destruct (print_all_printed _ Hall) as (? & Hp' & ?). congruence.
        -- assert (¬ all_printed stdout) as Hnot.
           { intros Hall. destruct (print_all_printed _ Hall) as (? & Hp' & _).
             congruence. }
           destruct (tolerated m1).
           ++ destruct (print stdout1) as [[|m2] stdout2].
              ** destruct (Hcont stdout2) as (H1 & H2 & _).
                 split; [done|]. split; [done|]. by intros ?%Hnot.
              ** destruct (Hstop LoopRaised stdout2) as [H1 H2]; [done|].
                 split; [done|]. split; [done|]. by intros ?%Hnot.
           ++ pose proof (report_failure_exit stdout1) as Hexit.
              destruct (report_failure stdout1) as [exit stdout2].
              destruct (Hstop exit stdout2 Hexit) as [H1 H2].
              split; [done|]. split; [done|]. by intros ?%Hnot.
Qed.

(** With a standard output that takes no line, the loop is left by an
    exception at its first statement. *)
Lemma execute_statements_refused statements answers first others m1 m2 rest :
  filter (fun statement => skipped statement = false) statements
  = first :: others →
  tolerated m1 = false →
  ∃ left,
    execute_statements statements answers
      (PrintRaised m1 :: PrintRaised m2 :: rest)
    = (LoopRaised, [Execute first], left)
    ∧ (left = PrintRaised m2 :: rest ∨ left = rest).
Proof.
  intros Hrun Hm.
  induction statements as [|s ss IH]; [done|].
  cbn [execute_statements]. destruct (skipped s) eqn:Hs.
  - rewrite filter_cons_False in Hrun by congruence. by apply IH.
  - rewrite filter_cons_True in Hrun by done. injection Hrun as -> _.
    cbv zeta. unfold report_failure. cbn [print].
    destruct answers as [|[|message] answers'].
    + rewrite Hm. eauto.
    + rewrite Hm. eauto.
    + destruct (tolerated message); eauto.
Qed.

Lemma handle_failure_calls srv calls stdout :
  (handle_failure srv calls stdout).1 ≠ Some true
  ∧ ((handle_failure srv calls stdout).2 = calls
     ∨ (handle_failure srv calls stdout).2 = (calls ++ [Rollback])%list)
  ∧ (all_printed stdout →
     (handle_failure srv calls stdout).2 = (calls ++ [Rollback])%list
     ∧ ((handle_failure srv calls stdout).1 = None →
        rollback_succeeds srv = false)).
Proof.
  unfold handle_failure.
  destruct (print stdout) as [[|m] stdout1] eqn:Hp; cbn.
  - split; [by destruct (rollback_succeeds srv)|]. split; [by right|].
    intros _. split; [done|]. by destruct (rollback_succeeds srv).
  - split; [done|]. split; [by left|].
    intros Hall. destruct (print_all_printed _ Hall) as (? & Hp' & _).
    congruence.
Qed.

(** The calls of the script: the statements it sends, then at most one
    commit and at most one rollback. *)
Lemma execute_sql_script_calls srv sql_content :
  ∃ sent tail,
    (execute_sql_script srv sql_content).2 = (map Execute sent ++ tail)%list
    ∧ sent `prefix_of` runnable sql_content
    ∧ (tail = [] ∨ tail = [Rollback]
       ∨ (sent = runnable sql_content
          ∧ (tail = [Commit] ∨ tail = [Commit; Rollback]))).
Proof.
  unfold execute_sql_script, runnable.
  destruct (cursor_opens srv).
  - destruct (execute_statements_sent (script_statements sql_content)
                (answers srv) (prints srv)) as (sent & Hcalls & Hpre & Hfin & _).
    destruct (execute_statements (script_statements sql_content)
                (answers srv) (prints srv)) as [[exit calls] stdout].
    cbn [fst snd] in Hcalls, Hfin. subst calls. exists sent.
    assert (∀ stdout',
      sent = filter (λ statement, skipped statement = false)
               (script_statements sql_content) →
      ∃ tail,
        (handle_failure srv (map Execute sent ++ [Commit])%list stdout').2
        = (map Execute sent ++ tail)%list
        ∧ sent `prefix_of` filter (λ statement, skipped statement = false)
                             (script_statements sql_content)
        ∧ (tail = [] ∨ tail = [Rollback]
           ∨ (sent = filter (λ statement, skipped statement = false)
                       (script_statements sql_content)
              ∧ (tail = [Commit] ∨ tail = [Commit; Rollback])))) as Hcommit.
    { intros stdout' Hsent.
      destruct (handle_failure_calls srv (map Execute sent ++ [Commit])%list
                  stdout') as (_ & [Hc|Hc] & _); rewrite Hc.
      - exists [Commit]. split; [done|]. split; [done|]. right. right. auto.
      - exists [Commit; Rollback]. rewrite <- app_assoc.
        split; [done|]. split; [done|]. right. right. auto. }
    destruct exit.
    + specialize (Hfin eq_refl).
      destruct (commit_succeeds srv); [|by apply Hcommit].
      destruct (print stdout) as [[|m] stdout1]; [|by apply Hcommit].
      exists [Commit]. cbn [snd].
      split; [done|]. split; [done|]. right. right. auto.
    + exists []. cbn [snd]. rewrite app_nil_r. auto.
    + destruct (handle_failure_calls srv (map Execute sent) stdout)
        as (_ & [Hc|Hc] & _); rewrite Hc.
      * exists []. rewrite app_nil_r. auto.
      * exists [Rollback]. auto.
  - exists [].
    destruct (handle_failure_calls srv [] (prints srv))
      as (_ & [Hc|Hc] & _); rewrite Hc.
    + exists []. split; [done|]. split; [apply prefix_nil|auto].
    + exists [Rollback]. split; [done|]. split; [apply prefix_nil|auto].
Qed.

Lemma Execute_in_calls statement sent tail :
  Execute statement ∈ (map Execute sent ++ tail)%list →
  (tail = [] ∨ tail = [Rollback] ∨ tail = [Commit]
   ∨ tail = [Commit; Rollback]) →
  statement ∈ sent.
Proof.
  intros [Hin|Hin]%elem_of_app Htail.
  - by apply list_elem_of_fmap in Hin as (s & [= ->] & ?).
  - exfalso. destruct Htail as [->|[->|[->| ->]]];
      repeat (apply elem_of_cons in Hin as [[=]|Hin]);
      by apply not_elem_of_nil in Hin.
Qed.

(** X15: what reaches the server. Every statement the script executes is
    a piece of the script between two semicolons with the white space at
    its ends removed: it is not empty, holds no semicolon, neither begins
    nor ends with white space and does not begin with [--]. *)
Theorem script_statements_sent srv sql_content statement :
  Execute statement ∈ (execute_sql_script srv sql_content).2 →
  statement ≠ []
  ∧ (semicolon ∉ statement)
  ∧ (∀ c rest, statement = c :: rest → isspace c = false)
  ∧ (∀ front c, statement = (front ++ [c])%list → isspace c = false)
  ∧ str_startswith (codes "--") statement = false
  ∧ ∃ piece, piece ∈ str_split semicolon sql_content
             ∧ statement = str_strip piece.
Proof.
  intros Hin.
  assert (statement ∈ runnable sql_content) as Hrun.
  { destruct (execute_sql_script_calls srv sql_content)
      as (sent & tail & Hcalls & [k Hpre] & Htail).
    rewrite Hcalls in Hin. rewrite Hpre. apply elem_of_app. left.
    apply (Execute_in_calls _ _ tail Hin).
    destruct Htail as [?|[?|[_ [?|?]]]]; auto. }
  unfold runnable in Hrun.
  apply list_elem_of_filter in Hrun as [Hskip Hin'].
  apply elem_of_script_statements in Hin' as [Hne (piece & Hpiece & ->)].
  split; [done|].
  split.
  { intros Hsemi%str_strip_elem. by apply (str_split_nosep _ _ _ Hpiece). }
  split; [intros c rest; apply str_strip_head|].
  split; [intros front c; apply str_strip_last|].
  split; [|by exists piece].
  unfold skipped in Hskip. by apply orb_false_iff in Hskip as [? _].
Qed.

Lemma script_statements_sent_witness :
  let srv := mk_sql_server true [] [] true true in
  let sql := codes "-- books; CREATE TABLE books (id INT) ;" in
  Execute (codes "CREATE TABLE books (id INT)")
    ∈ (execute_sql_script srv sql).2
  ∧ codes "CREATE TABLE books (id INT)" ≠ []
  ∧ (semicolon ∉ codes "CREATE TABLE books (id INT)").
Proof.
  assert (Execute (codes "CREATE TABLE books (id INT)")
          ∈ (execute_sql_script (mk_sql_server true [] [] true true)
               (codes "-- books; CREATE TABLE books (id INT) ;")).2) as Hin.
  { vm_compute. left. }
  split; [exact Hin|].
  destruct (script_statements_sent _ _ _ Hin) as (H1 & H2 & _).
  split; [exact H1|exact H2].
Defined.

(** X16: commit and rollback. The script returns [True] only after it has
    sent every statement that is not skipped, in order, and committed; it
    commits only after the loop has run to its end; after a rollback it
    never returns [True]. As long as every line is printed, it rolls back
    only when the cursor could not be opened or the commit failed, never
    after a statement's error, and only a failing rollback lets an
    exception out of the function. *)
Theorem script_commit_and_rollback srv sql_content :
  let out := execute_sql_script srv sql_content in
  (out.1 = Some true →
   commit_succeeds srv = true
   ∧ out.2 = (map Execute (runnable sql_content) ++ [Commit])%list)
  ∧ (Commit ∈ out.2 →
     ∃ after, out.2 = (map Execute (runnable sql_content)
                       ++ Commit :: after)%list)
  ∧ (Rollback ∈ out.2 → out.1 ≠ Some true)
  ∧ (all_printed (prints srv) →
     (Rollback ∈ out.2 →
      cursor_opens srv = false ∨ commit_succeeds srv = false)
     ∧ (out.1 = None → rollback_succeeds srv = false)).
Proof.
  cbv zeta.
  assert (∀ l : list pystr, Commit ∉ map Execute l) as Hnc.
  { intros l (s & [=] & _)%list_elem_of_fmap. }
  assert (∀ l : list pystr, Rollback ∉ map Execute l) as Hnr.
  { intros l (s & [=] & _)%list_elem_of_fmap. }
  assert (∀ l : list pystr, Rollback ∉ (map Execute l ++ [Commit])%list)
    as Hnrc.
  { intros l [Hin|Hin]%elem_of_app; [by apply Hnr in Hin|].
    by apply list_elem_of_singleton in Hin. }
  assert (∀ (l : list pystr) tail,
    Commit ∈ (map Execute l ++ tail)%list → Commit ∈ tail) as Hct.
  { intros l tail [Hin|Hin]%elem_of_app; [by apply Hnc in Hin|done]. }
  unfold execute_sql_script, runnable.
  destruct (cursor_opens srv).
  - destruct (execute_statements_sent (script_statements sql_content)
                (answers srv) (prints srv)) as (sent & Hcalls & _ & Hfin & _).
    pose proof (execute_statements_printed (script_statements sql_content)
                  (answers srv) (prints srv)) as Hprinted.
    destruct (execute_statements (script_statements sql_content)
                (answers srv) (prints srv)) as [[exit calls] stdout].
    cbn [fst snd] in Hcalls, Hfin, Hprinted. subst calls.
    destruct exit.
    + rewrite Hfin by done.
      set (all_sent := filter (λ statement, skipped statement = false)
                    (script_statements sql_content)).
      destruct (commit_succeeds srv).
      * destruct (print stdout) as [[|m] stdout1] eqn:Hp.
        -- cbn [fst snd]. split; [done|]. split; [by exists []|].
           split; [by intros ?%Hnrc|]. intros _.
           split; [by intros ?%Hnrc|done].
        -- destruct (handle_failure_calls srv (map Execute all_sent ++ [Commit])%list
                       stdout1) as (Hr & Hc & _).
           split; [done|]. split.
           { intros _. destruct Hc as [->| ->];
               [by exists []|exists [Rollback]; by rewrite <- app_assoc]. }
           split; [done|]. intros Hall. exfalso.
           destruct (Hprinted Hall) as [_ Hall'].
           destruct (print_all_printed _ Hall') as (? & Hp' & _). congruence.
      * destruct (handle_failure_calls srv (map Execute all_sent ++ [Commit])%list
                    stdout) as (Hr & Hc & Hp).
        split; [done|]. split.
        { intros _. destruct Hc as [->| ->];
            [by exists []|exists [Rollback]; by rewrite <- app_assoc]. }
        split; [done|]. intros Hall.
        destruct (Hprinted Hall) as [_ Hall'].
        destruct (Hp Hall') as [_ Hnone]. split; [by right|done].
    + cbn [fst snd]. split; [done|]. split; [by intros ?%Hnc|].
      split; [done|]. intros _. split; [by intros ?%Hnr|done].
    + destruct (handle_failure_calls srv (map Execute sent) stdout)
        as (Hr & Hc & _).
      split; [done|]. split.
      { intros Hin. exfalso. destruct Hc as [Hc|Hc]; rewrite Hc in Hin.
        - by apply Hnc in Hin.
        - apply Hct in Hin. by apply list_elem_of_singleton in Hin. }
      split; [done|]. intros Hall. by destruct (Hprinted Hall) as [? _].
  - destruct (handle_failure_calls srv [] (prints srv)) as (Hr & Hc & Hp).
    split; [done|]. split.
    { intros Hin. exfalso. destruct Hc as [Hc|Hc]; rewrite Hc in Hin.
      - by apply not_elem_of_nil in Hin.
      - by apply list_elem_of_singleton in Hin. }
    split; [done|]. intros Hall. destruct (Hp Hall) as [_ Hnone].
    split; [by left|done].
Qed.

(** X17: a statement's error that is not tolerated ends the script. The
    script sends no statement after the failing one, does not commit and
    does not return [True], whatever becomes of the lines it prints; when
    every line is printed, the statements before the failing one have
    been executed, it is the last one sent, the script returns [False],
    and it neither commits nor rolls back what it has executed. *)
Theorem script_stops_at_first_error srv sql_content k message answers'
    front failing :
  cursor_opens srv = true →
  answers srv = (replicate k Executed ++ Raised message :: answers')%list →
  tolerated message = false →
  take (S k) (runnable sql_content) = (front ++ [failing])%list →
  length front = k →
  let out := execute_sql_script srv sql_content in
  out.1 ≠ Some true
  ∧ (∃ sent, sent ≠ [] ∧ sent `prefix_of` (front ++ [failing])%list
       ∧ (out.2 = map Execute sent
          ∨ out.2 = (map Execute sent ++ [Rollback])%list))
  ∧ (all_printed (prints srv) →
     out = (Some false, map Execute (front ++ [failing])%list)).
Proof.
  intros Hcur Hans Hm Htake Hlen.
  unfold execute_sql_script. rewrite Hcur, Hans.
  unfold runnable in Htake.
  destruct (execute_statements_stops _ k message answers' (prints srv)
              front failing Hm Htake Hlen) as (Hexit & (sent & Hs) & Hall).
  destruct (execute_statements (script_statements sql_content) _ (prints srv))
    as [[exit calls] stdout].
  cbn [fst snd] in Hexit, Hs, Hall. destruct Hs as (Hne & Hpre & ->).
  destruct exit; [done| |].
  - split; [done|]. split; [exists sent; auto|].
    intros Hp. specialize (Hall Hp). by injection Hall as ->.
  - destruct (handle_failure_calls srv (map Execute sent) stdout)
      as (Hr & Hc & _).
    split; [done|]. split; [exists sent; auto|].
    intros Hp. specialize (Hall Hp). discriminate Hall.
Qed.

Lemma script_stops_at_first_error_witness :
  let srv := mk_sql_server true
               [Executed; Raised (codes "table 'library.books' doesn't exist")]
               [] true true in
  let sql := codes "CREATE TABLE a (id INT); INSERT INTO books VALUES (1); CREATE TABLE b (id INT);" in
  all_printed (prints srv)
  ∧ execute_sql_script srv sql
    = (Some false, [Execute (codes "CREATE TABLE a (id INT)");
                    Execute (codes "INSERT INTO books VALUES (1)")]).
Proof.
  cbv zeta. split; [constructor|].
  refine (proj2 (proj2 (script_stops_at_first_error
           (mk_sql_server true
              [Executed; Raised (codes "table 'library.books' doesn't exist")]
              [] true true)
           _ 1
           (codes "table 'library.books' doesn't exist") []
           [codes "CREATE TABLE a (id INT)"]
           (codes "INSERT INTO books VALUES (1)") _ _ _ _ _)) _).
  - reflexivity.
  - reflexivity.
  - vm_compute. reflexivity.
  - vm_compute. reflexivity.
  - reflexivity.
  - constructor.
Defined.

(** X18: errors that name an existing object or a duplicate do not stop
    the script. When every exception of the server has [already exists]
    or [duplicate] in its lower-cased message, every line is printed and
    the cursor and the commit go through, the script sends every
    statement that is not skipped, commits and returns [True], however
    many statements failed. *)
Theorem script_tolerates_existing srv sql_content :
  cursor_opens srv = true →
  commit_succeeds srv = true →
  all_tolerated (answers srv) →
  all_printed (prints srv) →
  execute_sql_script srv sql_content
  = (Some true, (map Execute (runnable sql_content) ++ [Commit])%list).
Proof.
  intros Hcur Hcommit Hall Hout. unfold execute_sql_script, runnable.
  rewrite Hcur.
  destruct (execute_statements_tolerant (script_statements sql_content)
              _ _ Hall Hout) as (left & -> & Hleft).
  rewrite Hcommit.
  by destruct (print_all_printed _ Hleft) as (? & -> & _).
Qed.

Lemma script_tolerates_existing_witness :
  let srv := mk_sql_server true
               [Raised (codes "(1050, table 'books' already exists)");
                Raised (codes "(1062, duplicate entry '1' for key 'primary')")]
               [] true true in
  let sql := codes "CREATE TABLE books (id INT); INSERT INTO books VALUES (1);" in
  execute_sql_script srv sql
  = (Some true, [Execute (codes "CREATE TABLE books (id INT)");
                 Execute (codes "INSERT INTO books VALUES (1)");
                 Commit]).
Proof.
  apply (script_tolerates_existing
           (mk_sql_server true
              [Raised (codes "(1050, table 'books' already exists)");
               Raised (codes "(1062, duplicate entry '1' for key 'primary')")]
              [] true true)).
  - reflexivity.
  - reflexivity.
  - repeat constructor.
  - constructor.
Defined.

(** X19: a comment swallows the statement behind it. A piece of the
    script that begins, after its leading white space, with [--] is
    skipped whole, up to the next semicolon, with whatever SQL follows the
    comment line in it: the script behaves as if the piece were not
    there. *)
Theorem script_comment_swallows_statement srv piece rest :
  semicolon ∉ piece →
  str_startswith (codes "--") (str_strip piece) = true →
  execute_sql_script srv (piece ++ semicolon :: rest)%list
  = execute_sql_script srv rest
  ∧ execute_sql_script srv piece = execute_sql_script srv [].
Proof.
  intros Hsemi Hcomment.
  assert (script_statements piece = [str_strip piece]) as Hpiece.
  { unfold script_statements. rewrite (str_split_whole _ _ Hsemi). cbn.
    destruct (str_strip piece); [done|]. done. }
  unfold execute_sql_script.
  rewrite (script_statements_app _ _ Hsemi), Hpiece.
  cbn [app execute_statements]. unfold skipped. rewrite Hcomment.
  cbn [orb]. split; [done|].
  change (script_statements []) with (@nil pystr).
  done.
Qed.

Lemma script_comment_swallows_statement_witness :
  let srv := mk_sql_server true [] [] true true in
  let piece := (codes "-- the catalogue" ++ [10%N]
                ++ codes "CREATE TABLE books (id INT)")%list in
  execute_sql_script srv (piece ++ semicolon
                          :: codes " CREATE TABLE readers (id INT);")%list
  = (Some true, [Execute (codes "CREATE TABLE readers (id INT)"); Commit])
  ∧ execute_sql_script srv piece = (Some true, [Commit]).
Proof.
  pose proof (script_comment_swallows_statement
                (mk_sql_server true [] [] true true)
                (codes "-- the catalogue" ++ [10%N]
                 ++ codes "CREATE TABLE books (id INT)")%list
                (codes " CREATE TABLE readers (id INT);")) as H.
  destruct H as [H1 H2].
  - vm_compute. intros Hin.
    repeat (apply elem_of_cons in Hin as [Hin|Hin]; [discriminate Hin|]).
    by apply not_elem_of_nil in Hin.
  - vm_compute. reflexivity.
  - split; [rewrite H1|rewrite H2]; vm_compute; reflexivity.
Defined.

(** X20: a standard output that takes no line stops a script that would
    have gone through. When the lines printed raise (the first one with a
    message that is not tolerated), the script is left by an exception
    after the first statement it sends, whatever the server answers to
    that statement: nothing more is sent, nothing is committed and
    nothing is rolled back. *)
Theorem script_raises_when_stdout_fails srv sql_content first others
    m1 m2 m3 rest :
  cursor_opens srv = true →
  runnable sql_content = first :: others →
  prints srv = PrintRaised m1 :: PrintRaised m2 :: PrintRaised m3 :: rest →
  tolerated m1 = false →
  execute_sql_script srv sql_content = (None, [Execute first]).
Proof.
  intros Hcur Hrun Hprints Hm. unfold execute_sql_script.
  rewrite Hcur, Hprints.
  destruct (execute_statements_refused (script_statements sql_content)
              (answers srv) first others m1 m2 (PrintRaised m3 :: rest)
              Hrun Hm) as (left & -> & [->| ->]); reflexivity.
Qed.

Lemma script_raises_when_stdout_fails_witness :
  let refused := PrintRaised (codes "'gbk' codec can't encode character") in
  let srv := mk_sql_server true [] [refused; refused; refused] true true in
  let sql := codes "CREATE TABLE a (id INT); CREATE TABLE b (id INT);" in
  all_tolerated (answers srv)
  ∧ execute_sql_script srv sql
    = (None, [Execute (codes "CREATE TABLE a (id INT)")]).
Proof.
  cbv zeta. split; [constructor|].
  apply (script_raises_when_stdout_fails _ _
           (codes "CREATE TABLE a (id INT)")
           [codes "CREATE TABLE b (id INT)"]
           (codes "'gbk' codec can't encode character")
           (codes "'gbk' codec can't encode character")
           (codes "'gbk' codec can't encode character") []).
  - reflexivity.
  - vm_compute. reflexivity.
  - reflexivity.
  - vm_compute. reflexivity.
Defined.
